(** * single-whip: a WHIP room server, its audio relay and the client's
      Ogg/Opus container codec

    A shallow embedding of the Go sources and the properties of the
    natural-language specification, claim by claim.

    Source files and the definitions that embed them:
    - the room and the room manager ([addPeer], [removePeer],
      [getOrCreateRoom]): src/server/main.go; src/unnamed/part_001 has the
      same three functions, up to the text they log
    - [Server]      the handler of src/server/main.go
    - [Relay]       [connectPeers] of src/server/main.go
    - [Relay1]      [connectPeers] of src/unnamed/part_001
    - [ClientRaw]   src/client/main.go, third program (hand-written Ogg
                    writer, [crc32Ogg], [crc32Table])
    - [ClientPion]  src/client/main.go, second program (decoder and
                    packetizer on top of pion's oggreader)
    - [Client3]     src/unnamed/part_003 (a variant of the second program)
    - [oggreader]   the page reader of github.com/pion/webrtc/v4, an
                    external library the two decoders call. *)

From Stdlib Require Import ZArith List Lia Strings.Byte String Bool Sorted.
From stdpp Require Import gmap strings.
Import ListNotations.
Open Scope Z_scope.

(* ===================================================================== *)
(** * Part I: the embedding                                               *)
(* ===================================================================== *)

(** ** Pointers to peers

    A [*Peer] is either [nil] or the address of a [Peer] allocated by
    [&Peer{...}]; Go compares such pointers by address. *)

Definition PeerRef := nat.

Definition ptr_eqb (p q : option PeerRef) : bool :=
  match p, q with
  | None, None => true
  | Some a, Some b => Nat.eqb a b
  | _, _ => false
  end.

(** ** The room, shared by both server variants

    [type Room struct { ID string; PeerA *Peer; PeerB *Peer; mutex }].
    [addPeer] and [removePeer] run with the room's mutex held, so each is
    one atomic transition of the room. *)

Record Room := mkRoom {
  ID : string;
  PeerA : option PeerRef;
  PeerB : option PeerRef
}.

(** [func (r *Room) addPeer(peer *Peer) *Peer]: the room after the call and
    the returned pointer. *)
Definition addPeer (r : Room) (peer : option PeerRef) : Room * option PeerRef :=
  match PeerA r with
  | None => (mkRoom (ID r) peer (PeerB r), None)
  | Some _ =>
      match PeerB r with
      | None => (mkRoom (ID r) (PeerA r) peer, PeerA r)
      | Some _ => (r, None)
      end
  end.

(** [func (r *Room) removePeer(peer *Peer)]. *)
Definition removePeer (r : Room) (peer : option PeerRef) : Room :=
  if ptr_eqb (PeerA r) peer then mkRoom (ID r) None (PeerB r)
  else if ptr_eqb (PeerB r) peer then mkRoom (ID r) (PeerA r) None
  else r.

(** The peers a room holds. *)
Definition occupants (r : Room) : list PeerRef :=
  match PeerA r with Some a => [a] | None => [] end ++
  match PeerB r with Some b => [b] | None => [] end.

(** A run of [addPeer] calls on one room: the final room and the pointer
    each call returned, in call order. *)
Fixpoint addPeers (r : Room) (peers : list (option PeerRef))
  : Room * list (option PeerRef) :=
  match peers with
  | [] => (r, [])
  | peer :: rest =>
      let '(r1, other) := addPeer r peer in
      let '(r2, others) := addPeers r1 rest in
      (r2, other :: others)
  end.

(** ** The room manager

    [rooms map[string]*Room]. A room is created once per identifier and
    never deleted, so the identifier stands for the [*Room] it maps to and
    a mutation through the pointer is a mutation of the entry. *)

Definition getOrCreateRoom (rooms : gmap string Room) (roomID : string)
  : gmap string Room * Room :=
  match rooms !! roomID with
  | Some room => (rooms, room)
  | None =>
      let room := mkRoom roomID None None in
      (<[roomID := room]> rooms, room)
  end.

(** [room.addPeer(peer)] on the room stored under [roomID]. *)
Definition roomAddPeer (rooms : gmap string Room) (roomID : string)
    (peer : option PeerRef) : gmap string Room * option PeerRef :=
  match rooms !! roomID with
  | Some r => let '(r', other) := addPeer r peer in (<[roomID := r']> rooms, other)
  | None => (rooms, None)
  end.

(** [room.removePeer(peer)] on the room stored under [roomID]. *)
Definition roomRemovePeer (rooms : gmap string Room) (roomID : string)
    (peer : option PeerRef) : gmap string Room :=
  match rooms !! roomID with
  | Some r => <[roomID := removePeer r peer]> rooms
  | None => rooms
  end.

(** The operations through which the registry is mutated. *)
Inductive RegistryOp :=
| OpGetOrCreateRoom (roomID : string)
| OpAddPeer (roomID : string) (peer : option PeerRef)
| OpRemovePeer (roomID : string) (peer : option PeerRef).

Definition applyOp (rooms : gmap string Room) (op : RegistryOp) : gmap string Room :=
  match op with
  | OpGetOrCreateRoom roomID => fst (getOrCreateRoom rooms roomID)
  | OpAddPeer roomID peer => fst (roomAddPeer rooms roomID peer)
  | OpRemovePeer roomID peer => roomRemovePeer rooms roomID peer
  end.

Definition applyOps (rooms : gmap string Room) (ops : list RegistryOp) : gmap string Room :=
  fold_left applyOp ops rooms.

(** ** HTTP and the WebRTC library, as the handler sees them *)

Record Request := mkRequest {
  Method : string;
  (** [req.URL.Query().Get("room")]: the empty string when absent. *)
  roomParam : string;
  (** [io.ReadAll(req.Body)]: [None] when the read fails. *)
  Body : option string
}.

Record Response := mkResponse {
  Status : nat;
  Location : option string;
  RespBody : string
}.

Definition StatusOK : nat := 200.
Definition StatusCreated : nat := 201.
Definition StatusBadRequest : nat := 400.
Definition StatusInternalServerError : nat := 500.

(** [http.Error(res, msg, code)]. *)
Definition httpError (msg : string) (code : nat) : Response :=
  mkResponse code None (msg ++ String (Ascii.ascii_of_nat 10) EmptyString)%string.

(** What the calls into pion/webrtc return for one session: [None] is a
    nil error, [Some msg] an error with that text. *)
Record Session := mkSession {
  RegisterCodec : option string;
  NewPeerConnection : option string;
  NewTrackLocalStaticRTP : option string;
  AddTrack : option string;
  SetRemoteDescription : option string;
  CreateAnswer : option string;
  SetLocalDescription : option string;
  (** [peerConnection.LocalDescription().SDP] once gathering completed. *)
  LocalSDP : string
}.

(** The session set-up calls that precede the creation of the peer, and the
    three negotiation calls of [writeAnswer]. *)
Definition setupSucceeded (s : Session) : Prop :=
  RegisterCodec s = None /\ NewPeerConnection s = None /\
  NewTrackLocalStaticRTP s = None /\ AddTrack s = None.

Definition negotiationFailed (s : Session) : Prop :=
  is_Some (SetRemoteDescription s) \/ is_Some (CreateAnswer s) \/
  is_Some (SetLocalDescription s).

Inductive Outcome :=
| Responded (res : Response)
| Panicked.

(** The server: the registry, the next free peer address, the relay
    directions wired by [connectPeers] (source, destination) and the
    connection-state callbacks (peer, room). *)
Record ServerState := mkServer {
  rooms : gmap string Room;
  nextPeer : PeerRef;
  relays : list (PeerRef * PeerRef);
  watchers : list (PeerRef * string)
}.

Module Server.

(** [func writeAnswer(res, peerConnection, offer, path)]. *)
Definition writeAnswer (s : Session) (path : string) : Response :=
  match SetRemoteDescription s with
  | Some e => httpError e StatusInternalServerError
  | None =>
      match CreateAnswer s with
      | Some e => httpError e StatusInternalServerError
      | None =>
          match SetLocalDescription s with
          | Some e => httpError e StatusInternalServerError
          | None => mkResponse StatusCreated (Some path) (LocalSDP s)
          end
      end
  end.

(** [func whipHandler(res, req)]. *)
Definition whipHandler (st : ServerState) (req : Request) (s : Session)
  : Outcome * ServerState :=
  if String.eqb (Method req) "OPTIONS" then
    (Responded (mkResponse StatusOK None ""), st)
  else if String.eqb (roomParam req) "" then
    (Responded (httpError "room parameter is required" StatusBadRequest), st)
  else
    match Body req with
    | None => (Panicked, st)
    | Some offer =>
        match RegisterCodec s with
        | Some e => (Responded (httpError e StatusInternalServerError), st)
        | None =>
        match NewPeerConnection s with
        | Some e => (Responded (httpError e StatusInternalServerError), st)
        | None =>
        match NewTrackLocalStaticRTP s with
        | Some e => (Responded (httpError e StatusInternalServerError), st)
        | None =>
        match AddTrack s with
        | Some e => (Responded (httpError e StatusInternalServerError), st)
        | None =>
            let roomID := roomParam req in
            let peer := nextPeer st in
            let room := getOrCreateRoom (rooms st) roomID in
            let added := roomAddPeer (fst room) roomID (Some peer) in
            let relays2 :=
              match snd added with
              | Some otherPeer => relays st ++ [(peer, otherPeer); (otherPeer, peer)]
              | None => relays st
              end in
            let st' := mkServer (fst added) (S peer) relays2
                                (watchers st ++ [(peer, roomID)]) in
            (Responded (writeAnswer s "/whip"), st')
        end end end end
    end.

(** The callback of [OnConnectionStateChange]: [failed] is true for the
    states Failed and Closed. *)
Definition onConnectionStateChange (st : ServerState) (peer : PeerRef)
    (roomID : string) (failed : bool) : ServerState :=
  if failed then
    mkServer (roomRemovePeer (rooms st) roomID (Some peer))
             (nextPeer st) (relays st) (watchers st)
  else st.

End Server.

(** What happens to the server: a request is handled, or the connection
    of a peer changes state and its callback runs. *)
Inductive ServerEvent :=
| EvRequest (req : Request) (s : Session)
| EvConnectionState (peer : PeerRef) (roomID : string) (failed : bool).

Definition serverStep (st : ServerState) (ev : ServerEvent) : ServerState :=
  match ev with
  | EvRequest req s => snd (Server.whipHandler st req s)
  | EvConnectionState peer roomID failed =>
      Server.onConnectionStateChange st peer roomID failed
  end.

Definition serverRun (st : ServerState) (evs : list ServerEvent) : ServerState :=
  fold_left serverStep evs st.

Definition initialServer : ServerState := mkServer ∅ 0%nat [] [].

(** Every peer a room holds was allocated before, and no peer is in both
    slots. *)
Definition roomsOk (st : ServerState) : Prop :=
  forall roomID r, rooms st !! roomID = Some r ->
    (forall p, In p (occupants r) -> (p < nextPeer st)%nat) /\
    List.NoDup (occupants r).

(** ** RTP packets and the relay

    [rtp.Header] and [rtp.Packet] of github.com/pion/rtp, with the fields the
    sources read or write. *)

Record Extension_ := mkExtension {
  ext_id : Z;
  ext_payload : list byte
}.

Record Header := mkHeader {
  Version : Z;
  Padding : bool;
  Extension : bool;
  Marker : bool;
  PayloadType : Z;
  SequenceNumber : Z;
  Timestamp : Z;
  SSRC : Z;
  CSRC : list Z;
  ExtensionProfile : Z;
  Extensions : list Extension_
}.

Record Packet := mkPacket {
  Hdr : Header;
  Payload : list byte;
  PaddingSize : Z
}.

(** [track.Kind()], fixed for a remote track. *)
Inductive RTPCodecType :=
| RTPCodecTypeUnknown
| RTPCodecTypeAudio
| RTPCodecTypeVideo.

Definition isAudio (k : RTPCodecType) : bool :=
  match k with RTPCodecTypeAudio => true | _ => false end.

(** The outbound track as the relay and the packetizer see it: the [n]-th
    call of [WriteRTP] (counted from 0) returns an error when [fails n]
    holds. The functions below return the packets whose write succeeded,
    in call order. *)
Definition WriteOracle := nat -> bool.

Module Relay.

(** [pkt.Header.Extensions = nil; pkt.Header.Extension = false]. *)
Definition stripExtensions (pkt : Packet) : Packet :=
  let h := Hdr pkt in
  mkPacket
    (mkHeader (Version h) (Padding h) false (Marker h) (PayloadType h)
              (SequenceNumber h) (Timestamp h) (SSRC h) (CSRC h)
              (ExtensionProfile h) [])
    (Payload pkt) (PaddingSize pkt).

(** The forwarding goroutine of [connectPeers] in src/server/main.go.
    [reads] are the packets [track.ReadRTP] returns before it reports an
    error, at which the loop returns; [n] counts the calls of [WriteRTP]
    made so far. *)
Fixpoint forward (kind : RTPCodecType) (fails : WriteOracle) (n : nat)
    (reads : list Packet) : list Packet :=
  match reads with
  | [] => []
  | pkt :: rest =>
      let pkt' := stripExtensions pkt in
      if isAudio kind then
        if fails n then []
        else pkt' :: forward kind fails (S n) rest
      else forward kind fails n rest
  end.

Definition connectPeers (kind : RTPCodecType) (fails : WriteOracle)
    (reads : list Packet) : list Packet :=
  forward kind fails 0%nat reads.

End Relay.

Module Relay1.

(** [newPkt := &rtp.Packet{Header: rtp.Header{...}, Payload: pkt.Payload}]
    of src/unnamed/part_001. *)
Definition newPkt (pkt : Packet) : Packet :=
  let h := Hdr pkt in
  mkPacket
    (mkHeader 2 false false (Marker h) (PayloadType h)
              (SequenceNumber h) (Timestamp h) (SSRC h) [] 0 [])
    (Payload pkt) 0.

(** The forwarding goroutine of [connectPeers] in src/unnamed/part_001. *)
Fixpoint forward (kind : RTPCodecType) (fails : WriteOracle) (n : nat)
    (reads : list Packet) : list Packet :=
  match reads with
  | [] => []
  | pkt :: rest =>
      if negb (isAudio kind) then forward kind fails n rest
      else if (length (Payload pkt) =? 0)%nat then forward kind fails n rest
      else if fails n then []
      else newPkt pkt :: forward kind fails (S n) rest
  end.

Definition connectPeers (kind : RTPCodecType) (fails : WriteOracle)
    (reads : list Packet) : list Packet :=
  forward kind fails 0%nat reads.

End Relay1.

(** A track on which no write fails. *)
Definition neverFails : WriteOracle := fun _ => false.

Definition nonEmptyPayload (pkt : Packet) : bool :=
  negb (length (Payload pkt) =? 0)%nat.

(** A packet without header extensions. *)
Definition noExtensions (pkt : Packet) : Prop :=
  Extension (Hdr pkt) = false /\ Extensions (Hdr pkt) = [].

(** A sample inbound packet, with one header extension. *)
Definition samplePacket (seq : Z) (payload : list byte) : Packet :=
  mkPacket (mkHeader 2 false true false 111 seq (960 * seq) 7 [] 48862
                     [mkExtension 1 [x01]])
           payload 0.

(** ** Bytes and fixed-width integers

    A Go [byte] is a [Byte.byte]; [uint16], [uint32] and [uint64] values
    are integers kept in range by the reductions Go's arithmetic makes. *)

Definition b2z (b : byte) : Z := Z.of_N (Byte.to_N b).

(** The conversion [byte(z)]: the low eight bits. *)
Definition z2b (z : Z) : byte :=
  match Byte.of_N (Z.to_N (z mod 256)) with
  | Some b => b
  | None => x00
  end.

Definition uint16 (z : Z) : Z := z mod 2 ^ 16.
Definition uint32 (z : Z) : Z := z mod 2 ^ 32.
Definition uint64 (z : Z) : Z := z mod 2 ^ 64.

(** [binary.LittleEndian]: the [n] low bytes of [z], least significant
    first, and the value of a little-endian byte string. *)
Fixpoint le_bytes (n : nat) (z : Z) : list byte :=
  match n with
  | O => []
  | S n' => z2b z :: le_bytes n' (z / 256)
  end.

Fixpoint le_value (bs : list byte) : Z :=
  match bs with
  | [] => 0
  | b :: bs' => b2z b + 256 * le_value bs'
  end.

(** [b[lo:hi]]. *)
Definition slice (lo hi : nat) (b : list byte) : list byte :=
  firstn (hi - lo) (skipn lo b).

(** [binary.LittleEndian.PutUint32(b[pos:], v)]: four bytes overwritten in
    place. *)
Definition PutUint32At (b : list byte) (pos : nat) (v : Z) : list byte :=
  firstn pos b ++ le_bytes 4 v ++ skipn (pos + 4) b.

Fixpoint bytes_eqb (a b : list byte) : bool :=
  match a, b with
  | [], [] => true
  | x :: a', y :: b' => Byte.eqb x y && bytes_eqb a' b'
  | _, _ => false
  end.

(** ** The client's hand-written Ogg writer (src/client/main.go, third
    program) *)

Module ClientRaw.

(** [var crc32Table = [256]uint32{...}]. *)
Definition crc32Table : list Z := [
  0x00000000; 0x04c11db7; 0x09823b6e; 0x0d4326d9;
  0x130476dc; 0x17c56b6b; 0x1a864db2; 0x1e475005;
  0x2608edb8; 0x22c9f00f; 0x2f8ad6d6; 0x2b4bcb61;
  0x350c9b64; 0x31cd86d3; 0x3c8ea00a; 0x384fbdbd;
  0x4c11db70; 0x48d0c6c7; 0x4593e01e; 0x4152fda9;
  0x5f15adac; 0x5bd4b01b; 0x569796c2; 0x52568b75;
  0x6a1936c8; 0x6ed82b7f; 0x639b0da6; 0x675a1011;
  0x791d4014; 0x7ddc5da3; 0x709f7b7a; 0x745e66cd;
  0x9823b6e0; 0x9ce2ab57; 0x91a18d8e; 0x95609039;
  0x8b27c03c; 0x8fe6dd8b; 0x82a5fb52; 0x8664e6e5;
  0xbe2b5b58; 0xbaea46ef; 0xb7a96036; 0xb3687d81;
  0xad2f2d84; 0xa9ee3033; 0xa4ad16ea; 0xa06c0b5d;
  0xd4326d90; 0xd0f37027; 0xddb056fe; 0xd9714b49;
  0xc7361b4c; 0xc3f706fb; 0xceb42022; 0xca753d95;
  0xf23a8028; 0xf6fb9d9f; 0xfbb8bb46; 0xff79a6f1;
  0xe13ef6f4; 0xe5ffeb43; 0xe8bccd9a; 0xec7dd02d;
  0x34867077; 0x30476dc0; 0x3d044b19; 0x39c556ae;
  0x278206ab; 0x23431b1c; 0x2e003dc5; 0x2ac12072;
  0x128e9dcf; 0x164f8078; 0x1b0ca6a1; 0x1fcdbb16;
  0x018aeb13; 0x054bf6a4; 0x0808d07d; 0x0cc9cdca;
  0x7897ab07; 0x7c56b6b0; 0x71159069; 0x75d48dde;
  0x6b93dddb; 0x6f52c06c; 0x6211e6b5; 0x66d0fb02;
  0x5e9f46bf; 0x5a5e5b08; 0x571d7dd1; 0x53dc6066;
  0x4d9b3063; 0x495a2dd4; 0x44190b0d; 0x40d816ba;
  0xaca5c697; 0xa864db20; 0xa527fdf9; 0xa1e6e04e;
  0xbfa1b04b; 0xbb60adfc; 0xb6238b25; 0xb2e29692;
  0x8aad2b2f; 0x8e6c3698; 0x832f1041; 0x87ee0df6;
  0x99a95df3; 0x9d684044; 0x902b669d; 0x94ea7b2a;
  0xe0b41de7; 0xe4750050; 0xe9362689; 0xedf73b3e;
  0xf3b06b3b; 0xf771768c; 0xfa325055; 0xfef34de2;
  0xc6bcf05f; 0xc27dede8; 0xcf3ecb31; 0xcbffd686;
  0xd5b88683; 0xd1799b34; 0xdc3abded; 0xd8fba05a;
  0x690ce0ee; 0x6dcdfd59; 0x608edb80; 0x644fc637;
  0x7a089632; 0x7ec98b85; 0x738aad5c; 0x774bb0eb;
  0x4f040d56; 0x4bc510e1; 0x46863638; 0x42472b8f;
  0x5c007b8a; 0x58c1663d; 0x558240e4; 0x51435d53;
  0x251d3b9e; 0x21dc2629; 0x2c9f00f0; 0x285e1d47;
  0x36194d42; 0x32d850f5; 0x3f9b762c; 0x3b5a6b9b;
  0x0315d626; 0x07d4cb91; 0x0a97ed48; 0x0e56f0ff;
  0x1011a0fa; 0x14d0bd4d; 0x19939b94; 0x1d528623;
  0xf12f560e; 0xf5ee4bb9; 0xf8ad6d60; 0xfc6c70d7;
  0xe22b20d2; 0xe6ea3d65; 0xeba91bbc; 0xef68060b;
  0xd727bbb6; 0xd3e6a601; 0xdea580d8; 0xda649d6f;
  0xc423cd6a; 0xc0e2d0dd; 0xcda1f604; 0xc960ebb3;
  0xbd3e8d7e; 0xb9ff90c9; 0xb4bcb610; 0xb07daba7;
  0xae3afba2; 0xaafbe615; 0xa7b8c0cc; 0xa379dd7b;
  0x9b3660c6; 0x9ff77d71; 0x92b45ba8; 0x9675461f;
  0x8832161a; 0x8cf30bad; 0x81b02d74; 0x857130c3;
  0x5d8a9099; 0x594b8d2e; 0x5408abf7; 0x50c9b640;
  0x4e8ee645; 0x4a4ffbf2; 0x470cdd2b; 0x43cdc09c;
  0x7b827d21; 0x7f436096; 0x7200464f; 0x76c15bf8;
  0x68860bfd; 0x6c47164a; 0x61043093; 0x65c52d24;
  0x119b4be9; 0x155a565e; 0x18197087; 0x1cd86d30;
  0x029f3d35; 0x065e2082; 0x0b1d065b; 0x0fdc1bec;
  0x3793a651; 0x3352bbe6; 0x3e119d3f; 0x3ad08088;
  0x2497d08d; 0x2056cd3a; 0x2d15ebe3; 0x29d4f654;
  0xc5a92679; 0xc1683bce; 0xcc2b1d17; 0xc8ea00a0;
  0xd6ad50a5; 0xd26c4d12; 0xdf2f6bcb; 0xdbee767c;
  0xe3a1cbc1; 0xe760d676; 0xea23f0af; 0xeee2ed18;
  0xf0a5bd1d; 0xf464a0aa; 0xf9278673; 0xfde69bc4;
  0x89b8fd09; 0x8d79e0be; 0x803ac667; 0x84fbdbd0;
  0x9abc8bd5; 0x9e7d9662; 0x933eb0bb; 0x97ffad0c;
  0xafb010b1; 0xab710d06; 0xa6322bdf; 0xa2f33668;
  0xbcb4666d; 0xb8757bda; 0xb5365d03; 0xb1f740b4
].

(** One iteration of the loop of [crc32Ogg]:
    [crc = (crc << 8) ^ crc32Table[byte(crc>>24)^b]]. *)
Definition crc32Step (crc : Z) (b : byte) : Z :=
  Z.lxor (uint32 (Z.shiftl crc 8))
         (nth (Z.to_nat (Z.lxor (b2z (z2b (Z.shiftr crc 24))) (b2z b)))
              crc32Table 0).

(** [func crc32Ogg(data []byte) uint32]. *)
Definition crc32Ogg (data : list byte) : Z :=
  fold_left crc32Step data 0.

(** The variables of [createOggOpusFile] that [writeOggPage] captures and
    mutates: the buffer and the page counter. *)
Record Writer := mkWriter {
  buf : list byte;
  pageSequence : Z
}.

(** The closure [writeOggPage(data, headerType, granule, isFirst)];
    [serialNumber] is captured and never assigned. *)
Definition writeOggPage (serialNumber : Z) (data : list byte)
    (headerType : byte) (granule : Z) (isFirst : bool) (w : Writer) : Writer :=
  let buf1 := buf w ++ list_byte_of_string "OggS" ++ [x00] ++ [headerType]
              ++ le_bytes 8 granule ++ le_bytes 4 serialNumber
              ++ le_bytes 4 (pageSequence w) in
  let pageSequence' := uint32 (pageSequence w + 1) in
  let checksumPos := length buf1 in
  let buf2 := buf1 ++ le_bytes 4 0 ++ [x01]
              ++ [z2b (Z.of_nat (length data))] ++ data in
  let pageData := skipn (checksumPos - 22) buf2 in
  let checksum := crc32Ogg pageData in
  mkWriter (PutUint32At buf2 checksumPos checksum) pageSequence'.

Definition opusHead : list byte :=
  list_byte_of_string "OpusHead" ++ [x01] ++ [z2b 2] ++ le_bytes 2 0
  ++ le_bytes 4 (uint32 48000) ++ le_bytes 2 0 ++ [x00].

Definition vendorString : string := "Go WebRTC Client".

Definition opusTags : list byte :=
  list_byte_of_string "OpusTags"
  ++ le_bytes 4 (uint32 (Z.of_nat (String.length vendorString)))
  ++ list_byte_of_string vendorString ++ le_bytes 4 0.

(** The loop [for i, packet := range opusPackets] of [createOggOpusFile]
    from index [i] on; [n] is [len(opusPackets)]. *)
Fixpoint writePackets (serialNumber : Z) (n : nat) (i : nat)
    (packets : list (list byte)) (granulePosition : Z) (w : Writer) : Writer :=
  match packets with
  | [] => w
  | packet :: rest =>
      if ((length packet =? 0) || (255 <? length packet))%nat then
        writePackets serialNumber n (S i) rest granulePosition w
      else
        let granulePosition' := uint64 (granulePosition + 960) in
        let headerType :=
          if Z.of_nat i =? Z.of_nat n - 1 then x04 else x00 in
        writePackets serialNumber n (S i) rest granulePosition'
          (writeOggPage serialNumber packet headerType granulePosition' false w)
  end.

(** [func createOggOpusFile(opusPackets [][]byte) []byte]; [now] is what
    [time.Now().Unix()] returns. *)
Definition createOggOpusFile (now : Z) (opusPackets : list (list byte)) : list byte :=
  let serialNumber := uint32 now in
  let w0 := mkWriter [] 0 in
  let w1 := writeOggPage serialNumber opusHead x02 0 true w0 in
  let w2 := writeOggPage serialNumber opusTags x00 0 false w1 in
  buf (writePackets serialNumber (length opusPackets) 0 opusPackets 0 w2).

End ClientRaw.

(** ** The Ogg page reader of pion (external library)

    The client's decoders call [oggreader.NewWith] and
    [OggReader.ParseNextPage] of
    github.com/pion/webrtc/v4/pkg/media/oggreader. The library is not part
    of the repository; this module follows its published source. The
    reader's state is the part of the stream not yet read. *)

Module oggreader.

Inductive Error :=
| EOF                            (* io.EOF *)
| ErrUnexpectedEOF               (* io.ErrUnexpectedEOF *)
| errChecksumMismatch
| errBadIDPageSignature
| errBadIDPageType
| errBadIDPageLength
| errBadIDPagePayloadSignature.

Definition isEOF (e : Error) : bool :=
  match e with EOF => true | _ => false end.

(** [io.ReadFull(stream, buf)] with [len(buf) = n] on a [bytes.Reader]:
    the bytes read and the rest of the stream, [io.EOF] when nothing is
    left and [io.ErrUnexpectedEOF] when the stream ends early. *)
Definition ReadFull (n : nat) (stream : list byte)
  : (list byte * list byte) + Error :=
  if (n =? 0)%nat then inl ([], stream)
  else if (length stream =? 0)%nat then inr EOF
  else if (length stream <? n)%nat then inr ErrUnexpectedEOF
  else inl (firstn n stream, skipn n stream).

Record OggPageHeader := mkOggPageHeader {
  GranulePosition : Z;
  sig : list byte;
  version : byte;
  headerType : byte;
  serial : Z;
  index : Z;
  segmentsCount : byte
}.

Definition pageHeaderLen : nat := 27.
Definition pageHeaderTypeBeginningOfStream : byte := x02.
Definition pageHeaderSignature : list byte := list_byte_of_string "OggS".
Definition idPageSignature : list byte := list_byte_of_string "OpusHead".
Definition idPagePayloadLength : nat := 19.

(** [generateChecksumTable]: for each [i], eight shift steps of
    [uint32(i) << 24] with the polynomial 0x04c11db7. *)
Definition poly : Z := 0x04c11db7.

Fixpoint shiftSteps (j : nat) (r : Z) : Z :=
  match j with
  | O => r
  | S j' =>
      shiftSteps j'
        (if Z.testbit r 31 then Z.lxor (uint32 (Z.shiftl r 1)) poly
         else uint32 (Z.shiftl r 1))
  end.

Definition generateChecksumTable : list Z :=
  map (fun i => shiftSteps 8 (Z.shiftl (Z.of_nat i) 24)) (seq 0 256).

(** The table the reader stores when it is created. *)
Definition checksumTable : list Z := Eval vm_compute in generateChecksumTable.

(** The closure [updateChecksum(v)] of [ParseNextPage]. *)
Definition updateChecksum (checksum : Z) (v : byte) : Z :=
  Z.lxor (uint32 (Z.shiftl checksum 8))
         (nth (Z.to_nat (Z.lxor (b2z (z2b (Z.shiftr checksum 24))) (b2z v)))
              checksumTable 0).

(** [for index := range h]: the bytes 22 to 25, which hold the expected
    checksum, enter the computation as zero. *)
Fixpoint headerChecksum (index : nat) (h : list byte) (checksum : Z) : Z :=
  match h with
  | [] => checksum
  | v :: h' =>
      headerChecksum (S index) h'
        (if ((21 <? index) && (index <? 26))%nat then updateChecksum checksum x00
         else updateChecksum checksum v)
  end.

Inductive PageResult :=
| Page (payload : list byte) (pageHeader : OggPageHeader) (rest : list byte)
| PageError (e : Error).

(** [func (o *OggReader) ParseNextPage() ([]byte, *OggPageHeader, error)],
    with checksums verified as [NewWith] sets it up. *)
Definition ParseNextPage (stream : list byte) : PageResult :=
  match ReadFull pageHeaderLen stream with
  | inr e => PageError e
  | inl (h, stream1) =>
      let pageHeader :=
        mkOggPageHeader (le_value (slice 6 14 h)) (slice 0 4 h)
          (nth 4 h x00) (nth 5 h x00)
          (le_value (slice 14 18 h)) (le_value (slice 18 22 h))
          (nth 26 h x00) in
      match ReadFull (Z.to_nat (b2z (segmentsCount pageHeader))) stream1 with
      | inr e => PageError e
      | inl (sizeBuffer, stream2) =>
          let payloadSize := fold_left (fun acc s => acc + b2z s) sizeBuffer 0 in
          match ReadFull (Z.to_nat payloadSize) stream2 with
          | inr e => PageError e
          | inl (payload, stream3) =>
              let checksum :=
                fold_left updateChecksum payload
                  (fold_left updateChecksum sizeBuffer
                     (headerChecksum 0 h 0)) in
              if le_value (slice 22 26 h) =? checksum
              then Page payload pageHeader stream3
              else PageError errChecksumMismatch
          end
      end
  end.

(** [NewWith(in)]: [readHeaders] parses and validates the identification
    page; the reader returned stands after that page. *)
Definition NewWith (stream : list byte) : list byte + Error :=
  match ParseNextPage stream with
  | PageError e => inr e
  | Page payload pageHeader rest =>
      if negb (bytes_eqb (sig pageHeader) pageHeaderSignature) then
        inr errBadIDPageSignature
      else if negb (Byte.eqb (headerType pageHeader) pageHeaderTypeBeginningOfStream) then
        inr errBadIDPageType
      else if negb (length payload =? idPagePayloadLength)%nat then
        inr errBadIDPageLength
      else if negb (bytes_eqb (slice 0 8 payload) idPageSignature) then
        inr errBadIDPagePayloadSignature
      else inl rest
  end.

(** All the pages of a stream, as repeated calls of [ParseNextPage] return
    them up to [io.EOF]; [None] when a call fails otherwise. Each call
    that succeeds consumes at least the 27 header bytes, so the length of
    the stream bounds the number of calls. *)
Fixpoint pagesFrom (fuel : nat) (stream : list byte)
  : option (list (OggPageHeader * list byte)) :=
  match fuel with
  | O => None
  | S fuel' =>
      match ParseNextPage stream with
      | PageError e => if isEOF e then Some [] else None
      | Page payload pageHeader rest =>
          match pagesFrom fuel' rest with
          | Some ps => Some ((pageHeader, payload) :: ps)
          | None => None
          end
      end
  end.

Definition pages (stream : list byte) : option (list (OggPageHeader * list byte)) :=
  pagesFrom (S (length stream)) stream.

End oggreader.

(** What the decoders return: the packets and a nil error, or nil and an
    error (the wrapping message left out). *)
Inductive Decoded :=
| Packets (packets : list (list byte))
| Failed (e : oggreader.Error).

(** How [sendAudioToTrack] ends: a nil error, the decoder's error, or the
    error of the write for the frame of that index. *)
Inductive SendResult :=
| Sent
| ExtractError (e : oggreader.Error)
| WriteError (i : nat).

(** ** The client's decoder and packetizer (src/client/main.go, second
    program) *)

Module ClientPion.

(** The loop [for { packet, _, err := reader.ParseNextPage() ... }]; the
    result is [None] only when [fuel] calls did not reach the end. *)
Fixpoint readPages (fuel : nat) (reader : list byte)
    (packets : list (list byte)) : option Decoded :=
  match fuel with
  | O => None
  | S fuel' =>
      match oggreader.ParseNextPage reader with
      | oggreader.PageError e =>
          if oggreader.isEOF e then Some (Packets packets) else Some (Failed e)
      | oggreader.Page packet _ reader' =>
          readPages fuel' reader' (packets ++ [packet])
      end
  end.

(** [func extractOpusPacketsFromOgg(oggData []byte) ([][]byte, error)]. *)
Definition extractOpusPacketsFromOgg (oggData : list byte) : option Decoded :=
  match oggreader.NewWith oggData with
  | inr e => Some (Failed e)
  | inl reader => readPages (S (length reader)) reader []
  end.

(** The loop [for i, opusPacket := range opusPackets] of
    [sendAudioToTrack] from index [i] on; [n] is [len(opusPackets)]. The
    result is the packets written and the index at which [WriteRTP]
    failed, if it did. The pause of 20 ms after each packet is not
    modelled. *)
Fixpoint sendPackets (fails : WriteOracle) (n i : nat)
    (opusPackets : list (list byte)) (sequenceNumber timestamp : Z)
  : list Packet * option nat :=
  match opusPackets with
  | [] => ([], None)
  | opusPacket :: rest =>
      let packet :=
        mkPacket (mkHeader 2 false false (Z.of_nat i =? Z.of_nat n - 1) 97
                           sequenceNumber timestamp 0 [] 0 [])
                 opusPacket 0 in
      if fails i then ([], Some i)
      else
        let r := sendPackets fails n (S i) rest
                             (uint16 (sequenceNumber + 1))
                             (uint32 (timestamp + 960)) in
        (packet :: fst r, snd r)
  end.

(** [func sendAudioToTrack(track, audioData []byte) error]: [None] only
    when the decoder's loop ran out of fuel. *)
Definition sendAudioToTrack (fails : WriteOracle) (audioData : list byte)
  : option (list Packet * SendResult) :=
  match extractOpusPacketsFromOgg audioData with
  | None => None
  | Some (Failed e) => Some ([], ExtractError e)
  | Some (Packets opusPackets) =>
      let r := sendPackets fails (length opusPackets) 0 opusPackets 0 0 in
      Some (fst r, match snd r with Some i => WriteError i | None => Sent end)
  end.

End ClientPion.

(** ** The decoder of src/unnamed/part_003 *)

Module Client3.

(** [header == "OpusHead" || header == "OpusTags"] under
    [len(packet) >= 8]. *)
Definition isHeaderPacket (packet : list byte) : bool :=
  (8 <=? length packet)%nat &&
  (bytes_eqb (slice 0 8 packet) (list_byte_of_string "OpusHead")
   || bytes_eqb (slice 0 8 packet) (list_byte_of_string "OpusTags")).

Fixpoint readPages (fuel : nat) (reader : list byte)
    (packets : list (list byte)) : option Decoded :=
  match fuel with
  | O => None
  | S fuel' =>
      match oggreader.ParseNextPage reader with
      | oggreader.PageError e =>
          if oggreader.isEOF e then Some (Packets packets) else Some (Failed e)
      | oggreader.Page packet _ reader' =>
          if (0 <? length packet)%nat then
            if isHeaderPacket packet then readPages fuel' reader' packets
            else readPages fuel' reader' (packets ++ [packet])
          else readPages fuel' reader' packets
      end
  end.

(** [func extractOpusPacketsFromOgg(oggData []byte) ([][]byte, error)]. *)
Definition extractOpusPacketsFromOgg (oggData : list byte) : option Decoded :=
  match oggreader.NewWith oggData with
  | inr e => Some (Failed e)
  | inl reader => readPages (S (length reader)) reader []
  end.

(** The loop of [sendAudioToTrack]; [w] counts the calls of [WriteRTP]
    made so far. *)
Fixpoint sendPackets (fails : WriteOracle) (n i w : nat)
    (opusPackets : list (list byte)) (sequenceNumber timestamp : Z)
  : list Packet * option nat :=
  match opusPackets with
  | [] => ([], None)
  | opusPacket :: rest =>
      if (length opusPacket =? 0)%nat then
        sendPackets fails n (S i) w rest sequenceNumber timestamp
      else
        let packet :=
          mkPacket (mkHeader 2 false false (Z.of_nat i =? Z.of_nat n - 1) 96
                             sequenceNumber timestamp 0 [] 0 [])
                   opusPacket 0 in
        if fails w then ([], Some i)
        else
          let r := sendPackets fails n (S i) (S w) rest
                               (uint16 (sequenceNumber + 1))
                               (uint32 (timestamp + 960)) in
          (packet :: fst r, snd r)
  end.

(** [func sendAudioToTrack(track, audioData []byte) error]. *)
Definition sendAudioToTrack (fails : WriteOracle) (audioData : list byte)
  : option (list Packet * SendResult) :=
  match extractOpusPacketsFromOgg audioData with
  | None => None
  | Some (Failed e) => Some ([], ExtractError e)
  | Some (Packets opusPackets) =>
      let r := sendPackets fails (length opusPackets) 0 0 opusPackets 0 0 in
      Some (fst r, match snd r with Some i => WriteError i | None => Sent end)
  end.

End Client3.

(** ** Ogg pages

    The layout of a page (RFC 3533): 22 header bytes, the 4-byte checksum,
    the number of segments, the segment table and the payload. The
    properties below speak of the pages the writer emits and of the pages
    the reader accepts in these terms. *)

Record OggPage := mkOggPage {
  pageType : byte;
  pageGranule : Z;
  pageSerial : Z;
  pageIndex : Z;
  pageSegments : list byte;
  pagePayload : list byte
}.

Definition pageHeader22 (p : OggPage) : list byte :=
  list_byte_of_string "OggS" ++ [x00] ++ [pageType p]
  ++ le_bytes 8 (pageGranule p) ++ le_bytes 4 (pageSerial p)
  ++ le_bytes 4 (pageIndex p).

(** The 27 bytes that precede the segment table. *)
Definition pageHeader27 (checksum : Z) (p : OggPage) : list byte :=
  pageHeader22 p ++ le_bytes 4 checksum
  ++ [z2b (Z.of_nat (length (pageSegments p)))].

Definition pageTail (p : OggPage) : list byte :=
  [z2b (Z.of_nat (length (pageSegments p)))] ++ pageSegments p ++ pagePayload p.

Definition pageBytes (checksum : Z) (p : OggPage) : list byte :=
  pageHeader22 p ++ le_bytes 4 checksum ++ pageTail p.

(** A page with its checksum: the checksum of the page laid out with a
    zero checksum field. *)
Definition encodePage (p : OggPage) : list byte :=
  pageBytes (ClientRaw.crc32Ogg (pageBytes 0 p)) p.

(** The checksum field of the bytes of a page (offsets 22 to 25) holds the
    checksum of the whole page taken with that field zeroed. *)
Definition checksumOk (page : list byte) : Prop :=
  le_value (slice 22 26 page)
  = ClientRaw.crc32Ogg (firstn 22 page ++ repeat x00 4 ++ skipn 26 page).

Definition segmentsTotal (segments : list byte) : Z :=
  fold_left (fun acc s => acc + b2z s) segments 0.

Definition wellFormedPage (p : OggPage) : Prop :=
  (length (pageSegments p) <= 255)%nat /\
  segmentsTotal (pageSegments p) = Z.of_nat (length (pagePayload p)).

(** The header the reader reports for a page. *)
Definition headerOf (p : OggPage) : oggreader.OggPageHeader :=
  oggreader.mkOggPageHeader (uint64 (pageGranule p))
    (list_byte_of_string "OggS") x00 (pageType p)
    (uint32 (pageSerial p)) (uint32 (pageIndex p))
    (z2b (Z.of_nat (length (pageSegments p)))).

(** A page whose segment table has the one entry [byte(len(data))], as
    [writeOggPage] lays it out. *)
Definition singleSegmentPage (headerType : byte) (granule serial index : Z)
    (data : list byte) : OggPage :=
  mkOggPage headerType granule serial index
            [z2b (Z.of_nat (length data))] data.

(** The frames [createOggOpusFile] does not skip. *)
Definition validFrame (packet : list byte) : bool :=
  negb ((length packet =? 0) || (255 <? length packet))%nat.

(** The audio pages of a container, read off the loop of
    [createOggOpusFile]: [i] is the index of the next frame, [n] the
    number of frames, [granule] and [index] the running granule position
    and page number. *)
Fixpoint audioPages (serial : Z) (n i : nat) (packets : list (list byte))
    (granule index : Z) : list OggPage :=
  match packets with
  | [] => []
  | packet :: rest =>
      if validFrame packet then
        let granule' := uint64 (granule + 960) in
        singleSegmentPage (if Z.of_nat i =? Z.of_nat n - 1 then x04 else x00)
                          granule' serial index packet
        :: audioPages serial n (S i) rest granule' (uint32 (index + 1))
      else audioPages serial n (S i) rest granule index
  end.

Definition audioPagesOf (now : Z) (packets : list (list byte)) : list OggPage :=
  audioPages (uint32 now) (length packets) 0 packets 0 2.

Definition containerPages (now : Z) (packets : list (list byte)) : list OggPage :=
  singleSegmentPage x02 0 (uint32 now) 0 ClientRaw.opusHead
  :: singleSegmentPage x00 0 (uint32 now) 1 ClientRaw.opusTags
  :: audioPagesOf now packets.

(** The granule positions and the header types the reader reports. *)
Definition granules (pages : list (oggreader.OggPageHeader * list byte)) : list Z :=
  map (fun hp => oggreader.GranulePosition (fst hp)) pages.

Definition headerTypes (pages : list (oggreader.OggPageHeader * list byte))
  : list byte :=
  map (fun hp => oggreader.headerType (fst hp)) pages.

Definition parsed (ps : list OggPage) : list (oggreader.OggPageHeader * list byte) :=
  map (fun p => (headerOf p, pagePayload p)) ps.

(** The frames the decoder of part_003 keeps. *)
Definition keptFrame (packet : list byte) : bool :=
  (0 <? length packet)%nat && negb (Client3.isHeaderPacket packet).

Definition mapPackets (f : list (list byte) -> list (list byte)) (d : Decoded)
  : Decoded :=
  match d with
  | Packets packets => Packets (f packets)
  | Failed e => Failed e
  end.

(** The identification page [NewWith] accepts. *)
Definition isIdPage (p : OggPage) : Prop :=
  pageType p = x02 /\ length (pagePayload p) = 19%nat /\
  firstn 8 (pagePayload p) = list_byte_of_string "OpusHead".

(** The packet the packetizer builds for frame [i] of [n] with payload
    type [pt]. *)
Definition framePacket (pt : Z) (n i : nat) (frame : list byte) : Packet :=
  mkPacket (mkHeader 2 false false (Z.of_nat i =? Z.of_nat n - 1) pt
                     (uint16 (Z.of_nat i)) (uint32 (960 * Z.of_nat i))
                     0 [] 0 [])
           frame 0.

Definition framePacketsFrom (pt : Z) (n i : nat) (frames : list (list byte))
  : list Packet :=
  map (fun '(j, frame) => framePacket pt n j frame)
      (combine (seq i (length frames)) frames).

Definition framePackets (pt : Z) (frames : list (list byte)) : list Packet :=
  framePacketsFrom pt (length frames) 0 frames.

Definition sequenceNumbers (packets : list Packet) : list Z :=
  map (fun p => SequenceNumber (Hdr p)) packets.

(** Sample pages: an identification header, a comment header and an audio
    page of three segments. *)
Definition sampleHead : OggPage :=
  singleSegmentPage x02 0 7 0 ClientRaw.opusHead.
Definition sampleTags : OggPage :=
  singleSegmentPage x00 0 7 1 ClientRaw.opusTags.
Definition sampleAudio : OggPage :=
  mkOggPage x00 960 7 2 [x02; x00; x01] [x0a; x0b; x0c].

Definition inUint32 (z : Z) : bool := (0 <=? z) && (z <? 2 ^ 32).

Arguments z2b : simpl never.
Arguments b2z : simpl never.
Arguments le_value : simpl never.
Arguments ClientRaw.crc32Ogg : simpl never.
Arguments ClientRaw.crc32Step : simpl never.
Arguments oggreader.updateChecksum : simpl never.

(** ** The handler of src/unnamed/part_001

    The codec is registered once in [main], which panics on failure, so
    the handler starts from [webrtcAPI.NewPeerConnection]. *)

Module Server1.

(** [func writeAnswer(res, peerConnection, offer, path)]. *)
Definition writeAnswer (s : Session) (path : string) : Response :=
  match SetRemoteDescription s with
  | Some e => httpError e StatusInternalServerError
  | None =>
      match CreateAnswer s with
      | Some e => httpError e StatusInternalServerError
      | None =>
          match SetLocalDescription s with
          | Some e => httpError e StatusInternalServerError
          | None => mkResponse StatusCreated (Some path) (LocalSDP s)
          end
      end
  end.

(** [func whipHandler(res, req)]. *)
Definition whipHandler (st : ServerState) (req : Request) (s : Session)
  : Outcome * ServerState :=
  if String.eqb (Method req) "OPTIONS" then
    (Responded (mkResponse StatusOK None ""), st)
  else if String.eqb (roomParam req) "" then
    (Responded (httpError "room parameter is required" StatusBadRequest), st)
  else
    match Body req with
    | None => (Panicked, st)
    | Some offer =>
        match NewPeerConnection s with
        | Some e => (Responded (httpError e StatusInternalServerError), st)
        | None =>
        match NewTrackLocalStaticRTP s with
        | Some e => (Responded (httpError e StatusInternalServerError), st)
        | None =>
        match AddTrack s with
        | Some e => (Responded (httpError e StatusInternalServerError), st)
        | None =>
            let roomID := roomParam req in
            let peer := nextPeer st in
            let room := getOrCreateRoom (rooms st) roomID in
            let added := roomAddPeer (fst room) roomID (Some peer) in
            let relays2 :=
              match snd added with
              | Some otherPeer => relays st ++ [(peer, otherPeer); (otherPeer, peer)]
              | None => relays st
              end in
            let st' := mkServer (fst added) (S peer) relays2
                                (watchers st ++ [(peer, roomID)]) in
            (Responded (writeAnswer s "/whip"), st')
        end end end
    end.

End Server1.

(** The peer that waits alone in slot A of a room, if there is one: the
    partner [addPeer] returns to the next peer. *)
Definition waitingPeer (rooms : gmap string Room) (roomID : string)
  : option PeerRef :=
  match rooms !! roomID with
  | Some r =>
      match PeerA r, PeerB r with
      | Some a, None => Some a
      | _, _ => None
      end
  | None => None
  end.

(** A request that reaches the registration step for the room [roomID]. *)
Definition joins (roomID : string) (req : Request) : Prop :=
  Method req <> "OPTIONS"%string /\ roomParam req = roomID /\
  is_Some (Body req).

(** Across the rooms of a server no peer is registered twice. *)
Definition peersUnique (st : ServerState) : Prop :=
  forall id1 id2 r1 r2 p,
    rooms st !! id1 = Some r1 -> rooms st !! id2 = Some r2 ->
    In p (occupants r1) -> In p (occupants r2) -> id1 = id2.

(** A session in which every call succeeds. *)
Definition okSession (sdp : string) : Session :=
  mkSession None None None None None None None sdp.

(** Every room is stored under its own identifier. *)
Definition keyedByID (rs : gmap string Room) : Prop :=
  map_Forall (fun roomID r => ID r = roomID) rs.

(** The session as the handler of part_001 meets it: the codec was
    registered when the server started. *)
Definition codecRegistered (s : Session) : Session :=
  mkSession None (NewPeerConnection s) (NewTrackLocalStaticRTP s) (AddTrack s)
            (SetRemoteDescription s) (CreateAnswer s) (SetLocalDescription s)
            (LocalSDP s).

(** The room found under an identifier, or the empty room
    [getOrCreateRoom] creates for it. *)
Definition roomOrNew (rs : gmap string Room) (roomID : string) : Room :=
  match rs !! roomID with
  | Some r => r
  | None => mkRoom roomID None None
  end.


(** ** Sending raw bytes (src/client/main.go, third program) *)

Module ClientRawTx.

Definition maxPayloadSize : nat := 960.

(** The loop [for i := 0; i < len(audioData); i += maxPayloadSize] of
    [fragmentOpusAudio] from index [i] on; the result is [None] only when
    [fuel] iterations did not reach the end. *)
Fixpoint fragmentLoop (fuel i : nat) (audioData : list byte)
    (fragments : list (list byte)) : option (list (list byte)) :=
  match fuel with
  | O => None
  | S fuel' =>
      if (i <? length audioData)%nat then
        let end_ :=
          if (length audioData <? i + maxPayloadSize)%nat
          then length audioData else (i + maxPayloadSize)%nat in
        fragmentLoop fuel' (i + maxPayloadSize) audioData
                     (fragments ++ [slice i end_ audioData])
      else Some fragments
  end.

(** [func fragmentOpusAudio(audioData []byte) [][]byte]. *)
Definition fragmentOpusAudio (audioData : list byte) : option (list (list byte)) :=
  fragmentLoop (S (length audioData)) 0 audioData [].

(** The loop [for i, fragment := range fragments] of [sendAudioToTrack]. *)
Fixpoint sendFragments (fails : WriteOracle) (n i : nat)
    (fragments : list (list byte)) (sequenceNumber timestamp : Z)
  : list Packet * option nat :=
  match fragments with
  | [] => ([], None)
  | fragment :: rest =>
      let packet :=
        mkPacket (mkHeader 2 false false (Z.of_nat i =? Z.of_nat n - 1) 97
                           sequenceNumber timestamp 0 [] 0 [])
                 fragment 0 in
      if fails i then ([], Some i)
      else
        let r := sendFragments fails n (S i) rest
                               (uint16 (sequenceNumber + 1))
                               (uint32 (timestamp + 960)) in
        (packet :: fst r, snd r)
  end.

(** [func sendAudioToTrack(track, audioData []byte) error]. *)
Definition sendAudioToTrack (fails : WriteOracle) (audioData : list byte)
  : option (list Packet * SendResult) :=
  match fragmentOpusAudio audioData with
  | None => None
  | Some fragments =>
      let r := sendFragments fails (length fragments) 0 fragments 0 0 in
      Some (fst r, match snd r with Some i => WriteError i | None => Sent end)
  end.

End ClientRawTx.

(** ** Listening (src/client/main.go, third program)

    In [processListenRequest] one goroutine appends the payload of every
    packet read to [opusPackets] and another, on every tick of a
    3-second ticker, takes the packets gathered so far and makes a
    container of them. Both touch [opusPackets] with [audioMutex] held,
    so the run is a sequence of these two steps. *)

Inductive ListenEvent :=
| Received (pkt : Packet)
| Tick (now : Z).

Module ListenRaw.

(** The batches handed to [createOggOpusFile], each with the container
    made of it, and the packets still in [opusPackets] at the end. *)
Fixpoint listen (events : list ListenEvent) (opusPackets : list (list byte))
  : list (list (list byte) * list byte) * list (list byte) :=
  match events with
  | [] => ([], opusPackets)
  | Received pkt :: rest => listen rest (opusPackets ++ [Payload pkt])
  | Tick now :: rest =>
      if (0 <? length opusPackets)%nat then
        let packetsCopy := opusPackets in
        let r := listen rest [] in
        ((packetsCopy, ClientRaw.createOggOpusFile now packetsCopy) :: fst r, snd r)
      else listen rest opusPackets
  end.

End ListenRaw.

(** The payloads of the packets received, in order. *)
Fixpoint receivedPayloads (events : list ListenEvent) : list (list byte) :=
  match events with
  | [] => []
  | Received pkt :: rest => Payload pkt :: receivedPayloads rest
  | Tick _ :: rest => receivedPayloads rest
  end.

(** ** Listening in src/unnamed/part_003

    One goroutine reads the track; a batch is written out raw when it
    has 150 packets or a packet carries the marker, and what is left when
    the track ends goes to [processBatch]. *)

Inductive Flushed :=
| RawBatch (batchCount : nat) (packets : list (list byte)) (allData : list byte)
| FinalBatch (batchCount : nat) (packets : list (list byte)).

Definition flushedPackets (f : Flushed) : list (list byte) :=
  match f with
  | RawBatch _ packets _ => packets
  | FinalBatch _ packets => packets
  end.

Definition flushedCount (f : Flushed) : nat :=
  match f with
  | RawBatch n _ _ => n
  | FinalBatch n _ => n
  end.

Definition isRawBatch (f : Flushed) : bool :=
  match f with RawBatch _ _ _ => true | FinalBatch _ _ => false end.

Module Listen3.

Definition packetsPerBatch : nat := 150.

(** The loop [for { pkt, _, err := track.ReadRTP() ... }]: [reads] are the
    packets read before the read fails. *)
Fixpoint receive (reads : list Packet) (opusPackets : list (list byte))
    (batchCount : nat) : list Flushed :=
  match reads with
  | [] =>
      if (length opusPackets =? 0)%nat then []
      else [FinalBatch (S batchCount) opusPackets]
  | pkt :: rest =>
      let opusPackets' := opusPackets ++ [Payload pkt] in
      if (packetsPerBatch <=? length opusPackets')%nat || Marker (Hdr pkt) then
        RawBatch (S batchCount) opusPackets' (concat opusPackets')
        :: receive rest [] (S batchCount)
      else receive rest opusPackets' batchCount
  end.

End Listen3.

(** ** The checksum of the Ogg specification, bit by bit

    RFC 3533: the generator polynomial 0x04c11db7, the register starting
    at 0, bits taken most significant first, nothing complemented. *)

Definition crcShift (r : Z) : Z :=
  if Z.testbit r 31 then Z.lxor (uint32 (Z.shiftl r 1)) 0x04c11db7
  else uint32 (Z.shiftl r 1).

Definition crcByte (crc : Z) (b : byte) : Z :=
  Nat.iter 8 crcShift (Z.lxor crc (Z.shiftl (b2z b) 24)).

Definition crcBitwise (data : list byte) : Z :=
  fold_left crcByte data 0.

(** The checksum field of the bytes of a page (offsets 22 to 25) holds the
    bit-by-bit checksum of the whole page taken with that field zeroed. *)
Definition polynomialChecksumOk (page : list byte) : Prop :=
  le_value (slice 22 26 page)
  = crcBitwise (firstn 22 page ++ repeat x00 4 ++ skipn 26 page).

(* ===================================================================== *)
(** * Part II: properties                                                 *)
(* ===================================================================== *)

Lemma ptr_eqb_eq p q : ptr_eqb p q = true <-> p = q.
Proof.
  destruct p as [a|], q as [b|]; simpl; try (split; congruence).
  rewrite Nat.eqb_eq. split; congruence.
Qed.

Lemma ptr_eqb_neq p q : ptr_eqb p q = false <-> p <> q.
Proof.
  rewrite <- ptr_eqb_eq. destruct (ptr_eqb p q); split; congruence.
Qed.

Lemma occupants_le_2 r : (length (occupants r) <= 2)%nat.
Proof.
  unfold occupants. destruct (PeerA r), (PeerB r); simpl; lia.
Qed.

(** ** The room: pairing and removal *)

Lemma addPeer_full r a b peer :
  PeerA r = Some a -> PeerB r = Some b -> addPeer r peer = (r, None).
Proof. intros Ha Hb. unfold addPeer. now rewrite Ha, Hb. Qed.

Lemma addPeers_full r a b peers :
  PeerA r = Some a -> PeerB r = Some b ->
  addPeers r peers = (r, repeat None (length peers)).
Proof.
  intros Ha Hb. induction peers as [|p ps IH]; simpl; [reflexivity|].
  rewrite (addPeer_full r a b p Ha Hb), IH. reflexivity.
Qed.

(** C5. In a room whose two slots are occupied, [addPeer] with a further
    peer changes neither slot and returns no partner, also seen from the
    registry (the map is left as it was); and after any sequence of
    registry operations every room holds at most two peers. *)
Theorem addPeer_third_peer_is_noop :
  forall (r : Room) (a b : PeerRef) (peer : option PeerRef),
    PeerA r = Some a -> PeerB r = Some b ->
    addPeer r peer = (r, None) /\
    (forall (rs : gmap string Room) (roomID : string),
        rs !! roomID = Some r -> roomAddPeer rs roomID peer = (rs, None)) /\
    (forall (rs : gmap string Room) (ops : list RegistryOp) (roomID : string) (r' : Room),
        applyOps rs ops !! roomID = Some r' -> (length (occupants r') <= 2)%nat).
Proof.
  intros r a b peer Ha Hb. split; [|split].
  - exact (addPeer_full r a b peer Ha Hb).
  - intros rs roomID Hr. unfold roomAddPeer. rewrite Hr.
    rewrite (addPeer_full r a b peer Ha Hb). now rewrite insert_id.
  - intros rs ops roomID r' _. apply occupants_le_2.
Qed.

Lemma addPeer_third_peer_is_noop_witness :
  addPeer (mkRoom "r1" (Some 1%nat) (Some 2%nat)) (Some 3%nat)
  = (mkRoom "r1" (Some 1%nat) (Some 2%nat), None).
Proof.
  apply (addPeer_third_peer_is_noop (mkRoom "r1" (Some 1%nat) (Some 2%nat))
           1%nat 2%nat (Some 3%nat)); reflexivity.
Defined.

(** C6. From the empty room the first [addPeer] fills slot A and returns
    nil, the second fills slot B and returns the peer of slot A, and every
    later call, the slots staying occupied, returns nil and changes
    nothing: in a run of calls exactly the second one yields a partner. *)
Theorem addPeer_pairs_exactly_once :
  forall (roomID : string) (p1 p2 : PeerRef) (later : list (option PeerRef)),
    addPeer (mkRoom roomID None None) (Some p1)
      = (mkRoom roomID (Some p1) None, None) /\
    addPeer (mkRoom roomID (Some p1) None) (Some p2)
      = (mkRoom roomID (Some p1) (Some p2), Some p1) /\
    addPeers (mkRoom roomID None None) (Some p1 :: Some p2 :: later)
      = (mkRoom roomID (Some p1) (Some p2),
         None :: Some p1 :: repeat None (length later)).
Proof.
  intros roomID p1 p2 later. split; [reflexivity|]. split; [reflexivity|].
  cbn [addPeers addPeer PeerA PeerB ID].
  now rewrite (addPeers_full (mkRoom roomID (Some p1) (Some p2)) p1 p2 later
                 eq_refl eq_refl).
Qed.

(** C7. [removePeer] clears the slot whose occupant is the very pointer
    passed in and leaves the other slot as it was (slot A is looked at
    first); when neither slot holds that pointer the room is unchanged. *)
Theorem removePeer_clears_only_that_peer :
  forall (r : Room) (peer : option PeerRef),
    (PeerA r = peer ->
       removePeer r peer = mkRoom (ID r) None (PeerB r)) /\
    (PeerA r <> peer -> PeerB r = peer ->
       removePeer r peer = mkRoom (ID r) (PeerA r) None) /\
    (PeerA r <> peer -> PeerB r <> peer -> removePeer r peer = r).
Proof.
  intros r peer. unfold removePeer. repeat split.
  - intros H. apply ptr_eqb_eq in H. now rewrite H.
  - intros HA HB. apply ptr_eqb_neq in HA. apply ptr_eqb_eq in HB.
    now rewrite HA, HB.
  - intros HA HB. apply ptr_eqb_neq in HA. apply ptr_eqb_neq in HB.
    now rewrite HA, HB.
Qed.

Lemma removePeer_clears_only_that_peer_witness :
  removePeer (mkRoom "r1" (Some 1%nat) (Some 2%nat)) (Some 2%nat)
    = mkRoom "r1" (Some 1%nat) None /\
  removePeer (mkRoom "r1" (Some 1%nat) (Some 2%nat)) (Some 1%nat)
    = mkRoom "r1" None (Some 2%nat) /\
  removePeer (mkRoom "r1" (Some 1%nat) (Some 2%nat)) (Some 3%nat)
    = mkRoom "r1" (Some 1%nat) (Some 2%nat).
Proof.
  split; [|split].
  - apply (removePeer_clears_only_that_peer
             (mkRoom "r1" (Some 1%nat) (Some 2%nat)) (Some 2%nat));
      [discriminate | reflexivity].
  - apply (removePeer_clears_only_that_peer
             (mkRoom "r1" (Some 1%nat) (Some 2%nat)) (Some 1%nat)); reflexivity.
  - apply (removePeer_clears_only_that_peer
             (mkRoom "r1" (Some 1%nat) (Some 2%nat)) (Some 3%nat)); discriminate.
Defined.

(** ** The signaling handler *)

Lemma writeAnswer_failed s path :
  negotiationFailed s ->
  Status (Server.writeAnswer s path) = StatusInternalServerError.
Proof.
  unfold negotiationFailed, Server.writeAnswer.
  intros [[e H]|[[e H]|[e H]]]; rewrite H;
    destruct (SetRemoteDescription s); try destruct (CreateAnswer s); reflexivity.
Qed.

Lemma whipHandler_after_setup st req s offer :
  Method req <> "OPTIONS"%string -> roomParam req <> ""%string ->
  Body req = Some offer -> setupSucceeded s ->
  exists st',
    Server.whipHandler st req s = (Responded (Server.writeAnswer s "/whip"), st') /\
    rooms st' = fst (roomAddPeer (fst (getOrCreateRoom (rooms st) (roomParam req)))
                                 (roomParam req) (Some (nextPeer st))).
Proof.
  intros Hm Hr Hb (H1 & H2 & H3 & H4). unfold Server.whipHandler.
  apply String.eqb_neq in Hm. apply String.eqb_neq in Hr.
  rewrite Hm, Hr, Hb, H1, H2, H3, H4.
  eexists. split; reflexivity.
Qed.

Lemma addPeer_free_slot r p :
  PeerA r = None \/ PeerB r = None ->
  In p (occupants (fst (addPeer r (Some p)))).
Proof.
  unfold addPeer, occupants.
  destruct (PeerA r) as [a|] eqn:HA, (PeerB r) as [b|] eqn:HB; simpl;
    intros [H|H]; try discriminate; rewrite ?HA; simpl; auto.
Qed.

Lemma register_free_slot (rs : gmap string Room) roomID p :
  match rs !! roomID with
  | Some r => PeerA r = None \/ PeerB r = None
  | None => True
  end ->
  exists r', fst (roomAddPeer (fst (getOrCreateRoom rs roomID)) roomID (Some p))
               !! roomID = Some r' /\ In p (occupants r').
Proof.
  unfold getOrCreateRoom, roomAddPeer.
  destruct (rs !! roomID) as [r|] eqn:Hr; simpl.
  - intros Hfree. rewrite Hr.
    pose proof (addPeer_free_slot r p Hfree) as Hin.
    destruct (addPeer r (Some p)) as [r' o]. simpl in *.
    exists r'. now rewrite lookup_insert_eq.
  - intros _. rewrite lookup_insert_eq. simpl.
    eexists. rewrite lookup_insert_eq. split; [reflexivity|]. simpl. auto.
Qed.

(** C1, as the code has it. When one of the three negotiation calls of
    [writeAnswer] fails the handler answers 500, but by then it has run
    [getOrCreateRoom] and [addPeer]: the registry is the one these two
    calls leave, and the peer of the failed session occupies a slot of the
    room whenever one was free. Only a failure of the session set-up,
    which precedes the creation of the peer, leaves the server state as
    it was. *)
Theorem whipHandler_negotiation_failure :
  forall (st : ServerState) (req : Request) (s : Session) (offer : string),
    Method req <> "OPTIONS"%string -> roomParam req <> ""%string ->
    Body req = Some offer ->
    (setupSucceeded s -> negotiationFailed s ->
       exists res st',
         Server.whipHandler st req s = (Responded res, st') /\
         Status res = StatusInternalServerError /\
         rooms st' = fst (roomAddPeer (fst (getOrCreateRoom (rooms st) (roomParam req)))
                                      (roomParam req) (Some (nextPeer st))) /\
         (match rooms st !! roomParam req with
          | Some r => PeerA r = None \/ PeerB r = None
          | None => True
          end ->
          exists r', rooms st' !! roomParam req = Some r' /\
                     In (nextPeer st) (occupants r'))) /\
    (~ setupSucceeded s ->
       exists res,
         Server.whipHandler st req s = (Responded res, st) /\
         Status res = StatusInternalServerError).
Proof.
  intros st req s offer Hm Hr Hb. split.
  - intros Hsetup Hfail.
    destruct (whipHandler_after_setup st req s offer Hm Hr Hb Hsetup)
      as (st' & Hrun & Hrooms).
    exists (Server.writeAnswer s "/whip"), st'.
    split; [exact Hrun|]. split; [now apply writeAnswer_failed|].
    split; [exact Hrooms|].
    intros Hfree. rewrite Hrooms. now apply register_free_slot.
  - intros Hno. unfold Server.whipHandler.
    apply String.eqb_neq in Hm. apply String.eqb_neq in Hr.
    rewrite Hm, Hr, Hb. unfold setupSucceeded in Hno.
    destruct (RegisterCodec s) as [e|]; [eexists; split; reflexivity|].
    destruct (NewPeerConnection s) as [e|]; [eexists; split; reflexivity|].
    destruct (NewTrackLocalStaticRTP s) as [e|]; [eexists; split; reflexivity|].
    destruct (AddTrack s) as [e|]; [eexists; split; reflexivity|].
    exfalso. apply Hno. repeat split; reflexivity.
Qed.

Lemma whipHandler_negotiation_failure_witness :
  exists res st',
    Server.whipHandler (mkServer ∅ 0%nat [] [])
      (mkRequest "POST" "r1" (Some "v=0"))
      (mkSession None None None None (Some "bad offer") None None "") = (Responded res, st') /\
    Status res = StatusInternalServerError /\
    rooms st' = fst (roomAddPeer (fst (getOrCreateRoom ∅ "r1")) "r1" (Some 0%nat)) /\
    (True -> exists r', rooms st' !! "r1"%string = Some r' /\ In 0%nat (occupants r')).
Proof.
  refine (proj1 (whipHandler_negotiation_failure (mkServer ∅ 0%nat [] [])
           (mkRequest "POST" "r1" (Some "v=0"))
           (mkSession None None None None (Some "bad offer") None None "") "v=0"
           _ _ _) _ _).
  - discriminate.
  - discriminate.
  - reflexivity.
  - repeat split; reflexivity.
  - left. eexists. reflexivity.
Defined.

(** C1 as stated does not hold: a request whose offer is refused by
    [SetRemoteDescription] is answered with 500 and yet its peer sits in
    slot A of the room, which the request also created. *)
Lemma whipHandler_failed_session_occupies_slot :
  exists res st',
    Server.whipHandler (mkServer ∅ 0%nat [] [])
      (mkRequest "POST" "r1" (Some "v=0"))
      (mkSession None None None None (Some "bad offer") None None "") = (Responded res, st') /\
    Status res = StatusInternalServerError /\
    rooms st' !! "r1"%string = Some (mkRoom "r1" (Some 0%nat) None) /\
    rooms st' <> rooms (mkServer ∅ 0%nat [] []).
Proof.
  destruct (whipHandler_after_setup (mkServer ∅ 0%nat [] [])
              (mkRequest "POST" "r1" (Some "v=0"))
              (mkSession None None None None (Some "bad offer") None None "") "v=0")
    as (st' & Hrun & Hrooms);
    [discriminate | discriminate | reflexivity | repeat split; reflexivity |].
  assert (Hl : rooms st' !! "r1"%string = Some (mkRoom "r1" (Some 0%nat) None)).
  { rewrite Hrooms. unfold getOrCreateRoom, roomAddPeer. simpl.
    rewrite lookup_empty. simpl.
    rewrite lookup_insert_eq. simpl. now rewrite lookup_insert_eq. }
  eexists. exists st'. split; [exact Hrun|]. split; [reflexivity|].
  split; [exact Hl|].
  intros Heq. rewrite Heq in Hl. simpl in Hl. rewrite lookup_empty in Hl.
  discriminate.
Qed.

(** ** The relay *)


Lemma stripExtensions_fields pkt :
  Payload (Relay.stripExtensions pkt) = Payload pkt /\
  Extension (Hdr (Relay.stripExtensions pkt)) = false /\
  Extensions (Hdr (Relay.stripExtensions pkt)) = [] /\
  SequenceNumber (Hdr (Relay.stripExtensions pkt)) = SequenceNumber (Hdr pkt) /\
  Timestamp (Hdr (Relay.stripExtensions pkt)) = Timestamp (Hdr pkt).
Proof. repeat split. Qed.

Lemma newPkt_fields pkt :
  Payload (Relay1.newPkt pkt) = Payload pkt /\
  Extension (Hdr (Relay1.newPkt pkt)) = false /\
  Extensions (Hdr (Relay1.newPkt pkt)) = [] /\
  SequenceNumber (Hdr (Relay1.newPkt pkt)) = SequenceNumber (Hdr pkt) /\
  Timestamp (Hdr (Relay1.newPkt pkt)) = Timestamp (Hdr pkt).
Proof. repeat split. Qed.


(** The loop writes the packets read before the first write that fails:
    [k] is the number of writes that succeed, the write after them, if
    a packet is left for it, fails. *)
Lemma forward_first_failure fails reads : forall n,
  exists k, (k <= length reads)%nat /\
    (forall i, (i < k)%nat -> fails (n + i)%nat = false) /\
    ((k < length reads)%nat -> fails (n + k)%nat = true) /\
    Relay.forward RTPCodecTypeAudio fails n reads
      = map Relay.stripExtensions (firstn k reads).
Proof.
  induction reads as [|pkt rest IH]; intros n; cbn [Relay.forward isAudio].
  - exists 0%nat. split; [simpl; lia|]. split; [intros i Hi; lia|].
    split; [simpl; lia | reflexivity].
  - destruct (fails n) eqn:Hn.
    + exists 0%nat. split; [simpl; lia|]. split; [intros i Hi; lia|].
      split; [intros _; now rewrite Nat.add_0_r | reflexivity].
    + destruct (IH (S n)) as (k & Hk & Hok & Hfail & ->).
      exists (S k). split; [simpl; lia|]. split; [|split; [|reflexivity]].
      * intros [|i] Hi; [now rewrite Nat.add_0_r|].
        rewrite Nat.add_succ_r. apply (Hok i). lia.
      * intros Hlt. rewrite Nat.add_succ_r. apply Hfail. simpl in Hlt. lia.
Qed.

Lemma forward_all fails reads : forall n,
  (forall i, (n <= i < n + length reads)%nat -> fails i = false) ->
  Relay.forward RTPCodecTypeAudio fails n reads = map Relay.stripExtensions reads.
Proof.
  induction reads as [|pkt rest IH]; intros n Hok; simpl; [reflexivity|].
  rewrite (Hok n) by (simpl; lia).
  f_equal. apply IH. intros i Hi. apply Hok. simpl. lia.
Qed.

Lemma forward1_first_failure fails reads : forall n,
  exists k, (k <= length (List.filter nonEmptyPayload reads))%nat /\
    (forall i, (i < k)%nat -> fails (n + i)%nat = false) /\
    ((k < length (List.filter nonEmptyPayload reads))%nat ->
       fails (n + k)%nat = true) /\
    Relay1.forward RTPCodecTypeAudio fails n reads
      = map Relay1.newPkt (firstn k (List.filter nonEmptyPayload reads)).
Proof.
  induction reads as [|pkt rest IH]; intros n;
    cbn [Relay1.forward List.filter isAudio negb].
  - exists 0%nat. split; [simpl; lia|]. split; [intros i Hi; lia|].
    split; [simpl; lia | reflexivity].
  - assert (Hne : nonEmptyPayload pkt = negb (length (Payload pkt) =? 0)%nat)
      by reflexivity.
    rewrite Hne. destruct (length (Payload pkt) =? 0)%nat; cbn [negb].
    + apply IH.
    + destruct (fails n) eqn:Hn.
      * exists 0%nat. split; [simpl; lia|]. split; [intros i Hi; lia|].
        split; [intros _; now rewrite Nat.add_0_r | reflexivity].
      * destruct (IH (S n)) as (k & Hk & Hok & Hfail & ->).
        exists (S k). split; [simpl; lia|]. split; [|split; [|reflexivity]].
        -- intros [|i] Hi; [now rewrite Nat.add_0_r|].
           rewrite Nat.add_succ_r. apply (Hok i). lia.
        -- intros Hlt. rewrite Nat.add_succ_r. apply Hfail. simpl in Hlt. lia.
Qed.

Lemma forward1_all fails reads : forall n,
  (forall i, (n <= i < n + length reads)%nat -> fails i = false) ->
  Relay1.forward RTPCodecTypeAudio fails n reads
    = map Relay1.newPkt (List.filter nonEmptyPayload reads).
Proof.
  induction reads as [|pkt rest IH]; intros n Hok;
    cbn [Relay1.forward List.filter isAudio negb]; [reflexivity|].
  assert (Hne : nonEmptyPayload pkt = negb (length (Payload pkt) =? 0)%nat)
    by reflexivity.
  rewrite Hne. destruct (length (Payload pkt) =? 0)%nat; cbn [negb].
  - apply IH. intros i Hi. apply Hok. simpl. lia.
  - rewrite (Hok n) by (simpl; lia).
    cbn [map]. f_equal. apply IH. intros i Hi. apply Hok. simpl. lia.
Qed.

Lemma forward_not_audio kind fails reads : forall n,
  isAudio kind = false ->
  Relay.forward kind fails n reads = [] /\ Relay1.forward kind fails n reads = [].
Proof.
  intros n Hk. induction reads as [|pkt rest IH]; simpl; [split; reflexivity|].
  rewrite Hk. simpl. exact IH.
Qed.

Lemma map_Payload_strip reads :
  map Payload (map Relay.stripExtensions reads) = map Payload reads.
Proof. rewrite map_map. apply map_ext. reflexivity. Qed.

Lemma map_Payload_newPkt reads :
  map Payload (map Relay1.newPkt reads) = map Payload reads.
Proof. rewrite map_map. apply map_ext. reflexivity. Qed.


(** C3, as the code has it. On an audio track the relay hands to the
    partner's outbound track, in the order read, the packets read before
    the first failing write, with their payload bytes unchanged and
    without header extensions: with [k] the number of writes before the
    first that fails (the number of packets when none does), the packets
    written are the first [k] read, and all N of them when no write
    fails. The part_001 variant first drops the packets whose payload is
    empty, so there [k] counts among the packets that are left. Nothing
    is written for a track that is not audio. *)
Theorem connectPeers_forwards_in_order :
  forall (reads : list Packet) (fails : WriteOracle),
    (exists k, (k <= length reads)%nat /\
       (forall i, (i < k)%nat -> fails i = false) /\
       ((k < length reads)%nat -> fails k = true) /\
       Relay.connectPeers RTPCodecTypeAudio fails reads
         = map Relay.stripExtensions (firstn k reads)) /\
    (exists k, (k <= length (List.filter nonEmptyPayload reads))%nat /\
       (forall i, (i < k)%nat -> fails i = false) /\
       ((k < length (List.filter nonEmptyPayload reads))%nat -> fails k = true) /\
       Relay1.connectPeers RTPCodecTypeAudio fails reads
         = map Relay1.newPkt (firstn k (List.filter nonEmptyPayload reads))) /\
    ((forall i, (i < length reads)%nat -> fails i = false) ->
       let out := Relay.connectPeers RTPCodecTypeAudio fails reads in
       let out1 := Relay1.connectPeers RTPCodecTypeAudio fails reads in
       length out = length reads /\
       map Payload out = map Payload reads /\
       Forall noExtensions out /\
       map Payload out1 = map Payload (List.filter nonEmptyPayload reads) /\
       Forall noExtensions out1) /\
    (forall kind, isAudio kind = false ->
       Relay.connectPeers kind fails reads = [] /\
       Relay1.connectPeers kind fails reads = []).
Proof.
  intros reads fails. unfold Relay.connectPeers, Relay1.connectPeers.
  split; [exact (forward_first_failure fails reads 0)|].
  split; [exact (forward1_first_failure fails reads 0)|]. split.
  - intros Hok.
    rewrite forward_all by (intros i Hi; apply Hok; lia).
    rewrite forward1_all by (intros i Hi; apply Hok; lia).
    cbv zeta. rewrite length_map, map_Payload_strip, map_Payload_newPkt.
    repeat split; try reflexivity; apply Forall_map, Forall_forall;
      intros pkt _; split; reflexivity.
  - intros kind Hk. now apply forward_not_audio.
Qed.

Lemma connectPeers_forwards_in_order_witness :
  let reads := [samplePacket 1 [x0a]; samplePacket 2 [x0b];
                samplePacket 3 [x0c]] in
  let out := Relay.connectPeers RTPCodecTypeAudio neverFails reads in
  let out1 := Relay1.connectPeers RTPCodecTypeAudio neverFails reads in
  let failSecond : WriteOracle := fun n => Nat.eqb n 1 in
  (length out = length reads /\
   map Payload out = map Payload reads /\
   Forall noExtensions out /\
   map Payload out1 = map Payload (List.filter nonEmptyPayload reads) /\
   Forall noExtensions out1) /\
  Relay.connectPeers RTPCodecTypeAudio failSecond reads
    = map Relay.stripExtensions (firstn 1 reads) /\
  Relay1.connectPeers RTPCodecTypeAudio failSecond reads
    = map Relay1.newPkt (firstn 1 (List.filter nonEmptyPayload reads)).
Proof.
  intros reads out out1 failSecond.
  split.
  { refine (proj1 (proj2 (proj2 (connectPeers_forwards_in_order reads neverFails))) _).
    intros i _. reflexivity. }
  destruct (connectPeers_forwards_in_order reads failSecond)
    as ((k & Hk & Hok & Hfail & E) & (k1 & Hk1 & Hok1 & Hfail1 & E1) & _).
  split.
  - destruct k as [|[|k]].
    + specialize (Hfail ltac:(simpl; lia)). discriminate Hfail.
    + exact E.
    + specialize (Hok 1%nat ltac:(lia)). discriminate Hok.
  - destruct k1 as [|[|k1]].
    + specialize (Hfail1 ltac:(simpl; lia)). discriminate Hfail1.
    + exact E1.
    + specialize (Hok1 1%nat ltac:(lia)). discriminate Hok1.
Defined.

(** C3 as stated does not hold for every sequence of audio packets. In
    part_001 an audio packet with an empty payload is read and not
    written; and in both variants a failing [WriteRTP] ends the loop, so
    the packets read after it are not written. *)
Lemma connectPeers_may_drop_packets :
  Relay1.connectPeers RTPCodecTypeAudio neverFails [samplePacket 1 []] = [] /\
  (let reads := [samplePacket 1 [x0a]; samplePacket 2 [x0b]] in
   let failSecond : WriteOracle := fun n => Nat.eqb n 1 in
   length (Relay.connectPeers RTPCodecTypeAudio failSecond reads) = 1%nat /\
   length (Relay1.connectPeers RTPCodecTypeAudio failSecond reads) = 1%nat).
Proof. repeat split. Qed.

(** ** Bytes and little-endian integers *)

Lemma b2z_range b : 0 <= b2z b < 256.
Proof.
  unfold b2z. pose proof (Byte.to_N_bounded b). lia.
Qed.

Lemma b2z_z2b z : b2z (z2b z) = z mod 256.
Proof.
  unfold b2z, z2b.
  pose proof (Z.mod_pos_bound z 256 ltac:(lia)) as Hr.
  destruct (Byte.of_N (Z.to_N (z mod 256))) as [b|] eqn:E.
  - apply Byte.to_of_N in E. rewrite E. lia.
  - apply Byte.of_N_None_iff in E. lia.
Qed.

Lemma b2z_z2b_small z : 0 <= z < 256 -> b2z (z2b z) = z.
Proof. intros H. rewrite b2z_z2b. now apply Z.mod_small. Qed.

Lemma length_le_bytes n : forall z, length (le_bytes n z) = n.
Proof. induction n as [|n IH]; intros z; simpl; [reflexivity | now rewrite IH]. Qed.

Lemma le_value_le_bytes n : forall z,
  le_value (le_bytes n z) = z mod 256 ^ Z.of_nat n.
Proof.
  induction n as [|n IH]; intros z.
  - change (0 = z mod 256 ^ 0). now rewrite Z.pow_0_r, Z.mod_1_r.
  - change (b2z (z2b z) + 256 * le_value (le_bytes n (z / 256))
            = z mod 256 ^ Z.of_nat (S n)).
    rewrite IH, b2z_z2b.
    rewrite Nat2Z.inj_succ, Z.pow_succ_r by lia.
    rewrite Z.rem_mul_r by lia. reflexivity.
Qed.

Lemma le_value_le_bytes_small n z :
  0 <= z < 256 ^ Z.of_nat n -> le_value (le_bytes n z) = z.
Proof. intros H. rewrite le_value_le_bytes. now apply Z.mod_small. Qed.

Lemma lxor_range32 a b :
  0 <= a < 2 ^ 32 -> 0 <= b < 2 ^ 32 -> 0 <= Z.lxor a b < 2 ^ 32.
Proof.
  intros Ha Hb.
  assert (Hnn : 0 <= Z.lxor a b) by (apply Z.lxor_nonneg; lia).
  split; [exact Hnn|].
  destruct (Z.eq_dec (Z.lxor a b) 0) as [E|E]; [rewrite E; lia|].
  apply Z.log2_lt_pow2; [lia|].
  pose proof (Z.log2_lxor a b ltac:(lia) ltac:(lia)) as Hl.
  assert (Z.log2 a < 32).
  { destruct (Z.eq_dec a 0) as [->|]; [simpl; lia|]. apply Z.log2_lt_pow2; lia. }
  assert (Z.log2 b < 32).
  { destruct (Z.eq_dec b 0) as [->|]; [simpl; lia|]. apply Z.log2_lt_pow2; lia. }
  lia.
Qed.

(** ** The checksum *)


Lemma crc32Table_range : forallb inUint32 ClientRaw.crc32Table = true.
Proof. vm_compute. reflexivity. Qed.

Lemma crc32Table_nth i : 0 <= nth i ClientRaw.crc32Table 0 < 2 ^ 32.
Proof.
  destruct (Nat.lt_ge_cases i (length ClientRaw.crc32Table)) as [Hlt|Hge].
  - pose proof crc32Table_range as H. rewrite forallb_forall in H.
    specialize (H (nth i ClientRaw.crc32Table 0) (nth_In _ _ Hlt)).
    unfold inUint32 in H. lia.
  - rewrite nth_overflow by exact Hge. lia.
Qed.

Lemma crc32Step_range crc b : 0 <= ClientRaw.crc32Step crc b < 2 ^ 32.
Proof.
  unfold ClientRaw.crc32Step. apply lxor_range32.
  - unfold uint32. apply Z.mod_pos_bound. lia.
  - apply crc32Table_nth.
Qed.

Lemma fold_crc32Step_range data : forall crc,
  0 <= crc < 2 ^ 32 -> 0 <= fold_left ClientRaw.crc32Step data crc < 2 ^ 32.
Proof.
  induction data as [|b data IH]; intros crc H; simpl; [exact H|].
  apply IH, crc32Step_range.
Qed.

Lemma crc32Ogg_range data : 0 <= ClientRaw.crc32Ogg data < 2 ^ 32.
Proof. apply fold_crc32Step_range. lia. Qed.

(** The table of the source is the table of the polynomial 0x04c11db7,
    which is also the one pion's reader generates. *)
Lemma crc32Table_standard :
  ClientRaw.crc32Table = oggreader.generateChecksumTable /\
  oggreader.checksumTable = ClientRaw.crc32Table /\
  oggreader.poly = 0x04C11DB7.
Proof. split; [|split]; vm_compute; reflexivity. Qed.

Lemma updateChecksum_crc32Step crc b :
  oggreader.updateChecksum crc b = ClientRaw.crc32Step crc b.
Proof.
  unfold oggreader.updateChecksum, ClientRaw.crc32Step.
  now rewrite (proj1 (proj2 crc32Table_standard)).
Qed.

(** ** What the writer emits *)

Lemma length_pageHeader22 p : length (pageHeader22 p) = 22%nat.
Proof.
  unfold pageHeader22. rewrite !length_app, !length_le_bytes. reflexivity.
Qed.

Lemma le_bytes_4_0 : le_bytes 4 0 = repeat x00 4.
Proof. reflexivity. Qed.

Lemma writeOggPage_appends serial data headerType granule isFirst w :
  ClientRaw.writeOggPage serial data headerType granule isFirst w
  = ClientRaw.mkWriter
      (ClientRaw.buf w ++
       encodePage (singleSegmentPage headerType granule serial
                                     (ClientRaw.pageSequence w) data))
      (uint32 (ClientRaw.pageSequence w + 1)).
Proof.
  unfold ClientRaw.writeOggPage. f_equal.
  set (p := singleSegmentPage headerType granule serial
                              (ClientRaw.pageSequence w) data).
  change (ClientRaw.buf w ++ list_byte_of_string "OggS" ++ [x00] ++ [headerType]
          ++ le_bytes 8 granule ++ le_bytes 4 serial
          ++ le_bytes 4 (ClientRaw.pageSequence w))
    with (ClientRaw.buf w ++ pageHeader22 p).
  change ([x01] ++ [z2b (Z.of_nat (length data))] ++ data) with (pageTail p).
  rewrite length_app, length_pageHeader22.
  replace (length (ClientRaw.buf w) + 22 - 22)%nat
    with (length (ClientRaw.buf w)) by lia.
  unfold PutUint32At. rewrite <- !app_assoc.
  rewrite drop_app_length.
  rewrite take_app_add.
  rewrite (take_app_length' (pageHeader22 p)) by (now rewrite length_pageHeader22).
  rewrite <- Nat.add_assoc, drop_app_add.
  rewrite (drop_app_add' (pageHeader22 p)) by (now rewrite length_pageHeader22).
  rewrite (drop_app_length' (le_bytes 4 0)) by reflexivity.
  unfold encodePage, pageBytes. now rewrite <- app_assoc.
Qed.

Lemma writePackets_appends serial n packets : forall i granule w,
  ClientRaw.buf (ClientRaw.writePackets serial n i packets granule w)
  = ClientRaw.buf w ++
    concat (map encodePage
              (audioPages serial n i packets granule (ClientRaw.pageSequence w))).
Proof.
  induction packets as [|packet rest IH]; intros i granule w;
    cbn [ClientRaw.writePackets audioPages].
  - simpl. now rewrite app_nil_r.
  - unfold validFrame.
    destruct ((length packet =? 0) || (255 <? length packet))%nat; cbn [negb].
    + apply IH.
    + rewrite IH, writeOggPage_appends. cbn [ClientRaw.buf ClientRaw.pageSequence].
      cbn [map concat]. now rewrite <- app_assoc.
Qed.

(** The container is the concatenation of its pages: the two header pages
    and one page per frame that is not skipped. *)
Lemma createOggOpusFile_pages now packets :
  ClientRaw.createOggOpusFile now packets
  = concat (map encodePage (containerPages now packets)).
Proof.
  unfold ClientRaw.createOggOpusFile, containerPages.
  rewrite writePackets_appends, !writeOggPage_appends. unfold audioPagesOf.
  cbn [ClientRaw.buf ClientRaw.pageSequence map concat app].
  rewrite <- app_assoc. reflexivity.
Qed.

Lemma encodePage_checksumOk p : checksumOk (encodePage p).
Proof.
  unfold checksumOk, encodePage, pageBytes, slice.
  rewrite (drop_app_length' (pageHeader22 p)) by (now rewrite length_pageHeader22).
  rewrite (take_app_length' (le_bytes 4 _)) by reflexivity.
  rewrite (take_app_length' (pageHeader22 p)) by (now rewrite length_pageHeader22).
  change 26%nat with (22 + 4)%nat.
  rewrite (drop_app_add' (pageHeader22 p)) by (now rewrite length_pageHeader22).
  rewrite (drop_app_length' (le_bytes 4 _)) by reflexivity.
  rewrite le_value_le_bytes_small by (apply crc32Ogg_range).
  reflexivity.
Qed.

Lemma length_encodePage p :
  length (encodePage p)
  = (27 + length (pageSegments p) + length (pagePayload p))%nat.
Proof.
  unfold encodePage, pageBytes, pageTail.
  rewrite !length_app, length_pageHeader22, length_le_bytes. simpl. lia.
Qed.

Lemma length_audioPages serial n packets : forall i granule index,
  length (audioPages serial n i packets granule index)
  = length (List.filter validFrame packets).
Proof.
  induction packets as [|packet rest IH]; intros i granule index;
    cbn [audioPages List.filter]; [reflexivity|].
  destruct (validFrame packet); cbn [length]; now rewrite IH.
Qed.

(** ** The table-driven loop against the bit-by-bit checksum *)

Lemma testbit_31_small l : 0 <= l < 2 ^ 31 -> Z.testbit l 31 = false.
Proof.
  intros H. apply Z.testbit_false; [lia|].
  rewrite Z.div_small by lia. reflexivity.
Qed.

Lemma land_lxor_distr a b m :
  Z.land (Z.lxor a b) m = Z.lxor (Z.land a m) (Z.land b m).
Proof.
  apply Z.bits_inj'. intros n Hn.
  rewrite !Z.land_spec, !Z.lxor_spec, !Z.land_spec.
  destruct (Z.testbit a n), (Z.testbit b n), (Z.testbit m n); reflexivity.
Qed.

Lemma uint32_land x : uint32 x = Z.land x (Z.ones 32).
Proof. unfold uint32. now rewrite Z.land_ones by lia. Qed.

Lemma crcShift_lxor a l :
  0 <= l < 2 ^ 31 ->
  crcShift (Z.lxor a l) = Z.lxor (crcShift a) (Z.shiftl l 1).
Proof.
  intros Hl. unfold crcShift.
  rewrite Z.lxor_spec, (testbit_31_small l Hl), xorb_false_r.
  assert (E : uint32 (Z.shiftl (Z.lxor a l) 1)
              = Z.lxor (uint32 (Z.shiftl a 1)) (Z.shiftl l 1)).
  { rewrite !uint32_land, Z.shiftl_lxor, land_lxor_distr. f_equal.
    rewrite <- uint32_land. unfold uint32.
    rewrite Z.shiftl_mul_pow2 by lia. apply Z.mod_small. lia. }
  rewrite E. destruct (Z.testbit a 31); [|reflexivity].
  rewrite !Z.lxor_assoc. f_equal. apply Z.lxor_comm.
Qed.

Lemma iter_crcShift_lxor (k : nat) : forall a l,
  (k <= 32)%nat -> 0 <= l < 2 ^ (32 - Z.of_nat k) ->
  Nat.iter k crcShift (Z.lxor a l)
  = Z.lxor (Nat.iter k crcShift a) (Z.shiftl l (Z.of_nat k)).
Proof.
  induction k as [|k IH]; intros a l Hk Hl.
  - change (Z.lxor a l = Z.lxor a (Z.shiftl l 0)). now rewrite Z.shiftl_0_r.
  - rewrite !Nat.iter_succ.
    assert (Hpow : 2 ^ (32 - Z.of_nat k) = 2 * 2 ^ (32 - Z.of_nat (S k))).
    { rewrite <- Z.pow_succ_r by lia. f_equal. lia. }
    rewrite IH by lia.
    rewrite crcShift_lxor.
    + rewrite Z.shiftl_shiftl by lia. do 2 f_equal. lia.
    + rewrite Z.shiftl_mul_pow2 by lia. split; [lia|].
      replace (2 ^ 31) with (2 ^ (32 - Z.of_nat (S k)) * 2 ^ Z.of_nat k).
      * apply Z.mul_lt_mono_pos_r; lia.
      * rewrite <- Z.pow_add_r by lia. f_equal. lia.
Qed.

Lemma shiftSteps_iter k : forall r,
  oggreader.shiftSteps k r = Nat.iter k crcShift r.
Proof.
  induction k as [|k IH]; intros r; [reflexivity|].
  rewrite Nat.iter_succ_r. cbn [oggreader.shiftSteps]. now rewrite IH.
Qed.

Lemma crc32Table_entry h :
  0 <= h < 256 ->
  nth (Z.to_nat h) ClientRaw.crc32Table 0
  = Nat.iter 8 crcShift (Z.shiftl h 24).
Proof.
  intros Hh. rewrite (proj1 crc32Table_standard).
  unfold oggreader.generateChecksumTable.
  rewrite (nth_indep _ 0 (oggreader.shiftSteps 8 (Z.shiftl (Z.of_nat 0) 24)))
    by (rewrite length_map, length_seq; lia).
  rewrite (map_nth (fun i => oggreader.shiftSteps 8 (Z.shiftl (Z.of_nat i) 24))).
  rewrite seq_nth by lia. rewrite Nat.add_0_l, Z2Nat.id by lia.
  apply shiftSteps_iter.
Qed.

Lemma lxor_range8 a b : 0 <= a < 256 -> 0 <= b < 256 -> 0 <= Z.lxor a b < 256.
Proof.
  intros Ha Hb.
  assert (Hnn : 0 <= Z.lxor a b) by (apply Z.lxor_nonneg; lia).
  split; [exact Hnn|].
  destruct (Z.eq_dec (Z.lxor a b) 0) as [E|E]; [rewrite E; lia|].
  change 256 with (2 ^ 8). apply Z.log2_lt_pow2; [lia|].
  pose proof (Z.log2_lxor a b ltac:(lia) ltac:(lia)) as Hl.
  assert (Z.log2 a < 8).
  { destruct (Z.eq_dec a 0) as [->|]; [simpl; lia|]. apply Z.log2_lt_pow2; lia. }
  assert (Z.log2 b < 8).
  { destruct (Z.eq_dec b 0) as [->|]; [simpl; lia|]. apply Z.log2_lt_pow2; lia. }
  lia.
Qed.

Lemma split_at_24 crc :
  0 <= crc ->
  crc = Z.lxor (Z.shiftl (Z.shiftr crc 24) 24) (crc mod 2 ^ 24).
Proof.
  intros Hc. apply Z.bits_inj'. intros n Hn.
  rewrite Z.lxor_spec. rewrite <- Z.land_ones by lia. rewrite Z.land_spec.
  destruct (Z.lt_ge_cases n 24) as [Hlt|Hge].
  - rewrite Z.shiftl_spec_low by lia.
    rewrite Z.ones_spec_low by lia. now rewrite andb_true_r.
  - rewrite Z.shiftl_spec by lia. rewrite Z.shiftr_spec by lia.
    rewrite Z.ones_spec_high by lia. rewrite andb_false_r, xorb_false_r.
    f_equal. lia.
Qed.

Lemma crc32Step_bitwise crc b :
  0 <= crc < 2 ^ 32 -> ClientRaw.crc32Step crc b = crcByte crc b.
Proof.
  intros Hc. unfold ClientRaw.crc32Step, crcByte.
  assert (Hhi : 0 <= Z.shiftr crc 24 < 256).
  { rewrite Z.shiftr_div_pow2 by lia. split.
    - apply Z.div_pos; lia.
    - apply Z.div_lt_upper_bound; lia. }
  pose proof (b2z_range b) as Hb.
  rewrite b2z_z2b_small by exact Hhi.
  set (idx := Z.lxor (Z.shiftr crc 24) (b2z b)).
  assert (Hidx : 0 <= idx < 256) by (apply lxor_range8; assumption).
  rewrite (crc32Table_entry idx Hidx).
  assert (Hlo : 0 <= crc mod 2 ^ 24 < 2 ^ 24) by (apply Z.mod_pos_bound; lia).
  assert (E : Z.lxor crc (Z.shiftl (b2z b) 24)
              = Z.lxor (Z.shiftl idx 24) (crc mod 2 ^ 24)).
  { rewrite (split_at_24 crc) at 1 by lia. unfold idx.
    rewrite Z.shiftl_lxor, !Z.lxor_assoc. f_equal. apply Z.lxor_comm. }
  rewrite E.
  rewrite (iter_crcShift_lxor 8 (Z.shiftl idx 24) (crc mod 2 ^ 24))
    by (try lia; exact Hlo).
  rewrite Z.lxor_comm. f_equal.
  unfold uint32. rewrite !Z.shiftl_mul_pow2 by lia.
  change (2 ^ 32) with (2 ^ 24 * 2 ^ Z.of_nat 8).
  now rewrite Zmult_mod_distr_r.
Qed.

Lemma crc32Ogg_bitwise data : ClientRaw.crc32Ogg data = crcBitwise data.
Proof.
  unfold ClientRaw.crc32Ogg, crcBitwise.
  assert (H : forall crc, 0 <= crc < 2 ^ 32 ->
                fold_left ClientRaw.crc32Step data crc = fold_left crcByte data crc).
  { induction data as [|b data IH]; intros crc Hc; [reflexivity|].
    cbn [fold_left]. rewrite <- (crc32Step_bitwise crc b Hc).
    apply IH, crc32Step_range. }
  apply H. lia.
Qed.

(** The checksum field of an emitted page holds the bit-by-bit checksum of
    the page taken with that field zeroed. *)
Lemma encodePage_polynomialChecksumOk p : polynomialChecksumOk (encodePage p).
Proof.
  unfold polynomialChecksumOk. rewrite <- crc32Ogg_bitwise.
  apply encodePage_checksumOk.
Qed.

(** C8. Every call of [writeOggPage] appends one page whose checksum
    field holds the checksum of the whole page taken with that field
    zeroed: the value [crc32Ogg] computes for these bytes, which is the
    checksum of the polynomial 0x04C11DB7 computed bit by bit (register
    started at zero, most significant bit first, nothing complemented),
    as it is for every byte string. The container is the concatenation
    of such pages, two headers and one per frame kept; and [crc32Table]
    is the table of that polynomial, entry by entry. *)
Theorem page_checksum_covers_whole_page :
  (forall serial data headerType granule isFirst w,
      exists page,
        ClientRaw.buf (ClientRaw.writeOggPage serial data headerType granule isFirst w)
          = ClientRaw.buf w ++ page /\
        length page = (28 + length data)%nat /\
        checksumOk page /\
        polynomialChecksumOk page) /\
  (forall now packets,
      ClientRaw.createOggOpusFile now packets
        = concat (map encodePage (containerPages now packets)) /\
      length (containerPages now packets)
        = (2 + length (List.filter validFrame packets))%nat /\
      Forall checksumOk (map encodePage (containerPages now packets)) /\
      Forall polynomialChecksumOk (map encodePage (containerPages now packets))) /\
  (forall data, ClientRaw.crc32Ogg data = crcBitwise data) /\
  ClientRaw.crc32Table
    = map (fun i => oggreader.shiftSteps 8 (Z.shiftl (Z.of_nat i) 24)) (seq 0 256) /\
  oggreader.poly = 0x04C11DB7.
Proof.
  split; [|split; [|split; [|split]]].
  - intros serial data headerType granule isFirst w.
    rewrite writeOggPage_appends. cbn [ClientRaw.buf].
    eexists. split; [reflexivity|]. split; [|split].
    + rewrite length_encodePage. simpl. lia.
    + apply encodePage_checksumOk.
    + apply encodePage_polynomialChecksumOk.
  - intros now packets. split; [apply createOggOpusFile_pages|]. split; [|split].
    + unfold containerPages, audioPagesOf. cbn [length].
      now rewrite length_audioPages.
    + apply Forall_map, Forall_forall. intros p _. apply encodePage_checksumOk.
    + apply Forall_map, Forall_forall. intros p _.
      apply encodePage_polynomialChecksumOk.
  - exact crc32Ogg_bitwise.
  - exact (proj1 crc32Table_standard).
  - reflexivity.
Qed.

(** ** What the reader accepts *)

Lemma ReadFull_app n (a b : list byte) :
  n = length a -> oggreader.ReadFull n (a ++ b) = inl (a, b).
Proof.
  intros ->. unfold oggreader.ReadFull.
  destruct (Nat.eqb_spec (length a) 0) as [E|E].
  - destruct a; [reflexivity | discriminate].
  - replace (length (a ++ b) =? 0)%nat with false
      by (symmetry; apply Nat.eqb_neq; rewrite length_app; lia).
    replace (length (a ++ b) <? length a)%nat with false
      by (symmetry; apply Nat.ltb_ge; rewrite length_app; lia).
    now rewrite take_app_length, drop_app_length.
Qed.

Lemma fold_updateChecksum data : forall crc,
  fold_left oggreader.updateChecksum data crc
  = fold_left ClientRaw.crc32Step data crc.
Proof.
  induction data as [|b data IH]; intros crc; simpl; [reflexivity|].
  now rewrite updateChecksum_crc32Step, IH.
Qed.

Lemma encodePage_split p rest :
  encodePage p ++ rest
  = pageHeader27 (ClientRaw.crc32Ogg (pageBytes 0 p)) p
    ++ pageSegments p ++ pagePayload p ++ rest.
Proof.
  unfold encodePage, pageBytes, pageHeader27, pageTail.
  now rewrite <- !app_assoc.
Qed.

Lemma length_pageHeader27 c p : length (pageHeader27 c p) = 27%nat.
Proof.
  unfold pageHeader27. rewrite !length_app, length_pageHeader22, length_le_bytes.
  reflexivity.
Qed.

Lemma pageHeader27_fields c p :
  let h := pageHeader27 c p in
  slice 6 14 h = le_bytes 8 (pageGranule p) /\
  slice 0 4 h = list_byte_of_string "OggS" /\
  nth 4 h x00 = x00 /\
  nth 5 h x00 = pageType p /\
  slice 14 18 h = le_bytes 4 (pageSerial p) /\
  slice 18 22 h = le_bytes 4 (pageIndex p) /\
  nth 26 h x00 = z2b (Z.of_nat (length (pageSegments p))) /\
  slice 22 26 h = le_bytes 4 c /\
  oggreader.headerChecksum 0 h 0
    = fold_left oggreader.updateChecksum (pageHeader27 0 p) 0.
Proof.
  cbv zeta. unfold pageHeader27, pageHeader22, slice.
  rewrite le_bytes_4_0.
  change (list_byte_of_string "OggS") with ["O"%byte; "g"%byte; "g"%byte; "S"%byte].
  cbn [le_bytes app skipn firstn Nat.sub nth repeat
       oggreader.headerChecksum Nat.ltb Nat.leb andb fold_left].
  repeat (split; [reflexivity|]). reflexivity.
Qed.

Lemma pow256_8 : 256 ^ Z.of_nat 8 = 2 ^ 64.
Proof. reflexivity. Qed.

Lemma pow256_4 : 256 ^ Z.of_nat 4 = 2 ^ 32.
Proof. reflexivity. Qed.

(** The reader accepts a well-formed page with its checksum and returns
    its payload, its header and the rest of the stream. *)
Lemma ParseNextPage_encodePage p rest :
  wellFormedPage p ->
  oggreader.ParseNextPage (encodePage p ++ rest)
  = oggreader.Page (pagePayload p) (headerOf p) rest.
Proof.
  intros [Hseg Htotal].
  rewrite encodePage_split. unfold oggreader.ParseNextPage.
  set (c := ClientRaw.crc32Ogg (pageBytes 0 p)).
  rewrite (ReadFull_app oggreader.pageHeaderLen (pageHeader27 c p))
    by (now rewrite length_pageHeader27).
  destruct (pageHeader27_fields c p)
    as (Hg & Hsig & Hv & Hty & Hser & Hidx & Hn & Hc & Hsum).
  cbv zeta in Hg, Hsig, Hv, Hty, Hser, Hidx, Hn, Hc, Hsum.
  cbv zeta. cbn [oggreader.segmentsCount].
  rewrite Hg, Hsig, Hv, Hty, Hser, Hidx, Hn, Hc, Hsum.
  rewrite b2z_z2b_small by lia. rewrite Nat2Z.id.
  rewrite (ReadFull_app (length (pageSegments p)) (pageSegments p)) by reflexivity.
  fold (segmentsTotal (pageSegments p)). rewrite Htotal, Nat2Z.id.
  rewrite (ReadFull_app (length (pagePayload p)) (pagePayload p)) by reflexivity.
  rewrite <- !fold_left_app, fold_updateChecksum.
  replace (pageHeader27 0 p ++ pageSegments p ++ pagePayload p)
    with (pageBytes 0 p)
    by (unfold pageBytes, pageHeader27, pageTail; now rewrite <- !app_assoc).
  fold (ClientRaw.crc32Ogg (pageBytes 0 p)). fold c.
  rewrite (le_value_le_bytes_small 4 c) by (apply crc32Ogg_range).
  rewrite Z.eqb_refl.
  rewrite !le_value_le_bytes, pow256_8, pow256_4. reflexivity.
Qed.

(** ** The decoders *)

Lemma ReadFull_rest n s a rest :
  oggreader.ReadFull n s = inl (a, rest) -> (length rest + n = length s)%nat.
Proof.
  unfold oggreader.ReadFull.
  destruct (Nat.eqb_spec n 0) as [->|Hn].
  - intros [= _ <-]. lia.
  - destruct (length s =? 0)%nat; [discriminate|].
    destruct (Nat.ltb_spec (length s) n); [discriminate|].
    intros [= _ <-]. rewrite length_skipn. lia.
Qed.

Lemma ParseNextPage_consumes s payload h rest :
  oggreader.ParseNextPage s = oggreader.Page payload h rest ->
  (length rest < length s)%nat.
Proof.
  unfold oggreader.ParseNextPage.
  destruct (oggreader.ReadFull oggreader.pageHeaderLen s) as [[h0 s1]|e] eqn:E1;
    [|discriminate].
  cbv zeta.
  destruct (oggreader.ReadFull _ s1) as [[sizes s2]|e] eqn:E2; [|discriminate].
  destruct (oggreader.ReadFull _ s2) as [[pl s3]|e] eqn:E3; [|discriminate].
  destruct (_ =? _); [|discriminate].
  intros [= _ _ <-].
  apply ReadFull_rest in E1, E2, E3. unfold oggreader.pageHeaderLen in E1. lia.
Qed.

(** The decoders return: the fuel they are given is enough. *)
Lemma readPages_total fuel : forall s acc,
  (length s < fuel)%nat ->
  (exists d, ClientPion.readPages fuel s acc = Some d) /\
  (exists d, Client3.readPages fuel s acc = Some d).
Proof.
  induction fuel as [|fuel IH]; intros s acc Hlen; [lia|].
  cbn [ClientPion.readPages Client3.readPages].
  destruct (oggreader.ParseNextPage s) as [payload h rest|e] eqn:E.
  - apply ParseNextPage_consumes in E.
    assert (Hr : (length rest < fuel)%nat) by lia.
    split; [apply IH; exact Hr|].
    destruct (0 <? length payload)%nat; [|apply IH; exact Hr].
    destruct (Client3.isHeaderPacket payload); apply IH; exact Hr.
  - split; destruct (oggreader.isEOF e); eexists; reflexivity.
Qed.

Lemma extractOpusPacketsFromOgg_total oggData :
  (exists d, ClientPion.extractOpusPacketsFromOgg oggData = Some d) /\
  (exists d, Client3.extractOpusPacketsFromOgg oggData = Some d).
Proof.
  unfold ClientPion.extractOpusPacketsFromOgg, Client3.extractOpusPacketsFromOgg.
  destruct (oggreader.NewWith oggData) as [reader|e].
  - apply readPages_total. lia.
  - split; eexists; reflexivity.
Qed.

Lemma filter_keptFrame_snoc acc packet :
  List.filter keptFrame (acc ++ [packet])
  = List.filter keptFrame acc ++ (if keptFrame packet then [packet] else []).
Proof.
  rewrite List.filter_app. cbn [List.filter].
  now destruct (keptFrame packet).
Qed.

(** The decoder of part_003 returns what the decoder of client/main.go
    returns with the empty payloads and the payloads that begin with
    OpusHead or OpusTags left out. *)
Lemma readPages3_filters fuel : forall s acc,
  Client3.readPages fuel s (List.filter keptFrame acc)
  = option_map (mapPackets (List.filter keptFrame))
               (ClientPion.readPages fuel s acc).
Proof.
  induction fuel as [|fuel IH]; intros s acc; [reflexivity|].
  cbn [ClientPion.readPages Client3.readPages].
  destruct (oggreader.ParseNextPage s) as [payload h rest|e].
  - rewrite <- IH, filter_keptFrame_snoc.
    assert (Hk : keptFrame payload
                 = (0 <? length payload)%nat
                   && negb (Client3.isHeaderPacket payload)) by reflexivity.
    rewrite Hk. clear Hk.
    destruct (0 <? length payload)%nat; cbn [andb].
    + destruct (Client3.isHeaderPacket payload); cbn [negb];
        [now rewrite app_nil_r | reflexivity].
    + now rewrite app_nil_r.
  - destruct (oggreader.isEOF e); reflexivity.
Qed.

Lemma extract3_filters oggData :
  Client3.extractOpusPacketsFromOgg oggData
  = option_map (mapPackets (List.filter keptFrame))
               (ClientPion.extractOpusPacketsFromOgg oggData).
Proof.
  unfold ClientPion.extractOpusPacketsFromOgg, Client3.extractOpusPacketsFromOgg.
  destruct (oggreader.NewWith oggData) as [reader|e]; [|reflexivity].
  exact (readPages3_filters _ reader []).
Qed.

Lemma length_concat_pages ps :
  (length ps <= length (concat (map encodePage ps)))%nat.
Proof.
  induction ps as [|p ps IH]; cbn [map concat length]; [lia|].
  rewrite length_app, length_encodePage. lia.
Qed.

Lemma readPages_pages ps : forall fuel acc,
  Forall wellFormedPage ps -> (length ps < fuel)%nat ->
  ClientPion.readPages fuel (concat (map encodePage ps)) acc
  = Some (Packets (acc ++ map pagePayload ps)).
Proof.
  induction ps as [|p ps IH]; intros fuel acc Hwf Hfuel.
  - destruct fuel; [simpl in Hfuel; lia|].
    cbn [map concat ClientPion.readPages].
    change (oggreader.ParseNextPage []) with (oggreader.PageError oggreader.EOF).
    cbn [oggreader.isEOF map]. now rewrite app_nil_r.
  - destruct fuel; [simpl in Hfuel; lia|].
    cbn [map concat ClientPion.readPages].
    rewrite ParseNextPage_encodePage by (now inversion Hwf).
    rewrite IH; [|now inversion Hwf | simpl in Hfuel; lia].
    cbn [map]. now rewrite <- app_assoc.
Qed.

Lemma pagesFrom_pages ps : forall fuel,
  Forall wellFormedPage ps -> (length ps < fuel)%nat ->
  oggreader.pagesFrom fuel (concat (map encodePage ps))
  = Some (parsed ps).
Proof.
  unfold parsed. induction ps as [|p ps IH]; intros fuel Hwf Hfuel.
  - destruct fuel; [simpl in Hfuel; lia|]. reflexivity.
  - destruct fuel; [simpl in Hfuel; lia|].
    cbn [map concat oggreader.pagesFrom].
    rewrite ParseNextPage_encodePage by (now inversion Hwf).
    rewrite IH; [reflexivity | now inversion Hwf | simpl in Hfuel; lia].
Qed.

Lemma pages_of_container ps :
  Forall wellFormedPage ps ->
  oggreader.pages (concat (map encodePage ps)) = Some (parsed ps).
Proof.
  intros Hwf. unfold oggreader.pages. apply pagesFrom_pages; [exact Hwf|].
  pose proof (length_concat_pages ps). lia.
Qed.

Lemma NewWith_idPage first rest :
  wellFormedPage first -> isIdPage first ->
  oggreader.NewWith (encodePage first ++ rest) = inl rest.
Proof.
  intros Hwf (Hty & Hlen & Hsig). unfold oggreader.NewWith.
  rewrite ParseNextPage_encodePage by exact Hwf.
  cbn [headerOf oggreader.sig oggreader.headerType].
  rewrite Hty, Hlen. unfold slice. cbn [Nat.sub]. rewrite drop_0, Hsig.
  reflexivity.
Qed.

Lemma extract_container first later :
  wellFormedPage first -> Forall wellFormedPage later -> isIdPage first ->
  ClientPion.extractOpusPacketsFromOgg (concat (map encodePage (first :: later)))
  = Some (Packets (map pagePayload later)).
Proof.
  intros Hwf Hlater Hid. unfold ClientPion.extractOpusPacketsFromOgg.
  cbn [map concat]. rewrite NewWith_idPage by assumption.
  rewrite readPages_pages; [reflexivity | exact Hlater |].
  pose proof (length_concat_pages later). lia.
Qed.

Lemma validFrame_spec f :
  validFrame f = true <-> (1 <= length f <= 255)%nat.
Proof.
  unfold validFrame. rewrite negb_true_iff, orb_false_iff.
  rewrite Nat.eqb_neq, Nat.ltb_ge. lia.
Qed.

Lemma wellFormed_singleSegmentPage headerType granule serial index data :
  (length data <= 255)%nat ->
  wellFormedPage (singleSegmentPage headerType granule serial index data).
Proof.
  intros H. split; [simpl; lia|].
  cbn [singleSegmentPage pageSegments pagePayload]. unfold segmentsTotal.
  cbn [fold_left]. rewrite b2z_z2b_small; lia.
Qed.

Lemma wellFormed_audioPages serial n packets : forall i granule index,
  Forall wellFormedPage (audioPages serial n i packets granule index).
Proof.
  induction packets as [|packet rest IH]; intros i granule index;
    cbn [audioPages]; [constructor|].
  destruct (validFrame packet) eqn:E; [|apply IH].
  constructor; [|apply IH].
  apply wellFormed_singleSegmentPage. apply validFrame_spec in E. lia.
Qed.

Lemma wellFormed_containerPages now packets :
  Forall wellFormedPage (containerPages now packets).
Proof.
  unfold containerPages.
  constructor; [apply wellFormed_singleSegmentPage; vm_compute; lia|].
  constructor; [apply wellFormed_singleSegmentPage; vm_compute; lia|].
  apply wellFormed_audioPages.
Qed.

Lemma payload_audioPages serial n packets : forall i granule index,
  map pagePayload (audioPages serial n i packets granule index)
  = List.filter validFrame packets.
Proof.
  induction packets as [|packet rest IH]; intros i granule index;
    cbn [audioPages List.filter]; [reflexivity|].
  destruct (validFrame packet); [|apply IH].
  cbn [map singleSegmentPage pagePayload]. now rewrite IH.
Qed.

Lemma uint64_add_l a b : uint64 (uint64 a + b) = uint64 (a + b).
Proof. unfold uint64. now rewrite Zplus_mod_idemp_l. Qed.

Lemma granule_audioPages serial n packets : forall i granule index,
  map pageGranule (audioPages serial n i packets granule index)
  = map (fun k => uint64 (granule + 960 * Z.of_nat k))
        (seq 1 (length (List.filter validFrame packets))).
Proof.
  induction packets as [|packet rest IH]; intros i granule index;
    cbn [audioPages List.filter]; [reflexivity|].
  destruct (validFrame packet); [|apply IH].
  cbn [map singleSegmentPage pageGranule length seq].
  apply (f_equal2 cons); [f_equal; lia|].
  rewrite IH, <- (seq_shift _ 1), map_map. apply map_ext. intros k.
  rewrite uint64_add_l. f_equal. lia.
Qed.

(** The container read back page by page. *)
Lemma pages_createOggOpusFile now packets :
  oggreader.pages (ClientRaw.createOggOpusFile now packets)
  = Some (parsed (containerPages now packets)).
Proof.
  rewrite createOggOpusFile_pages.
  apply pages_of_container, wellFormed_containerPages.
Qed.

Lemma granules_parsed ps : granules (parsed ps) = map (fun p => uint64 (pageGranule p)) ps.
Proof. unfold granules, parsed. rewrite map_map. reflexivity. Qed.

Lemma headerTypes_parsed ps : headerTypes (parsed ps) = map pageType ps.
Proof. unfold headerTypes, parsed. rewrite map_map. reflexivity. Qed.

Lemma isIdPage_head now :
  isIdPage (singleSegmentPage x02 0 (uint32 now) 0 ClientRaw.opusHead).
Proof. repeat split. Qed.

(** Encoding with [createOggOpusFile] and decoding with the decoder of
    client/main.go. *)
Lemma extract_createOggOpusFile now packets :
  ClientPion.extractOpusPacketsFromOgg (ClientRaw.createOggOpusFile now packets)
  = Some (Packets (ClientRaw.opusTags :: List.filter validFrame packets)).
Proof.
  rewrite createOggOpusFile_pages. unfold containerPages.
  pose proof (wellFormed_containerPages now packets) as Hwf.
  unfold containerPages in Hwf. inversion Hwf as [|? ? Hhead Hrest]; subst.
  rewrite extract_container; [| exact Hhead | exact Hrest | apply isIdPage_head].
  cbn [map singleSegmentPage pagePayload]. unfold audioPagesOf.
  now rewrite payload_audioPages.
Qed.

(** Encoding with [createOggOpusFile] and decoding with the decoder of
    part_003. *)
Lemma extract3_createOggOpusFile now packets :
  Client3.extractOpusPacketsFromOgg (ClientRaw.createOggOpusFile now packets)
  = Some (Packets (List.filter keptFrame (List.filter validFrame packets))).
Proof.
  rewrite extract3_filters, extract_createOggOpusFile. reflexivity.
Qed.

Lemma audioPages_no_eos serial packets : forall n i granule index,
  n = (i + length packets)%nat ->
  validFrame (List.last packets []) = false ->
  Forall (fun p => pageType p <> x04)
         (audioPages serial n i packets granule index).
Proof.
  induction packets as [|packet rest IH]; intros n i granule index Hn Hlast;
    cbn [audioPages]; [constructor|].
  destruct rest as [|r rest'].
  - cbn [List.last] in Hlast. rewrite Hlast. constructor.
  - assert (Htail : Forall (fun p => pageType p <> x04)
                      (audioPages serial n (S i) (r :: rest')
                         (if validFrame packet then uint64 (granule + 960) else granule)
                         (if validFrame packet then uint32 (index + 1) else index))).
    { apply IH; [cbn [length] in *; lia | exact Hlast]. }
    destruct (validFrame packet); [|exact Htail].
    constructor; [|exact Htail].
    cbn [singleSegmentPage pageType].
    replace (Z.of_nat i =? Z.of_nat n - 1) with false
      by (symmetry; apply Z.eqb_neq; cbn [length] in Hn; lia).
    discriminate.
Qed.

(** C10. [createOggOpusFile] emits the two header pages and then one page
    per frame whose length is between 1 and 255, in order and with the
    frame as payload; a frame that is empty or longer than 255 bytes gets
    no page. When the last frame of the batch is one of those, no page of
    the container has the end-of-stream header type 0x04, neither as
    written nor as the reader reports the pages. *)
Theorem createOggOpusFile_skips_unfit_frames :
  forall (now : Z) (packets : list (list byte)),
    ClientRaw.createOggOpusFile now packets
      = concat (map encodePage (containerPages now packets)) /\
    oggreader.pages (ClientRaw.createOggOpusFile now packets)
      = Some (parsed (containerPages now packets)) /\
    length (containerPages now packets)
      = (2 + length (List.filter validFrame packets))%nat /\
    map pagePayload (audioPagesOf now packets) = List.filter validFrame packets /\
    (forall f, validFrame f = true <-> (1 <= length f <= 255)%nat) /\
    (validFrame (List.last packets []) = false ->
       Forall (fun p => pageType p <> x04) (containerPages now packets) /\
       forall pages,
         oggreader.pages (ClientRaw.createOggOpusFile now packets) = Some pages ->
         Forall (fun t => t <> x04) (headerTypes pages)).
Proof.
  intros now packets. split; [apply createOggOpusFile_pages|].
  split; [apply pages_createOggOpusFile|]. split.
  { unfold containerPages, audioPagesOf. cbn [length].
    now rewrite length_audioPages. }
  split; [apply payload_audioPages|]. split; [apply validFrame_spec|].
  intros Hlast.
  assert (H : Forall (fun p => pageType p <> x04) (containerPages now packets)).
  { unfold containerPages.
    constructor; [discriminate|]. constructor; [discriminate|].
    unfold audioPagesOf. now apply audioPages_no_eos. }
  split; [exact H|].
  intros pages Hpages.
  rewrite pages_createOggOpusFile in Hpages.
  assert (E : pages = parsed (containerPages now packets)) by congruence.
  rewrite E, headerTypes_parsed. apply Forall_map. exact H.
Qed.

Lemma createOggOpusFile_skips_unfit_frames_witness :
  Forall (fun p => pageType p <> x04) (containerPages 0 [[x01]; []]) /\
  Forall (fun t => t <> x04)
         (headerTypes (parsed (containerPages 0 [[x01]; []]))).
Proof.
  pose proof (createOggOpusFile_skips_unfit_frames 0 [[x01]; []])
    as (_ & _ & _ & _ & _ & H).
  destruct (H eq_refl) as [H1 H2].
  split; [exact H1|]. apply H2. apply pages_createOggOpusFile.
Defined.

Lemma StronglySorted_multiples m : forall a,
  StronglySorted Z.lt (map (fun k => 960 * Z.of_nat k) (seq a m)).
Proof.
  induction m as [|m IH]; intros a; cbn [seq map]; constructor; [apply IH|].
  apply Forall_map, Forall_forall. intros k Hk.
  apply list_elem_of_In, in_seq in Hk. lia.
Qed.

Lemma granules_audioPagesOf now packets :
  granules (parsed (audioPagesOf now packets))
  = map (fun k => uint64 (960 * Z.of_nat k))
        (seq 1 (length (List.filter validFrame packets))).
Proof.
  rewrite granules_parsed. unfold audioPagesOf.
  rewrite <- (map_map pageGranule uint64), granule_audioPages, map_map.
  apply map_ext. intros k. unfold uint64. now rewrite Zmod_mod.
Qed.

(** C4, as the code has it. Decoding what [createOggOpusFile] made of a
    batch returns the frames whose length is between 1 and 255, unchanged
    and in order, after the payload of the comment header, which the
    decoder of client/main.go does not skip; the decoder of part_003
    leaves that header out, and with it any frame that begins with
    OpusHead or OpusTags. The k-th audio page has the granule position
    960 k modulo 2^64: the positions advance by 960 per page and increase
    strictly as long as 960 m stays below 2^64. *)
Theorem container_roundtrip :
  forall (now : Z) (packets : list (list byte)),
    let m := length (List.filter validFrame packets) in
    ClientPion.extractOpusPacketsFromOgg (ClientRaw.createOggOpusFile now packets)
      = Some (Packets (ClientRaw.opusTags :: List.filter validFrame packets)) /\
    Client3.extractOpusPacketsFromOgg (ClientRaw.createOggOpusFile now packets)
      = Some (Packets (List.filter keptFrame (List.filter validFrame packets))) /\
    oggreader.pages (ClientRaw.createOggOpusFile now packets)
      = Some (parsed (containerPages now packets)) /\
    granules (parsed (audioPagesOf now packets))
      = map (fun k => uint64 (960 * Z.of_nat k)) (seq 1 m) /\
    (960 * Z.of_nat m < 2 ^ 64 ->
       granules (parsed (audioPagesOf now packets))
         = map (fun k => 960 * Z.of_nat k) (seq 1 m) /\
       StronglySorted Z.lt (granules (parsed (audioPagesOf now packets)))).
Proof.
  intros now packets m.
  split; [apply extract_createOggOpusFile|].
  split; [apply extract3_createOggOpusFile|].
  split; [apply pages_createOggOpusFile|].
  split; [apply granules_audioPagesOf|].
  intros Hm.
  assert (E : granules (parsed (audioPagesOf now packets))
              = map (fun k => 960 * Z.of_nat k) (seq 1 m)).
  { rewrite granules_audioPagesOf. apply map_ext_in. intros k Hk.
    apply in_seq in Hk. unfold uint64. apply Z.mod_small. fold m in Hk. lia. }
  split; [exact E|]. rewrite E. apply StronglySorted_multiples.
Qed.

Lemma container_roundtrip_witness :
  granules (parsed (audioPagesOf 1700000000 [[x01; x02]; []; [x03]]))
    = [960; 1920] /\
  StronglySorted Z.lt
    (granules (parsed (audioPagesOf 1700000000 [[x01; x02]; []; [x03]]))).
Proof.
  refine (proj2 (proj2 (proj2 (proj2
            (container_roundtrip 1700000000 [[x01; x02]; []; [x03]])))) _).
  vm_compute. reflexivity.
Defined.

(** C4 as stated does not hold: a batch of one frame comes back as two
    packets, the comment header first; and a frame that is empty or
    longer than 255 bytes does not come back at all, whichever decoder
    reads the container. *)
Lemma container_roundtrip_changes_batch :
  ClientPion.extractOpusPacketsFromOgg (ClientRaw.createOggOpusFile 0 [[x01]])
    = Some (Packets [ClientRaw.opusTags; [x01]]) /\
  ClientPion.extractOpusPacketsFromOgg (ClientRaw.createOggOpusFile 0 [[x01]; []])
    = Some (Packets [ClientRaw.opusTags; [x01]]) /\
  Client3.extractOpusPacketsFromOgg (ClientRaw.createOggOpusFile 0 [[x01]; []])
    = Some (Packets [[x01]]) /\
  Client3.extractOpusPacketsFromOgg
    (ClientRaw.createOggOpusFile 0 [[x01]; repeat x02 256])
    = Some (Packets [[x01]]).
Proof. repeat split; vm_compute; reflexivity. Qed.

Lemma keptFrame_nonempty frames :
  Forall (fun f => (0 < length f)%nat) (List.filter keptFrame frames).
Proof.
  apply List.Forall_forall. intros f Hf. apply List.filter_In in Hf.
  destruct Hf as [_ Hk]. unfold keptFrame in Hk.
  apply andb_true_iff in Hk. destruct Hk as [Hk _].
  now apply Nat.ltb_lt in Hk.
Qed.

Lemma filter_all_false {A} (f : A -> bool) l :
  Forall (fun x => f x = false) l -> List.filter f l = [].
Proof.
  induction 1 as [|x l Hx _ IH]; cbn [List.filter]; [reflexivity|].
  now rewrite Hx.
Qed.

(** C2, as the code has it. For a container made of well-formed pages
    whose first page is an identification header, the reader's constructor
    consumes that page and it is never emitted. The decoder of part_003
    then emits, in file order, the payload of every later page that is not
    empty and does not begin with the signature OpusHead or OpusTags: the
    comment header is left out because of its signature, not because it
    is the second page, and no empty payload is emitted; a container
    whose later pages are all of that kind yields zero frames, as the one
    [createOggOpusFile] makes of an empty batch does. The decoder of
    client/main.go applies no such filter and emits the payload of every
    page after the first. On every input both decoders return, and the
    decoder of part_003 returns what the other does, filtered. *)
Theorem extractOpusPacketsFromOgg_emits_later_pages :
  forall (first : OggPage) (later : list OggPage),
    wellFormedPage first -> Forall wellFormedPage later -> isIdPage first ->
    let container := concat (map encodePage (first :: later)) in
    Client3.extractOpusPacketsFromOgg container
      = Some (Packets (List.filter keptFrame (map pagePayload later))) /\
    Forall (fun f => (0 < length f)%nat)
           (List.filter keptFrame (map pagePayload later)) /\
    (Forall (fun p => keptFrame (pagePayload p) = false) later ->
       Client3.extractOpusPacketsFromOgg container = Some (Packets [])) /\
    ClientPion.extractOpusPacketsFromOgg container
      = Some (Packets (map pagePayload later)) /\
    (forall now,
        Client3.extractOpusPacketsFromOgg (ClientRaw.createOggOpusFile now [])
        = Some (Packets [])) /\
    (forall oggData,
        (exists d, ClientPion.extractOpusPacketsFromOgg oggData = Some d) /\
        Client3.extractOpusPacketsFromOgg oggData
        = option_map (mapPackets (List.filter keptFrame))
                     (ClientPion.extractOpusPacketsFromOgg oggData)).
Proof.
  intros first later Hwf Hlater Hid container.
  assert (E : ClientPion.extractOpusPacketsFromOgg container
              = Some (Packets (map pagePayload later)))
    by (now apply extract_container).
  assert (E3 : Client3.extractOpusPacketsFromOgg container
               = Some (Packets (List.filter keptFrame (map pagePayload later))))
    by (now rewrite extract3_filters, E).
  split; [exact E3|]. split; [apply keptFrame_nonempty|].
  split; [|split; [exact E|split]].
  - intros Hnone. rewrite E3. do 2 f_equal.
    apply filter_all_false, Forall_map. exact Hnone.
  - intros now. apply extract3_createOggOpusFile.
  - intros oggData.
    split; [apply extractOpusPacketsFromOgg_total | apply extract3_filters].
Qed.

Lemma extractOpusPacketsFromOgg_emits_later_pages_witness :
  let container := concat (map encodePage [sampleHead; sampleTags; sampleAudio]) in
  Client3.extractOpusPacketsFromOgg container = Some (Packets [[x0a; x0b; x0c]]) /\
  ClientPion.extractOpusPacketsFromOgg container
    = Some (Packets [ClientRaw.opusTags; [x0a; x0b; x0c]]).
Proof.
  assert (H1 : wellFormedPage sampleHead)
    by (split; [vm_compute; lia | reflexivity]).
  assert (H2 : Forall wellFormedPage [sampleTags; sampleAudio])
    by (repeat constructor; vm_compute; lia).
  assert (H3 : isIdPage sampleHead) by (repeat split).
  pose proof (extractOpusPacketsFromOgg_emits_later_pages
                sampleHead [sampleTags; sampleAudio] H1 H2 H3) as H.
  cbv zeta in H. destruct H as (E3 & _ & _ & E & _).
  split; [exact E3 | exact E].
Defined.

(** C2 as stated does not hold. The decoder of client/main.go returns one
    frame, the comment header, for the container of the two header pages
    alone, and it returns an empty payload as a frame. In a container of
    three pages whose third payload starts with the bytes OpusTags,
    followed by one more byte, the statement asks for that payload alone:
    the decoder of client/main.go returns the comment header before it,
    and the decoder of part_003 returns nothing. *)
Lemma extractOpusPacketsFromOgg_not_by_position :
  let frame := list_byte_of_string "OpusTags" ++ [x01] in
  let container := ClientRaw.createOggOpusFile 0 [frame] in
  option_map (map snd) (oggreader.pages (ClientRaw.createOggOpusFile 0 []))
    = Some [ClientRaw.opusHead; ClientRaw.opusTags] /\
  ClientPion.extractOpusPacketsFromOgg (ClientRaw.createOggOpusFile 0 [])
    = Some (Packets [ClientRaw.opusTags]) /\
  ClientPion.extractOpusPacketsFromOgg
    (concat (map encodePage
       [sampleHead; sampleTags; mkOggPage x00 960 7 2 [x00] []]))
    = Some (Packets [ClientRaw.opusTags; []]) /\
  option_map (map snd) (oggreader.pages container)
    = Some [ClientRaw.opusHead; ClientRaw.opusTags; frame] /\
  ClientPion.extractOpusPacketsFromOgg container
    = Some (Packets [ClientRaw.opusTags; frame]) /\
  Client3.extractOpusPacketsFromOgg container = Some (Packets []).
Proof. repeat split; vm_compute; reflexivity. Qed.

(** ** The packetizer *)

Lemma uint16_succ i : uint16 (uint16 (Z.of_nat i) + 1) = uint16 (Z.of_nat (S i)).
Proof.
  unfold uint16. rewrite Zplus_mod_idemp_l. f_equal. lia.
Qed.

Lemma uint32_next i :
  uint32 (uint32 (960 * Z.of_nat i) + 960) = uint32 (960 * Z.of_nat (S i)).
Proof.
  unfold uint32. rewrite Zplus_mod_idemp_l. f_equal. lia.
Qed.

(** The loop writes the packets of the frames before the first write
    that fails and returns the index of that frame. *)
Lemma sendPackets_first_failure fails n frames : forall i,
  exists k, (k <= length frames)%nat /\
    (forall j, (j < k)%nat -> fails (i + j)%nat = false) /\
    ((k < length frames)%nat -> fails (i + k)%nat = true) /\
    ClientPion.sendPackets fails n i frames
      (uint16 (Z.of_nat i)) (uint32 (960 * Z.of_nat i))
    = (firstn k (framePacketsFrom 97 n i frames),
       if (k <? length frames)%nat then Some (i + k)%nat else None).
Proof.
  induction frames as [|f rest IH]; intros i; cbn [ClientPion.sendPackets].
  - exists 0%nat. split; [simpl; lia|]. split; [intros j Hj; lia|].
    split; [simpl; lia | reflexivity].
  - destruct (fails i) eqn:Hi.
    + exists 0%nat. split; [simpl; lia|]. split; [intros j Hj; lia|].
      split; [intros _; now rewrite Nat.add_0_r|].
      rewrite Nat.add_0_r. reflexivity.
    + rewrite uint16_succ, uint32_next.
      destruct (IH (S i)) as (k & Hk & Hok & Hfail & ->).
      exists (S k). split; [simpl; lia|]. split; [|split].
      * intros [|j] Hj; [now rewrite Nat.add_0_r|].
        rewrite Nat.add_succ_r. apply (Hok j). lia.
      * intros Hlt. rewrite Nat.add_succ_r. apply Hfail. simpl in Hlt. lia.
      * cbn [fst snd length]. rewrite Nat.add_succ_r.
        change (S k <? S (length rest))%nat with (k <? length rest)%nat.
        reflexivity.
Qed.

Lemma sendPackets_all fails n frames : forall i,
  (forall j, (i <= j < i + length frames)%nat -> fails j = false) ->
  ClientPion.sendPackets fails n i frames
    (uint16 (Z.of_nat i)) (uint32 (960 * Z.of_nat i))
  = (framePacketsFrom 97 n i frames, None).
Proof.
  induction frames as [|f rest IH]; intros i Hok; cbn [ClientPion.sendPackets].
  - reflexivity.
  - rewrite (Hok i) by (simpl; lia).
    rewrite uint16_succ, uint32_next, IH by (intros j Hj; apply Hok; simpl; lia).
    reflexivity.
Qed.

Lemma sendPackets3_first_failure fails n frames : forall i,
  Forall (fun f => (0 < length f)%nat) frames ->
  exists k, (k <= length frames)%nat /\
    (forall j, (j < k)%nat -> fails (i + j)%nat = false) /\
    ((k < length frames)%nat -> fails (i + k)%nat = true) /\
    Client3.sendPackets fails n i i frames
      (uint16 (Z.of_nat i)) (uint32 (960 * Z.of_nat i))
    = (firstn k (framePacketsFrom 96 n i frames),
       if (k <? length frames)%nat then Some (i + k)%nat else None).
Proof.
  induction frames as [|f rest IH]; intros i Hne; cbn [Client3.sendPackets].
  - exists 0%nat. split; [simpl; lia|]. split; [intros j Hj; lia|].
    split; [simpl; lia | reflexivity].
  - inversion Hne as [|? ? Hf Hrest]; subst.
    replace (length f =? 0)%nat with false by (symmetry; apply Nat.eqb_neq; lia).
    destruct (fails i) eqn:Hi.
    + exists 0%nat. split; [simpl; lia|]. split; [intros j Hj; lia|].
      split; [intros _; now rewrite Nat.add_0_r|].
      rewrite Nat.add_0_r. reflexivity.
    + rewrite uint16_succ, uint32_next.
      destruct (IH (S i) Hrest) as (k & Hk & Hok & Hfail & ->).
      exists (S k). split; [simpl; lia|]. split; [|split].
      * intros [|j] Hj; [now rewrite Nat.add_0_r|].
        rewrite Nat.add_succ_r. apply (Hok j). lia.
      * intros Hlt. rewrite Nat.add_succ_r. apply Hfail. simpl in Hlt. lia.
      * cbn [fst snd length]. rewrite Nat.add_succ_r.
        change (S k <? S (length rest))%nat with (k <? length rest)%nat.
        reflexivity.
Qed.

Lemma sendPackets3_all fails n frames : forall i,
  Forall (fun f => (0 < length f)%nat) frames ->
  (forall j, (i <= j < i + length frames)%nat -> fails j = false) ->
  Client3.sendPackets fails n i i frames
    (uint16 (Z.of_nat i)) (uint32 (960 * Z.of_nat i))
  = (framePacketsFrom 96 n i frames, None).
Proof.
  induction frames as [|f rest IH]; intros i Hne Hok; cbn [Client3.sendPackets].
  - reflexivity.
  - inversion Hne as [|? ? Hf Hrest]; subst.
    replace (length f =? 0)%nat with false by (symmetry; apply Nat.eqb_neq; lia).
    rewrite (Hok i) by (simpl; lia).
    rewrite uint16_succ, uint32_next, IH
      by (try exact Hrest; intros j Hj; apply Hok; simpl; lia).
    reflexivity.
Qed.

Lemma extract3_nonempty audioData frames :
  Client3.extractOpusPacketsFromOgg audioData = Some (Packets frames) ->
  Forall (fun f => (0 < length f)%nat) frames.
Proof.
  rewrite extract3_filters.
  destruct (ClientPion.extractOpusPacketsFromOgg audioData) as [[l|e]|];
    cbn [option_map mapPackets]; intros [= <-].
  apply keptFrame_nonempty.
Qed.

Lemma nth_error_framePacketsFrom pt n frames : forall i k f,
  nth_error frames k = Some f ->
  nth_error (framePacketsFrom pt n i frames) k
  = Some (framePacket pt n (i + k) f).
Proof.
  unfold framePacketsFrom.
  induction frames as [|f0 rest IH]; intros i k f Hk.
  - destruct k; discriminate.
  - destruct k as [|k]; cbn [length seq combine map nth_error] in *.
    + injection Hk as ->. now rewrite Nat.add_0_r.
    + rewrite (IH (S i) k f Hk). do 2 f_equal. lia.
Qed.

Lemma length_framePacketsFrom pt n i frames :
  length (framePacketsFrom pt n i frames) = length frames.
Proof.
  unfold framePacketsFrom.
  rewrite length_map, length_combine, length_seq. lia.
Qed.

(** The loops are entered with index, sequence number and timestamp 0. *)
Ltac enter_at_zero H :=
  change (uint16 (Z.of_nat 0)) with 0 in H;
  change (uint32 (960 * Z.of_nat 0)) with 0 in H.

Lemma sendAudioToTrack_first_failure fails audioData frames :
  ClientPion.extractOpusPacketsFromOgg audioData = Some (Packets frames) ->
  exists k, (k <= length frames)%nat /\
    (forall i, (i < k)%nat -> fails i = false) /\
    ((k < length frames)%nat -> fails k = true) /\
    ClientPion.sendAudioToTrack fails audioData
    = Some (firstn k (framePackets 97 frames),
            if (k <? length frames)%nat then WriteError k else Sent).
Proof.
  intros E. unfold ClientPion.sendAudioToTrack. rewrite E.
  destruct (sendPackets_first_failure fails (length frames) frames 0)
    as (k & Hk & Hok & Hfail & Hp).
  enter_at_zero Hp. cbn [Nat.add] in Hok, Hfail, Hp.
  exists k. split; [exact Hk|]. split; [exact Hok|]. split; [exact Hfail|].
  rewrite Hp. cbn [fst snd]. unfold framePackets.
  now destruct (k <? length frames)%nat.
Qed.

Lemma sendAudioToTrack_all fails audioData frames :
  ClientPion.extractOpusPacketsFromOgg audioData = Some (Packets frames) ->
  (forall i, (i < length frames)%nat -> fails i = false) ->
  ClientPion.sendAudioToTrack fails audioData
  = Some (framePackets 97 frames, Sent).
Proof.
  intros E Hok. unfold ClientPion.sendAudioToTrack. rewrite E.
  pose proof (sendPackets_all fails (length frames) frames 0
                (fun j Hj => Hok j ltac:(lia))) as Hp.
  enter_at_zero Hp.
  rewrite Hp. reflexivity.
Qed.

Lemma sendAudioToTrack3_first_failure fails audioData frames :
  Client3.extractOpusPacketsFromOgg audioData = Some (Packets frames) ->
  exists k, (k <= length frames)%nat /\
    (forall i, (i < k)%nat -> fails i = false) /\
    ((k < length frames)%nat -> fails k = true) /\
    Client3.sendAudioToTrack fails audioData
    = Some (firstn k (framePackets 96 frames),
            if (k <? length frames)%nat then WriteError k else Sent).
Proof.
  intros E. unfold Client3.sendAudioToTrack. rewrite E.
  destruct (sendPackets3_first_failure fails (length frames) frames 0
              (extract3_nonempty _ _ E)) as (k & Hk & Hok & Hfail & Hp).
  enter_at_zero Hp. cbn [Nat.add] in Hok, Hfail, Hp.
  exists k. split; [exact Hk|]. split; [exact Hok|]. split; [exact Hfail|].
  rewrite Hp. cbn [fst snd]. unfold framePackets.
  now destruct (k <? length frames)%nat.
Qed.

Lemma sendAudioToTrack3_all fails audioData frames :
  Client3.extractOpusPacketsFromOgg audioData = Some (Packets frames) ->
  (forall i, (i < length frames)%nat -> fails i = false) ->
  Client3.sendAudioToTrack fails audioData
  = Some (framePackets 96 frames, Sent).
Proof.
  intros E Hok. unfold Client3.sendAudioToTrack. rewrite E.
  pose proof (sendPackets3_all fails (length frames) frames 0
                (extract3_nonempty _ _ E)
                (fun j Hj => Hok j ltac:(lia))) as Hp.
  enter_at_zero Hp.
  rewrite Hp. reflexivity.
Qed.

Lemma nth_error_framePackets pt frames i f :
  nth_error frames i = Some f ->
  nth_error (framePackets pt frames) i
  = Some (framePacket pt (length frames) i f).
Proof.
  intros H. unfold framePackets.
  now rewrite (nth_error_framePacketsFrom pt (length frames) frames 0 i f H).
Qed.

Lemma sequenceNumbers_framePacketsFrom pt n frames : forall i,
  sequenceNumbers (framePacketsFrom pt n i frames)
  = map (fun j => uint16 (Z.of_nat j)) (seq i (length frames)).
Proof.
  unfold sequenceNumbers, framePacketsFrom.
  induction frames as [|f rest IH]; intros i; [reflexivity|].
  cbn [length seq combine map]. f_equal. apply IH.
Qed.

Lemma StronglySorted_of_nat m : forall a,
  StronglySorted Z.lt (map Z.of_nat (seq a m)).
Proof.
  induction m as [|m IH]; intros a; cbn [seq map]; constructor; [apply IH|].
  apply Forall_map, Forall_forall. intros k Hk.
  apply list_elem_of_In, in_seq in Hk. lia.
Qed.

(** C9, as the code has it. The packets written for a batch are those of
    the frames before the first failing write, and the function returns
    the error of that write: with [k] the number of writes before the
    first that fails (the number of frames when none does), the first
    [k] of one packet per frame are written, and the result is the write
    error of frame [k] when a frame is left and a nil error otherwise;
    all packets are written when no write fails. Frame [i] (from 0) is
    sent with its bytes as payload, the sequence number [i] modulo 2^16,
    the timestamp [960 i] modulo 2^32, and the marker set exactly when it
    is the last frame of the batch. The sequence numbers are 0, 1, 2, ...
    and strictly increasing for a batch of at most 65536 frames. *)
Theorem sendAudioToTrack_numbers_packets :
  forall (fails : WriteOracle) (audioData : list byte),
    (forall frames,
        ClientPion.extractOpusPacketsFromOgg audioData = Some (Packets frames) ->
        (exists k, (k <= length frames)%nat /\
           (forall i, (i < k)%nat -> fails i = false) /\
           ((k < length frames)%nat -> fails k = true) /\
           ClientPion.sendAudioToTrack fails audioData
           = Some (firstn k (framePackets 97 frames),
                   if (k <? length frames)%nat then WriteError k else Sent)) /\
        ((forall i, (i < length frames)%nat -> fails i = false) ->
           ClientPion.sendAudioToTrack fails audioData
           = Some (framePackets 97 frames, Sent))) /\
    (forall frames,
        Client3.extractOpusPacketsFromOgg audioData = Some (Packets frames) ->
        (exists k, (k <= length frames)%nat /\
           (forall i, (i < k)%nat -> fails i = false) /\
           ((k < length frames)%nat -> fails k = true) /\
           Client3.sendAudioToTrack fails audioData
           = Some (firstn k (framePackets 96 frames),
                   if (k <? length frames)%nat then WriteError k else Sent)) /\
        ((forall i, (i < length frames)%nat -> fails i = false) ->
           Client3.sendAudioToTrack fails audioData
           = Some (framePackets 96 frames, Sent))) /\
    (forall e,
        (ClientPion.extractOpusPacketsFromOgg audioData = Some (Failed e) ->
         ClientPion.sendAudioToTrack fails audioData = Some ([], ExtractError e)) /\
        (Client3.extractOpusPacketsFromOgg audioData = Some (Failed e) ->
         Client3.sendAudioToTrack fails audioData = Some ([], ExtractError e))) /\
    (forall pt frames i f,
        nth_error frames i = Some f ->
        exists p,
          nth_error (framePackets pt frames) i = Some p /\
          Payload p = f /\
          SequenceNumber (Hdr p) = Z.of_nat i mod 2 ^ 16 /\
          Timestamp (Hdr p) = (960 * Z.of_nat i) mod 2 ^ 32 /\
          (Marker (Hdr p) = true <-> S i = length frames)) /\
    (forall pt frames,
        Z.of_nat (length frames) <= 65536 ->
        sequenceNumbers (framePackets pt frames)
          = map Z.of_nat (seq 0 (length frames)) /\
        StronglySorted Z.lt (sequenceNumbers (framePackets pt frames))).
Proof.
  intros fails audioData. split; [|split; [|split; [|split]]].
  - intros frames E. split.
    + now apply sendAudioToTrack_first_failure.
    + now apply sendAudioToTrack_all.
  - intros frames E. split.
    + now apply sendAudioToTrack3_first_failure.
    + now apply sendAudioToTrack3_all.
  - intros e. unfold ClientPion.sendAudioToTrack, Client3.sendAudioToTrack.
    split; intros ->; reflexivity.
  - intros pt frames i f Hi. eexists.
    split; [exact (nth_error_framePackets pt frames i f Hi)|].
    cbn [framePacket Payload Hdr SequenceNumber Timestamp Marker].
    repeat split; try reflexivity.
    + intros H. apply Z.eqb_eq in H. lia.
    + intros H. apply Z.eqb_eq. lia.
  - intros pt frames Hlen.
    assert (E : sequenceNumbers (framePackets pt frames)
                = map Z.of_nat (seq 0 (length frames))).
    { unfold framePackets. rewrite sequenceNumbers_framePacketsFrom.
      apply map_ext_in. intros j Hj. apply in_seq in Hj.
      unfold uint16. apply Z.mod_small. lia. }
    split; [exact E|]. rewrite E. apply StronglySorted_of_nat.
Qed.

Lemma sendAudioToTrack_numbers_packets_witness :
  let audioData := ClientRaw.createOggOpusFile 0 [[x01]; [x02]] in
  let failSecond : WriteOracle := fun n => Nat.eqb n 1 in
  ClientPion.sendAudioToTrack neverFails audioData
    = Some (framePackets 97 [ClientRaw.opusTags; [x01]; [x02]], Sent) /\
  Client3.sendAudioToTrack neverFails audioData
    = Some (framePackets 96 [[x01]; [x02]], Sent) /\
  StronglySorted Z.lt (sequenceNumbers (framePackets 96 [[x01]; [x02]])) /\
  ClientPion.sendAudioToTrack failSecond audioData
    = Some (firstn 1 (framePackets 97 [ClientRaw.opusTags; [x01]; [x02]]),
            WriteError 1) /\
  Client3.sendAudioToTrack failSecond audioData
    = Some (firstn 1 (framePackets 96 [[x01]; [x02]]), WriteError 1).
Proof.
  intros audioData failSecond.
  assert (E : ClientPion.extractOpusPacketsFromOgg audioData
              = Some (Packets [ClientRaw.opusTags; [x01]; [x02]]))
    by (vm_compute; reflexivity).
  assert (E3 : Client3.extractOpusPacketsFromOgg audioData
               = Some (Packets [[x01]; [x02]]))
    by (vm_compute; reflexivity).
  pose proof (sendAudioToTrack_numbers_packets neverFails audioData)
    as (HA & HB & _ & _ & HD).
  pose proof (sendAudioToTrack_numbers_packets failSecond audioData)
    as (FA & FB & _).
  split; [|split; [|split; [|split]]].
  - apply (HA [ClientRaw.opusTags; [x01]; [x02]] E). intros i _. reflexivity.
  - apply (HB [[x01]; [x02]] E3). intros i _. reflexivity.
  - apply (HD 96 [[x01]; [x02]]). cbn [length]. lia.
  - destruct (proj1 (FA _ E)) as (k & Hk & Hok & Hfail & R).
    destruct k as [|[|k]].
    + specialize (Hfail ltac:(simpl; lia)). discriminate Hfail.
    + exact R.
    + specialize (Hok 1%nat ltac:(lia)). discriminate Hok.
  - destruct (proj1 (FB _ E3)) as (k & Hk & Hok & Hfail & R).
    destruct k as [|[|k]].
    + specialize (Hfail ltac:(simpl; lia)). discriminate Hfail.
    + exact R.
    + specialize (Hok 1%nat ltac:(lia)). discriminate Hok.
Defined.

Lemma filter_repeat_true {A} (f : A -> bool) x n :
  f x = true -> List.filter f (repeat x n) = repeat x n.
Proof.
  intros H. induction n as [|n IH]; cbn [repeat List.filter]; [reflexivity|].
  now rewrite H, IH.
Qed.

Lemma nth_error_cons_repeat {A} (a x : A) n k :
  (k < n)%nat -> nth_error (a :: repeat x n) (S k) = Some x.
Proof. intros H. cbn [nth_error]. now apply nth_error_repeat. Qed.

(** C9 as stated does not hold for every batch: the sequence number is a
    [uint16]. For a container of 65537 audio frames the packet of index
    65535 carries the sequence number 65535 and the next one carries 0,
    in part_003; in client/main.go, where the comment header is sent as
    the first packet, a container of 65536 audio frames does it. *)
Lemma sendAudioToTrack_sequence_number_wraps :
  (let audioData :=
     ClientRaw.createOggOpusFile 0 (repeat [x01] (Z.to_nat 65537)) in
   exists packets,
     Client3.sendAudioToTrack neverFails audioData = Some (packets, Sent) /\
     length packets = Z.to_nat 65537 /\
     option_map (fun p => SequenceNumber (Hdr p))
                (nth_error packets (Z.to_nat 65535)) = Some 65535 /\
     option_map (fun p => SequenceNumber (Hdr p))
                (nth_error packets (Z.to_nat 65536)) = Some 0) /\
  (let audioData :=
     ClientRaw.createOggOpusFile 0 (repeat [x01] (Z.to_nat 65536)) in
   exists packets,
     ClientPion.sendAudioToTrack neverFails audioData = Some (packets, Sent) /\
     length packets = Z.to_nat 65537 /\
     option_map (fun p => SequenceNumber (Hdr p))
                (nth_error packets (Z.to_nat 65535)) = Some 65535 /\
     option_map (fun p => SequenceNumber (Hdr p))
                (nth_error packets (Z.to_nat 65536)) = Some 0).
Proof.
  split.
  - intros audioData.
    assert (E : Client3.extractOpusPacketsFromOgg audioData
                = Some (Packets (repeat [x01] (Z.to_nat 65537)))).
    { unfold audioData. rewrite extract3_createOggOpusFile.
      now rewrite !filter_repeat_true by reflexivity. }
    exists (framePackets 96 (repeat [x01] (Z.to_nat 65537))).
    split; [apply sendAudioToTrack3_all; [exact E | intros i _; reflexivity]|].
    split.
    { unfold framePackets. now rewrite length_framePacketsFrom, repeat_length. }
    split.
    + rewrite (nth_error_framePackets 96 _ _ [x01])
        by (apply nth_error_repeat; lia).
      cbn [option_map framePacket Hdr SequenceNumber].
      rewrite Z2Nat.id by lia. reflexivity.
    + rewrite (nth_error_framePackets 96 _ _ [x01])
        by (apply nth_error_repeat; lia).
      cbn [option_map framePacket Hdr SequenceNumber].
      rewrite Z2Nat.id by lia. reflexivity.
  - intros audioData.
    set (frames := ClientRaw.opusTags :: repeat [x01] (Z.to_nat 65536)).
    assert (E : ClientPion.extractOpusPacketsFromOgg audioData
                = Some (Packets frames)).
    { unfold audioData, frames. rewrite extract_createOggOpusFile.
      now rewrite filter_repeat_true by reflexivity. }
    exists (framePackets 97 frames).
    split; [apply sendAudioToTrack_all; [exact E | intros i _; reflexivity]|].
    split.
    { unfold framePackets, frames.
      rewrite length_framePacketsFrom. cbn [length]. rewrite repeat_length. lia. }
    assert (H1 : nth_error frames (Z.to_nat 65535) = Some [x01]).
    { replace (Z.to_nat 65535) with (S (Z.to_nat 65534)) by lia.
      apply nth_error_cons_repeat. lia. }
    assert (H2 : nth_error frames (Z.to_nat 65536) = Some [x01]).
    { replace (Z.to_nat 65536) with (S (Z.to_nat 65535)) by lia.
      apply nth_error_cons_repeat. lia. }
    split.
    + rewrite (nth_error_framePackets 97 _ _ [x01] H1).
      cbn [option_map framePacket Hdr SequenceNumber].
      rewrite Z2Nat.id by lia. reflexivity.
    + rewrite (nth_error_framePackets 97 _ _ [x01] H2).
      cbn [option_map framePacket Hdr SequenceNumber].
      rewrite Z2Nat.id by lia. reflexivity.
Qed.

(** ** The rooms the server can reach

    A peer is allocated by the request that registers it, so the two
    slots of a room never hold the same peer: the slot [removePeer]
    clears is the only one that holds the peer passed in. *)

Lemma whipHandler_state st req s :
  snd (Server.whipHandler st req s) = st \/
  (rooms (snd (Server.whipHandler st req s))
     = fst (roomAddPeer (fst (getOrCreateRoom (rooms st) (roomParam req)))
                        (roomParam req) (Some (nextPeer st))) /\
   nextPeer (snd (Server.whipHandler st req s)) = S (nextPeer st)).
Proof.
  unfold Server.whipHandler.
  destruct (String.eqb (Method req) "OPTIONS"); [now left|].
  destruct (String.eqb (roomParam req) ""); [now left|].
  destruct (Body req); [|now left].
  destruct (RegisterCodec s); [now left|].
  destruct (NewPeerConnection s); [now left|].
  destruct (NewTrackLocalStaticRTP s); [now left|].
  destruct (AddTrack s); [now left|].
  right. split; reflexivity.
Qed.

Lemma occupants_addPeer r p q :
  In q (occupants (fst (addPeer r (Some p)))) -> In q (occupants r) \/ q = p.
Proof.
  unfold addPeer, occupants.
  destruct (PeerA r) as [a|] eqn:HA, (PeerB r) as [b|] eqn:HB;
    cbn [fst PeerA PeerB app In]; rewrite ?HA, ?HB; cbn [app In]; intuition.
Qed.

Lemma NoDup_addPeer r p :
  ~ In p (occupants r) -> List.NoDup (occupants r) ->
  List.NoDup (occupants (fst (addPeer r (Some p)))).
Proof.
  unfold addPeer, occupants.
  destruct (PeerA r) as [a|] eqn:HA, (PeerB r) as [b|] eqn:HB;
    cbn [fst PeerA PeerB app In]; rewrite ?HA, ?HB; cbn [app In];
    intros Hp Hnd; try exact Hnd.
  - constructor; [|constructor; [intros []|constructor]].
    cbn [In]. intuition.
  - constructor; [|exact Hnd]. cbn [In]. intuition.
  - constructor; [intros []|constructor].
Qed.

Lemma occupants_removePeer r peer q :
  In q (occupants (removePeer r peer)) -> In q (occupants r).
Proof.
  unfold removePeer, occupants.
  destruct (ptr_eqb (PeerA r) peer); [|destruct (ptr_eqb (PeerB r) peer)];
    destruct (PeerA r), (PeerB r); cbn [PeerA PeerB app In]; intuition.
Qed.

Lemma NoDup_removePeer r peer :
  List.NoDup (occupants r) -> List.NoDup (occupants (removePeer r peer)).
Proof.
  unfold removePeer, occupants.
  destruct (ptr_eqb (PeerA r) peer); [|destruct (ptr_eqb (PeerB r) peer)];
    destruct (PeerA r), (PeerB r); cbn [PeerA PeerB app]; intros H;
    try exact H; repeat constructor; intros [].
Qed.

Lemma roomsOk_step st ev : roomsOk st -> roomsOk (serverStep st ev).
Proof.
  intros Hok. destruct ev as [req s|peer roomID failed]; cbn [serverStep].
  - destruct (whipHandler_state st req s) as [->|[Hrooms Hnext]]; [exact Hok|].
    intros roomID r. rewrite Hrooms, Hnext. clear Hrooms Hnext.
    unfold getOrCreateRoom, roomAddPeer.
    set (id := roomParam req). set (p := nextPeer st).
    assert (Hfresh : forall r0, rooms st !! id = Some r0 -> ~ In p (occupants r0)).
    { intros r0 H0 Hin. destruct (Hok id r0 H0) as [Hlt _].
      specialize (Hlt p Hin). unfold p in Hlt. lia. }
    destruct (rooms st !! id) as [r0|] eqn:E0; cbn [fst].
    + rewrite E0.
      destruct (addPeer r0 (Some p)) as [r1 other] eqn:E1. cbn [fst].
      destruct (decide (id = roomID)) as [<-|Hne].
      * rewrite lookup_insert_eq. intros [= <-].
        replace r1 with (fst (addPeer r0 (Some p))) by (now rewrite E1).
        destruct (Hok id r0 E0) as [Hlt Hnd]. split.
        -- intros q Hq. apply occupants_addPeer in Hq. destruct Hq as [Hq| ->].
           ++ specialize (Hlt q Hq). lia.
           ++ lia.
        -- apply NoDup_addPeer; [now apply Hfresh | exact Hnd].
      * rewrite lookup_insert_ne by exact Hne. intros Hr.
        destruct (Hok roomID r Hr) as [Hlt Hnd]. split; [|exact Hnd].
        intros q Hq. specialize (Hlt q Hq). lia.
    + rewrite lookup_insert_eq. cbn [addPeer PeerA PeerB ID fst].
      destruct (decide (id = roomID)) as [<-|Hne].
      * rewrite lookup_insert_eq. intros [= <-]. split.
        -- intros q [<-|[]]. lia.
        -- repeat constructor. intros [].
      * rewrite !lookup_insert_ne by exact Hne. intros Hr.
        destruct (Hok roomID r Hr) as [Hlt Hnd]. split; [|exact Hnd].
        intros q Hq. specialize (Hlt q Hq). lia.
  - unfold Server.onConnectionStateChange. destruct failed; [|exact Hok].
    intros id r. cbn [rooms nextPeer]. unfold roomRemovePeer.
    destruct (rooms st !! roomID) as [r0|] eqn:E0; [|apply Hok].
    destruct (decide (roomID = id)) as [<-|Hne].
    + rewrite lookup_insert_eq. intros [= <-].
      destruct (Hok roomID r0 E0) as [Hlt Hnd]. split.
      * intros q Hq. apply Hlt. now apply occupants_removePeer in Hq.
      * now apply NoDup_removePeer.
    + rewrite lookup_insert_ne by exact Hne. apply Hok.
Qed.

(** Whatever requests and connection events the server has seen, no room
    holds one peer in both slots. *)
Lemma reachable_rooms_hold_distinct_peers evs roomID r :
  rooms (serverRun initialServer evs) !! roomID = Some r ->
  List.NoDup (occupants r).
Proof.
  assert (H : roomsOk (serverRun initialServer evs)).
  { unfold serverRun.
    assert (H0 : roomsOk initialServer).
    { intros id r0 H0. cbn in H0. rewrite lookup_empty in H0. discriminate. }
    revert H0. generalize initialServer.
    induction evs as [|ev evs IH]; intros st Hst; [exact Hst|].
    cbn [fold_left]. apply IH. now apply roomsOk_step. }
  intros Hr. exact (proj2 (H roomID r Hr)).
Qed.

(* ===================================================================== *)
(** * Part III: further properties of the code                            *)
(* ===================================================================== *)

(** ** The room manager *)

(** X1. [getOrCreateRoom] returns the room stored under the identifier
    afterwards; a room that exists is returned as it is, peers included,
    and the map is left alone; a missing one is created empty under its
    own identifier; no other entry changes; a second call changes
    nothing. *)
Theorem getOrCreateRoom_finds_or_creates :
  forall (rs : gmap string Room) (roomID : string),
    let rs' := fst (getOrCreateRoom rs roomID) in
    let room := snd (getOrCreateRoom rs roomID) in
    rs' !! roomID = Some room /\
    (forall other, other <> roomID -> rs' !! other = rs !! other) /\
    match rs !! roomID with
    | Some r => rs' = rs /\ room = r
    | None => room = mkRoom roomID None None
    end /\
    getOrCreateRoom rs' roomID = (rs', room).
Proof.
  intros rs roomID. unfold getOrCreateRoom.
  destruct (rs !! roomID) as [r|] eqn:E; cbn [fst snd].
  - rewrite E. repeat split; auto.
  - rewrite lookup_insert_eq. repeat split; auto.
    intros other Hne. now rewrite lookup_insert_ne.
Qed.

Lemma roomAddPeer_dom (rs : gmap string Room) roomID peer :
  dom (fst (roomAddPeer rs roomID peer)) = dom rs.
Proof.
  unfold roomAddPeer. destruct (rs !! roomID) as [r|] eqn:E; [|reflexivity].
  destruct (addPeer r peer) as [r' o]. cbn [fst].
  apply dom_insert_lookup_L. now rewrite E.
Qed.

Lemma roomRemovePeer_dom (rs : gmap string Room) roomID peer :
  dom (roomRemovePeer rs roomID peer) = dom rs.
Proof.
  unfold roomRemovePeer. destruct (rs !! roomID) as [r|] eqn:E; [|reflexivity].
  apply dom_insert_lookup_L. now rewrite E.
Qed.

Lemma getOrCreateRoom_dom (rs : gmap string Room) roomID :
  dom (fst (getOrCreateRoom rs roomID)) = {[roomID]} ∪ dom rs.
Proof.
  unfold getOrCreateRoom. destruct (rs !! roomID) as [r|] eqn:E; cbn [fst].
  - symmetry. apply subseteq_union_1_L, singleton_subseteq_l.
    eapply elem_of_dom_2; exact E.
  - apply dom_insert_L.
Qed.

Lemma addPeer_ID r peer : ID (fst (addPeer r peer)) = ID r.
Proof.
  unfold addPeer. destruct (PeerA r); [destruct (PeerB r)|]; reflexivity.
Qed.

Lemma removePeer_ID r peer : ID (removePeer r peer) = ID r.
Proof.
  unfold removePeer.
  destruct (ptr_eqb (PeerA r) peer); [|destruct (ptr_eqb (PeerB r) peer)];
    reflexivity.
Qed.

Lemma keyedByID_register (rs : gmap string Room) roomID peer :
  keyedByID rs ->
  keyedByID (fst (roomAddPeer (fst (getOrCreateRoom rs roomID)) roomID peer)).
Proof.
  intros H. unfold getOrCreateRoom, roomAddPeer.
  destruct (rs !! roomID) as [r|] eqn:E; cbn [fst].
  - rewrite E. destruct (addPeer r peer) as [r' o] eqn:Ea. cbn [fst].
    apply map_Forall_insert_2; [|exact H].
    replace r' with (fst (addPeer r peer)) by (now rewrite Ea).
    rewrite addPeer_ID. exact (H roomID r E).
  - rewrite lookup_insert_eq.
    destruct (addPeer (mkRoom roomID None None) peer) as [r' o] eqn:Ea.
    cbn [fst]. rewrite insert_insert_eq.
    apply map_Forall_insert_2; [|exact H].
    replace r' with (fst (addPeer (mkRoom roomID None None) peer))
      by (now rewrite Ea).
    now rewrite addPeer_ID.
Qed.

Lemma serverStep_rooms st ev :
  dom (rooms st) ⊆ dom (rooms (serverStep st ev)) /\
  (keyedByID (rooms st) -> keyedByID (rooms (serverStep st ev))).
Proof.
  destruct ev as [req s|peer roomID failed]; cbn [serverStep].
  - destruct (whipHandler_state st req s) as [->|[Hrooms _]]; [split; auto|].
    rewrite Hrooms. split.
    + rewrite roomAddPeer_dom, getOrCreateRoom_dom. apply union_subseteq_r.
    + apply keyedByID_register.
  - unfold Server.onConnectionStateChange. destruct failed; [|split; auto].
    cbn [rooms]. split.
    + now rewrite roomRemovePeer_dom.
    + intros H. unfold roomRemovePeer.
      destruct (rooms st !! roomID) as [r|] eqn:E; [|exact H].
      apply map_Forall_insert_2; [|exact H].
      rewrite removePeer_ID. exact (H roomID r E).
Qed.

(** X2. The server never deletes a room: whatever requests and
    connection events follow, every identifier that has a room keeps one,
    also after both peers left; and every room of a server started empty
    is stored under its own [ID]. *)
Theorem rooms_are_never_deleted :
  forall (st : ServerState) (evs : list ServerEvent),
    dom (rooms st) ⊆ dom (rooms (serverRun st evs)) /\
    keyedByID (rooms (serverRun initialServer evs)).
Proof.
  intros st evs. split.
  - revert st. induction evs as [|ev evs IH]; intros st; [reflexivity|].
    cbn [serverRun fold_left].
    etransitivity; [apply (proj1 (serverStep_rooms st ev))|apply IH].
  - assert (H : forall st0, keyedByID (rooms st0) ->
                            keyedByID (rooms (serverRun st0 evs))).
    { induction evs as [|ev evs IH]; intros st0 H0; [exact H0|].
      cbn [serverRun fold_left]. apply IH.
      now apply (proj2 (serverStep_rooms st0 ev)). }
    apply H. intros k r Hk. cbn in Hk. rewrite lookup_empty in Hk. discriminate.
Qed.

(** ** The signaling handler, beyond negotiation failures *)

(** X3. A pre-flight request and a request without a room are answered
    before anything is read or allocated, the first with 200 and an empty
    body, the second with 400 and the text of the error, neither with a
    [Location]: the server state is untouched, whatever the body and the
    session, in both server variants. *)
Theorem whipHandler_rejects_without_effect :
  forall (st : ServerState) (req : Request) (s : Session),
    Method req = "OPTIONS"%string \/ roomParam req = ""%string ->
    exists res,
      Server.whipHandler st req s = (Responded res, st) /\
      Server1.whipHandler st req s = (Responded res, st) /\
      Status res = (if String.eqb (Method req) "OPTIONS"
                    then StatusOK else StatusBadRequest) /\
      Location res = None /\
      res = (if String.eqb (Method req) "OPTIONS"
             then mkResponse StatusOK None ""
             else httpError "room parameter is required" StatusBadRequest).
Proof.
  intros st req s H. unfold Server.whipHandler, Server1.whipHandler.
  destruct (String.eqb (Method req) "OPTIONS") eqn:Em.
  - eexists. repeat split.
  - destruct H as [H|H]; [apply String.eqb_eq in H; congruence|].
    rewrite H. cbn [String.eqb]. eexists. repeat split.
Qed.

Lemma whipHandler_rejects_without_effect_witness :
  exists res,
    Server.whipHandler initialServer (mkRequest "POST" "" None) (okSession "")
      = (Responded res, initialServer) /\
    Server1.whipHandler initialServer (mkRequest "POST" "" None) (okSession "")
      = (Responded res, initialServer) /\
    Status res = StatusBadRequest /\ Location res = None.
Proof.
  destruct (whipHandler_rejects_without_effect initialServer
              (mkRequest "POST" "" None) (okSession "") (or_intror eq_refl))
    as (res & H & H1 & Hs & Hl & _).
  exists res. split; [exact H|]. split; [exact H1|]. split; [exact Hs | exact Hl].
Defined.

Lemma register_partner (rs : gmap string Room) roomID p :
  snd (roomAddPeer (fst (getOrCreateRoom rs roomID)) roomID (Some p))
  = waitingPeer rs roomID.
Proof.
  unfold getOrCreateRoom, roomAddPeer, waitingPeer.
  destruct (rs !! roomID) as [r|] eqn:E; cbn [fst].
  - rewrite E. unfold addPeer.
    destruct (PeerA r) as [a|]; [destruct (PeerB r) as [b|]|]; reflexivity.
  - rewrite lookup_insert_eq. reflexivity.
Qed.

Lemma whipHandler_registers st req s :
  joins (roomParam req) req -> roomParam req <> ""%string ->
  setupSucceeded s ->
  Server.whipHandler st req s
  = (Responded (Server.writeAnswer s "/whip"),
     mkServer
       (fst (roomAddPeer (fst (getOrCreateRoom (rooms st) (roomParam req)))
                         (roomParam req) (Some (nextPeer st))))
       (S (nextPeer st))
       (relays st ++
        match waitingPeer (rooms st) (roomParam req) with
        | Some other => [(nextPeer st, other); (other, nextPeer st)]
        | None => []
        end)
       (watchers st ++ [(nextPeer st, roomParam req)])).
Proof.
  intros (Hm & _ & [offer Hb]) Hr (H1 & H2 & H3 & H4).
  unfold Server.whipHandler.
  apply String.eqb_neq in Hm. apply String.eqb_neq in Hr.
  rewrite Hm, Hr, Hb, H1, H2, H3, H4. cbv zeta.
  rewrite register_partner.
  destruct (waitingPeer (rooms st) (roomParam req));
    [reflexivity | now rewrite app_nil_r].
Qed.

(** X4. When every call of the session succeeds the handler answers 201
    with [Location: /whip] and the answer SDP as body. It has allocated
    a new peer and handed it to [addPeer] for the room of the request
    (which stores it when a slot is free), installed its connection-state
    callback, and wired the relay in both directions with the peer that
    waited alone in slot A, if there was one; otherwise no relay is
    wired. *)
Theorem whipHandler_answers_and_pairs :
  forall (st : ServerState) (req : Request) (s : Session),
    joins (roomParam req) req -> roomParam req <> ""%string ->
    setupSucceeded s ->
    SetRemoteDescription s = None -> CreateAnswer s = None ->
    SetLocalDescription s = None ->
    exists st',
      Server.whipHandler st req s
        = (Responded (mkResponse StatusCreated (Some "/whip"%string) (LocalSDP s)), st') /\
      nextPeer st' = S (nextPeer st) /\
      watchers st' = watchers st ++ [(nextPeer st, roomParam req)] /\
      relays st'
        = relays st ++
          match waitingPeer (rooms st) (roomParam req) with
          | Some other => [(nextPeer st, other); (other, nextPeer st)]
          | None => []
          end /\
      rooms st' = fst (roomAddPeer (fst (getOrCreateRoom (rooms st) (roomParam req)))
                                   (roomParam req) (Some (nextPeer st))).
Proof.
  intros st req s Hj Hr Hs Ha Hb Hc.
  rewrite (whipHandler_registers st req s Hj Hr Hs).
  unfold Server.writeAnswer. rewrite Ha, Hb, Hc.
  eexists. split; [reflexivity|]. repeat split.
Qed.

Lemma whipHandler_answers_and_pairs_witness :
  exists st',
    Server.whipHandler
      (mkServer {["r1"%string := mkRoom "r1" (Some 4%nat) None]} 5%nat [] [])
      (mkRequest "POST" "r1" (Some "v=0")) (okSession "answer")
      = (Responded (mkResponse StatusCreated (Some "/whip"%string) "answer"), st') /\
    nextPeer st' = 6%nat /\
    watchers st' = [(5%nat, "r1"%string)] /\
    relays st' = [(5%nat, 4%nat); (4%nat, 5%nat)] /\
    rooms st' = fst (roomAddPeer
                       (fst (getOrCreateRoom
                               {["r1"%string := mkRoom "r1" (Some 4%nat) None]} "r1"))
                       "r1" (Some 5%nat)).
Proof.
  refine (whipHandler_answers_and_pairs
            (mkServer {["r1"%string := mkRoom "r1" (Some 4%nat) None]} 5%nat [] [])
            (mkRequest "POST" "r1" (Some "v=0")) (okSession "answer")
            _ _ _ eq_refl eq_refl eq_refl).
  - split; [discriminate|]. split; [reflexivity|]. eexists. reflexivity.
  - discriminate.
  - repeat split.
Defined.

Lemma register_insert (rs : gmap string Room) roomID peer :
  fst (roomAddPeer (fst (getOrCreateRoom rs roomID)) roomID peer)
  = <[roomID := fst (addPeer (roomOrNew rs roomID) peer)]> rs.
Proof.
  unfold getOrCreateRoom, roomAddPeer, roomOrNew.
  destruct (rs !! roomID) as [r|] eqn:E; cbn [fst].
  - rewrite E. now destruct (addPeer r peer).
  - rewrite lookup_insert_eq.
    destruct (addPeer (mkRoom roomID None None) peer). cbn [fst].
    apply insert_insert_eq.
Qed.

Lemma serverStep_join st roomID req s :
  joins roomID req -> roomID <> ""%string -> setupSucceeded s ->
  serverStep st (EvRequest req s)
  = mkServer
      (<[roomID := fst (addPeer (roomOrNew (rooms st) roomID)
                                (Some (nextPeer st)))]> (rooms st))
      (S (nextPeer st))
      (relays st ++
       match waitingPeer (rooms st) roomID with
       | Some other => [(nextPeer st, other); (other, nextPeer st)]
       | None => []
       end)
      (watchers st ++ [(nextPeer st, roomID)]).
Proof.
  intros Hj Hr Hs. cbn [serverStep].
  assert (E : roomParam req = roomID) by (apply Hj). subst roomID.
  rewrite (whipHandler_registers st req s Hj Hr Hs). cbn [snd].
  now rewrite register_insert.
Qed.

(** X5. The first two requests for a room that does not exist yet create
    it, fill slot A and slot B with their peers in order of arrival and
    wire the relay in both directions between the two; a third request
    for the same room changes neither the registry nor the relays, though
    a peer is allocated for it. Whether the negotiations succeed plays no
    part. *)
Theorem three_requests_for_one_room :
  forall (st : ServerState) (roomID : string) (req1 req2 req3 : Request)
         (s1 s2 s3 : Session),
    roomID <> ""%string ->
    joins roomID req1 -> joins roomID req2 -> joins roomID req3 ->
    setupSucceeded s1 -> setupSucceeded s2 -> setupSucceeded s3 ->
    rooms st !! roomID = None ->
    let n := nextPeer st in
    let st2 := serverRun st [EvRequest req1 s1; EvRequest req2 s2] in
    let st3 := serverStep st2 (EvRequest req3 s3) in
    rooms st2 = <[roomID := mkRoom roomID (Some n) (Some (S n))]> (rooms st) /\
    relays st2 = relays st ++ [(S n, n); (n, S n)] /\
    rooms st3 = rooms st2 /\
    relays st3 = relays st2 /\
    nextPeer st3 = S (S (S n)).
Proof.
  intros st roomID req1 req2 req3 s1 s2 s3 Hr J1 J2 J3 S1 S2 S3 Hnew n st2 st3.
  assert (E2 : rooms st2 = <[roomID := mkRoom roomID (Some n) (Some (S n))]> (rooms st)
               /\ relays st2 = relays st ++ [(S n, n); (n, S n)]
               /\ nextPeer st2 = S (S n)).
  { unfold st2, serverRun. cbn [fold_left].
    rewrite (serverStep_join st roomID req1 s1 J1 Hr S1).
    rewrite (serverStep_join _ roomID req2 s2 J2 Hr S2).
    cbn [rooms nextPeer relays watchers].
    unfold roomOrNew, waitingPeer. rewrite Hnew, lookup_insert_eq.
    cbn [addPeer PeerA PeerB ID fst]. rewrite insert_insert_eq, app_nil_r.
    repeat split. }
  destruct E2 as (Er & El & En).
  split; [exact Er|]. split; [exact El|].
  unfold st3. rewrite (serverStep_join st2 roomID req3 s3 J3 Hr S3).
  cbn [rooms nextPeer relays watchers].
  unfold roomOrNew, waitingPeer. rewrite Er, lookup_insert_eq.
  cbn [addPeer PeerA PeerB ID fst]. rewrite insert_insert_eq, app_nil_r, En.
  repeat split.
Qed.

Lemma three_requests_for_one_room_witness :
  let req := mkRequest "POST" "r1" (Some "v=0") in
  let s := okSession "answer" in
  let st2 := serverRun initialServer [EvRequest req s; EvRequest req s] in
  let st3 := serverStep st2 (EvRequest req s) in
  rooms st2 = <["r1"%string := mkRoom "r1" (Some 0%nat) (Some 1%nat)]> ∅ /\
  relays st2 = [(1%nat, 0%nat); (0%nat, 1%nat)] /\
  rooms st3 = rooms st2 /\
  relays st3 = relays st2 /\
  nextPeer st3 = 3%nat.
Proof.
  assert (J : joins "r1" (mkRequest "POST" "r1" (Some "v=0")))
    by (split; [discriminate|]; split; [reflexivity|]; eexists; reflexivity).
  assert (S : setupSucceeded (okSession "answer")) by (repeat split).
  exact (three_requests_for_one_room initialServer "r1"
           (mkRequest "POST" "r1" (Some "v=0"))
           (mkRequest "POST" "r1" (Some "v=0"))
           (mkRequest "POST" "r1" (Some "v=0"))
           (okSession "answer") (okSession "answer") (okSession "answer")
           ltac:(discriminate) J J J S S S (lookup_empty _)).
Defined.

(** X6. When the connection of a peer fails or closes, only the slot that
    holds this peer in its room is cleared: the other slot and the other
    rooms stay as they were, and the relay directions wired earlier, the
    callbacks and the allocator are not touched. Any other state leaves
    the server as it was. *)
Theorem connection_loss_clears_one_slot :
  forall (st : ServerState) (peer : PeerRef) (roomID : string) (r : Room),
    rooms st !! roomID = Some r ->
    let st' := Server.onConnectionStateChange st peer roomID true in
    rooms st' !! roomID = Some (removePeer r (Some peer)) /\
    (forall other, other <> roomID -> rooms st' !! other = rooms st !! other) /\
    relays st' = relays st /\ watchers st' = watchers st /\
    nextPeer st' = nextPeer st /\
    (forall a, PeerA r = Some a -> PeerB r = Some peer -> a <> peer ->
       removePeer r (Some peer) = mkRoom (ID r) (Some a) None) /\
    Server.onConnectionStateChange st peer roomID false = st.
Proof.
  intros st peer roomID r Hr st'. unfold st', Server.onConnectionStateChange.
  cbn [rooms relays watchers nextPeer]. unfold roomRemovePeer. rewrite Hr.
  rewrite lookup_insert_eq. repeat split.
  - intros other Hne. now rewrite lookup_insert_ne.
  - intros a HA HB Hne. unfold removePeer. rewrite HA, HB. cbn [ptr_eqb].
    replace (a =? peer)%nat with false by (symmetry; now apply Nat.eqb_neq).
    now rewrite Nat.eqb_refl.
Qed.

Lemma connection_loss_clears_one_slot_witness :
  let st := mkServer {["r1"%string := mkRoom "r1" (Some 0%nat) (Some 1%nat)]}
                     2%nat [(1%nat, 0%nat); (0%nat, 1%nat)] [] in
  rooms (Server.onConnectionStateChange st 1%nat "r1" true) !! "r1"%string
    = Some (removePeer (mkRoom "r1" (Some 0%nat) (Some 1%nat)) (Some 1%nat)) /\
  relays (Server.onConnectionStateChange st 1%nat "r1" true)
    = [(1%nat, 0%nat); (0%nat, 1%nat)].
Proof.
  pose proof (connection_loss_clears_one_slot
                (mkServer {["r1"%string := mkRoom "r1" (Some 0%nat) (Some 1%nat)]}
                          2%nat [(1%nat, 0%nat); (0%nat, 1%nat)] [])
                1%nat "r1" (mkRoom "r1" (Some 0%nat) (Some 1%nat))
                (lookup_singleton_eq _ _)) as (H1 & _ & H2 & _).
  split; [exact H1 | exact H2].
Defined.

(** X7. A peer that joins a room whose slot A is free takes slot A and
    is given no partner, also when slot B is occupied: after the first
    peer of a pair has left, the peer that replaces it sits in the room
    with the remaining one, and no relay is wired between the two. *)
Theorem rejoining_peer_is_not_paired :
  forall (st : ServerState) (roomID : string) (a b : PeerRef)
         (req : Request) (s : Session),
    roomID <> ""%string -> joins roomID req -> setupSucceeded s ->
    rooms st !! roomID = Some (mkRoom roomID (Some a) (Some b)) ->
    let st' := serverRun st [EvConnectionState a roomID true; EvRequest req s] in
    rooms st' !! roomID = Some (mkRoom roomID (Some (nextPeer st)) (Some b)) /\
    relays st' = relays st /\
    addPeer (mkRoom roomID None (Some b)) (Some (nextPeer st))
      = (mkRoom roomID (Some (nextPeer st)) (Some b), None).
Proof.
  intros st roomID a b req s Hr J S Hroom st'.
  unfold st', serverRun. cbn [fold_left serverStep].
  pose proof (serverStep_join (Server.onConnectionStateChange st a roomID true)
                roomID req s J Hr S) as E.
  cbn [serverStep] in E. rewrite E. clear E.
  unfold Server.onConnectionStateChange.
  cbn [rooms nextPeer relays watchers].
  unfold roomRemovePeer, roomOrNew, waitingPeer. rewrite Hroom, lookup_insert_eq.
  unfold removePeer. cbn [PeerA PeerB ID ptr_eqb]. rewrite Nat.eqb_refl.
  cbn [addPeer PeerA PeerB ID fst].
  rewrite lookup_insert_eq, app_nil_r. repeat split.
Qed.

Lemma rejoining_peer_is_not_paired_witness :
  let st := mkServer {["r1"%string := mkRoom "r1" (Some 0%nat) (Some 1%nat)]}
                     2%nat [(1%nat, 0%nat); (0%nat, 1%nat)] [] in
  let st' := serverRun st [EvConnectionState 0%nat "r1" true;
                           EvRequest (mkRequest "POST" "r1" (Some "v=0"))
                                     (okSession "answer")] in
  rooms st' !! "r1"%string = Some (mkRoom "r1" (Some 2%nat) (Some 1%nat)) /\
  relays st' = [(1%nat, 0%nat); (0%nat, 1%nat)] /\
  addPeer (mkRoom "r1" None (Some 1%nat)) (Some 2%nat)
    = (mkRoom "r1" (Some 2%nat) (Some 1%nat), None).
Proof.
  refine (rejoining_peer_is_not_paired
            (mkServer {["r1"%string := mkRoom "r1" (Some 0%nat) (Some 1%nat)]}
                      2%nat [(1%nat, 0%nat); (0%nat, 1%nat)] [])
            "r1" 0%nat 1%nat (mkRequest "POST" "r1" (Some "v=0"))
            (okSession "answer") _ _ _ (lookup_singleton_eq _ _)).
  - discriminate.
  - split; [discriminate|]. split; [reflexivity|]. eexists. reflexivity.
  - repeat split.
Defined.

Lemma occupants_roomOrNew (rs : gmap string Room) roomID p :
  In p (occupants (roomOrNew rs roomID)) ->
  exists r, rs !! roomID = Some r /\ In p (occupants r).
Proof.
  unfold roomOrNew. destruct (rs !! roomID) as [r|].
  - intros H. now exists r.
  - intros [].
Qed.

Lemma serverStep_cases st ev :
  serverStep st ev = st \/
  (exists roomID,
      rooms (serverStep st ev)
        = <[roomID := fst (addPeer (roomOrNew (rooms st) roomID)
                                   (Some (nextPeer st)))]> (rooms st) /\
      nextPeer (serverStep st ev) = S (nextPeer st)) \/
  (exists roomID r peer,
      rooms st !! roomID = Some r /\
      rooms (serverStep st ev) = <[roomID := removePeer r peer]> (rooms st) /\
      nextPeer (serverStep st ev) = nextPeer st).
Proof.
  destruct ev as [req s|peer roomID failed]; cbn [serverStep].
  - destruct (whipHandler_state st req s) as [->|[Hrooms Hnext]]; [now left|].
    right. left. exists (roomParam req). split; [|exact Hnext].
    now rewrite Hrooms, register_insert.
  - unfold Server.onConnectionStateChange. destruct failed; [|now left].
    unfold roomRemovePeer.
    destruct (rooms st !! roomID) as [r|] eqn:E.
    + right. right. exists roomID, r, (Some peer). repeat split. exact E.
    + left. now destruct st.
Qed.

Lemma peersUnique_step st ev :
  roomsOk st -> peersUnique st -> peersUnique (serverStep st ev).
Proof.
  intros Hok Huniq.
  destruct (serverStep_cases st ev)
    as [->|[(roomID & Hrooms & _)|(roomID & r & peer & Hr & Hrooms & _)]];
    [exact Huniq| |].
  - intros id1 id2 r1 r2 p. rewrite Hrooms.
    assert (Hnew : forall id' r', id' <> roomID -> rooms st !! id' = Some r' ->
                     In p (occupants r') ->
                     In p (occupants (fst (addPeer (roomOrNew (rooms st) roomID)
                                                   (Some (nextPeer st))))) ->
                     False).
    { intros id' r' Hne Hr' Hp' Hp.
      apply occupants_addPeer in Hp. destruct Hp as [Hp| ->].
      - apply occupants_roomOrNew in Hp. destruct Hp as (r0 & Hr0 & Hp0).
        apply Hne. exact (Huniq id' roomID r' r0 p Hr' Hr0 Hp' Hp0).
      - destruct (Hok id' r' Hr') as [Hlt _]. specialize (Hlt _ Hp'). lia. }
    destruct (decide (id1 = roomID)) as [->|N1];
      destruct (decide (id2 = roomID)) as [->|N2]; [reflexivity| | |].
    + rewrite lookup_insert_eq, lookup_insert_ne by auto.
      intros [= <-] H2 P1 P2. exfalso. exact (Hnew id2 r2 N2 H2 P2 P1).
    + rewrite lookup_insert_eq, lookup_insert_ne by auto.
      intros H1 [= <-] P1 P2. exfalso. exact (Hnew id1 r1 N1 H1 P1 P2).
    + rewrite !lookup_insert_ne by auto. apply Huniq.
  - intros id1 id2 r1 r2 p. rewrite Hrooms.
    destruct (decide (id1 = roomID)) as [->|N1];
      destruct (decide (id2 = roomID)) as [->|N2]; [reflexivity| | |].
    + rewrite lookup_insert_eq, lookup_insert_ne by auto.
      intros [= <-] H2 P1 P2. apply occupants_removePeer in P1.
      exact (Huniq roomID id2 r r2 p Hr H2 P1 P2).
    + rewrite lookup_insert_eq, lookup_insert_ne by auto.
      intros H1 [= <-] P1 P2. apply occupants_removePeer in P2.
      exact (Huniq id1 roomID r1 r p H1 Hr P1 P2).
    + rewrite !lookup_insert_ne by auto. apply Huniq.
Qed.

Lemma reachable_invariants evs :
  roomsOk (serverRun initialServer evs) /\
  peersUnique (serverRun initialServer evs).
Proof.
  unfold serverRun.
  assert (H0 : roomsOk initialServer /\ peersUnique initialServer).
  { split.
    - intros id r H. cbn in H. rewrite lookup_empty in H. discriminate.
    - intros id1 id2 r1 r2 p H. cbn in H. rewrite lookup_empty in H.
      discriminate. }
  revert H0. generalize initialServer.
  induction evs as [|ev evs IH]; intros st Hst; [exact Hst|].
  cbn [fold_left]. apply IH. destruct Hst as [H1 H2].
  split; [now apply roomsOk_step | now apply peersUnique_step].
Qed.

(** X8. In every state a server started empty reaches, a peer is
    registered at most once: it is in one room only, in one slot only,
    and it was allocated by an earlier request. *)
Theorem peers_are_registered_once :
  forall (evs : list ServerEvent) (id1 id2 : string) (r1 r2 : Room) (p : PeerRef),
    rooms (serverRun initialServer evs) !! id1 = Some r1 ->
    rooms (serverRun initialServer evs) !! id2 = Some r2 ->
    In p (occupants r1) -> In p (occupants r2) ->
    id1 = id2 /\ List.NoDup (occupants r1) /\
    (p < nextPeer (serverRun initialServer evs))%nat.
Proof.
  intros evs id1 id2 r1 r2 p H1 H2 P1 P2.
  destruct (reachable_invariants evs) as [Hok Huniq].
  split; [exact (Huniq id1 id2 r1 r2 p H1 H2 P1 P2)|].
  destruct (Hok id1 r1 H1) as [Hlt Hnd]. split; [exact Hnd | exact (Hlt p P1)].
Qed.

Lemma peers_are_registered_once_witness :
  "r1"%string = "r1"%string /\
  List.NoDup (occupants (mkRoom "r1" (Some 0%nat) (Some 1%nat))) /\
  (1 < nextPeer (serverRun initialServer
                   [EvRequest (mkRequest "POST" "r1" (Some "v=0")) (okSession "a");
                    EvRequest (mkRequest "POST" "r1" (Some "v=0")) (okSession "a")]))%nat.
Proof.
  assert (E : rooms (serverRun initialServer
                [EvRequest (mkRequest "POST" "r1" (Some "v=0")) (okSession "a");
                 EvRequest (mkRequest "POST" "r1" (Some "v=0")) (okSession "a")])
              !! "r1"%string = Some (mkRoom "r1" (Some 0%nat) (Some 1%nat))).
  { vm_compute. reflexivity. }
  refine (peers_are_registered_once _ "r1" "r1" _ _ 1%nat E E _ _);
    cbn; auto.
Defined.

(** ** The handler of part_001 *)

(** X9. The handler of part_001 is the handler of server/main.go with
    the codec registration out of the way: it can fail at the peer
    connection, the track or [AddTrack], before anything is registered,
    and like the other it hands the peer to [addPeer] before it
    negotiates, so a failed negotiation is answered 500 with the room as
    [addPeer] left it: the peer in its slot when one was free. *)
Theorem part_001_handler_registers_before_negotiating :
  forall (st : ServerState) (req : Request) (s : Session),
    Server1.whipHandler st req s = Server.whipHandler st req (codecRegistered s) /\
    (joins (roomParam req) req -> roomParam req <> ""%string ->
     NewPeerConnection s = None -> NewTrackLocalStaticRTP s = None ->
     AddTrack s = None -> negotiationFailed s ->
     exists res st',
       Server1.whipHandler st req s = (Responded res, st') /\
       Status res = StatusInternalServerError /\
       rooms st' = <[roomParam req :=
                      fst (addPeer (roomOrNew (rooms st) (roomParam req))
                                   (Some (nextPeer st)))]> (rooms st)).
Proof.
  intros st req s.
  assert (E : Server1.whipHandler st req s
              = Server.whipHandler st req (codecRegistered s)).
  { unfold Server1.whipHandler, Server.whipHandler, codecRegistered.
    cbn [RegisterCodec NewPeerConnection NewTrackLocalStaticRTP AddTrack].
    reflexivity. }
  split; [exact E|].
  intros Hj Hr H1 H2 H3 Hfail. rewrite E.
  rewrite (whipHandler_registers st req (codecRegistered s) Hj Hr)
    by (repeat split; assumption).
  eexists. eexists. split; [reflexivity|]. split.
  - apply writeAnswer_failed. exact Hfail.
  - cbn [rooms]. apply register_insert.
Qed.

(** ** The relay, header by header *)




(** ** Fragments of raw bytes *)

Lemma slice_as_take lo hi (b : list byte) :
  slice lo hi b = firstn (hi - lo) (skipn lo b).
Proof. reflexivity. Qed.

Lemma fragmentLoop_spec (audioData : list byte) : forall fuel i fragments,
  (length audioData - i < fuel)%nat ->
  exists fs,
    ClientRawTx.fragmentLoop fuel i audioData fragments = Some (fragments ++ fs) /\
    concat fs = skipn i audioData /\
    Forall (fun f => (1 <= length f <= 960)%nat) fs /\
    length fs = ((length audioData - i + 959) / 960)%nat /\
    (forall j, (S j < length fs)%nat -> length (nth j fs []) = 960%nat).
Proof.
  induction fuel as [|fuel IH]; intros i fragments Hfuel; [lia|].
  cbn [ClientRawTx.fragmentLoop]. unfold ClientRawTx.maxPayloadSize.
  destruct (Nat.ltb_spec i (length audioData)) as [Hi|Hi].
  - set (end_ := if (length audioData <? i + 960)%nat
                 then length audioData else (i + 960)%nat).
    destruct (IH (i + 960)%nat (fragments ++ [slice i end_ audioData])
                ltac:(lia)) as (fs & E & Hc & Hb & Hl & Hfull).
    exists (slice i end_ audioData :: fs).
    assert (Hlen : length (slice i end_ audioData)
                   = Nat.min 960 (length audioData - i)).
    { rewrite slice_as_take, length_firstn, length_skipn. unfold end_.
      destruct (Nat.ltb_spec (length audioData) (i + 960)); lia. }
    split; [rewrite E, <- app_assoc; reflexivity|]. split.
    { cbn [concat]. rewrite Hc, slice_as_take.
      rewrite <- (drop_drop audioData 960 i).
      unfold end_. destruct (Nat.ltb_spec (length audioData) (i + 960)).
      - rewrite (firstn_all2 (skipn i audioData)) by (rewrite length_skipn; lia).
        rewrite (skipn_all2 (skipn i audioData)) by (rewrite length_skipn; lia).
        apply app_nil_r.
      - replace (i + 960 - i)%nat with 960%nat by lia. apply firstn_skipn. }
    split; [constructor; [lia | exact Hb]|]. split.
    { cbn [length]. rewrite Hl.
      destruct (Nat.le_gt_cases (length audioData - i) 960) as [Hs|Hs].
      - replace (length audioData - (i + 960))%nat with 0%nat by lia.
        replace ((0 + 959) / 960)%nat with 0%nat by reflexivity.
        apply (Nat.div_unique _ 960 1 (length audioData - i - 1)); lia.
      - replace (length audioData - i + 959)%nat
          with ((length audioData - (i + 960) + 959) + 1 * 960)%nat by lia.
        rewrite Nat.div_add by lia. lia. }
    intros j Hj. cbn [length] in Hj. destruct j as [|j]; cbn [nth].
    + rewrite Hlen.
      destruct (Nat.le_gt_cases (length audioData - i) 960) as [Hs|Hs]; [|lia].
      exfalso. replace (length audioData - (i + 960))%nat with 0%nat in Hl by lia.
      change ((0 + 959) / 960)%nat with 0%nat in Hl. lia.
    + apply Hfull. lia.
  - exists []. rewrite app_nil_r. split; [reflexivity|].
    split; [now rewrite skipn_all2 by lia|]. split; [constructor|].
    split; [|cbn; intros; lia].
    replace (length audioData - i)%nat with 0%nat by lia. reflexivity.
Qed.

(** X11. [fragmentOpusAudio] returns, and cuts the bytes into consecutive
    fragments that put together give the input back: every fragment has
    between 1 and 960 bytes, every fragment but the last has exactly 960,
    there are [ceil(len / 960)] of them, and none for an empty input. *)
Theorem fragmentOpusAudio_partitions :
  forall audioData : list byte,
    exists fragments,
      ClientRawTx.fragmentOpusAudio audioData = Some fragments /\
      concat fragments = audioData /\
      Forall (fun f => (1 <= length f <= 960)%nat) fragments /\
      length fragments = ((length audioData + 959) / 960)%nat /\
      (forall j, (S j < length fragments)%nat ->
                 length (nth j fragments []) = 960%nat) /\
      (audioData = [] <-> fragments = []).
Proof.
  intros audioData. unfold ClientRawTx.fragmentOpusAudio.
  destruct (fragmentLoop_spec audioData (S (length audioData)) 0 [] ltac:(lia))
    as (fs & E & Hc & Hb & Hl & Hfull).
  exists fs. rewrite Nat.sub_0_r in Hl. rewrite drop_0 in Hc.
  repeat split; try assumption.
  - intros ->. destruct fs; [reflexivity | discriminate].
  - intros ->. now rewrite <- Hc.
Qed.

Lemma sendFragments_all fails n fragments : forall i,
  (forall j, (i <= j < i + length fragments)%nat -> fails j = false) ->
  ClientRawTx.sendFragments fails n i fragments
    (uint16 (Z.of_nat i)) (uint32 (960 * Z.of_nat i))
  = (framePacketsFrom 97 n i fragments, None).
Proof.
  induction fragments as [|f rest IH]; intros i Hok;
    cbn [ClientRawTx.sendFragments].
  - reflexivity.
  - rewrite (Hok i) by (simpl; lia).
    rewrite uint16_succ, uint32_next, IH by (intros j Hj; apply Hok; simpl; lia).
    reflexivity.
Qed.

Lemma Payload_framePacketsFrom pt n frames : forall i,
  map Payload (framePacketsFrom pt n i frames) = frames.
Proof.
  unfold framePacketsFrom.
  induction frames as [|f rest IH]; intros i; [reflexivity|].
  cbn [length seq combine map framePacket Payload]. now rewrite IH.
Qed.

(** X12. The [sendAudioToTrack] of the third program sends the bytes it
    is given as they are, without decoding them: with no failing write
    the payloads of the packets, put together, are the input, in
    [ceil(len / 960)] packets numbered like those of the other variants
    (payload type 97); nothing is sent for an empty input. *)
Theorem sendAudioToTrack_sends_raw_bytes :
  forall (fails : WriteOracle) (audioData : list byte),
    (forall i, (i < length audioData)%nat -> fails i = false) ->
    exists fragments,
      ClientRawTx.fragmentOpusAudio audioData = Some fragments /\
      ClientRawTx.sendAudioToTrack fails audioData
        = Some (framePackets 97 fragments, Sent) /\
      concat (map Payload (framePackets 97 fragments)) = audioData /\
      length (framePackets 97 fragments)
        = ((length audioData + 959) / 960)%nat.
Proof.
  intros fails audioData Hok.
  destruct (fragmentLoop_spec audioData (S (length audioData)) 0 [] ltac:(lia))
    as (fs & E & Hc & Hb & Hl & _).
  rewrite Nat.sub_0_r in Hl. rewrite drop_0 in Hc.
  change (ClientRawTx.fragmentOpusAudio audioData = Some fs) in E.
  exists fs. split; [exact E|].
  assert (Hle : (length fs <= length audioData)%nat).
  { rewrite <- Hc. clear -Hb. induction Hb as [|f l Hf _ IH]; cbn [concat length].
    - lia.
    - rewrite length_app. lia. }
  split.
  - unfold ClientRawTx.sendAudioToTrack. rewrite E.
    pose proof (sendFragments_all fails (length fs) fs 0
                  (fun j Hj => Hok j ltac:(lia))) as Hp.
    enter_at_zero Hp. rewrite Hp. reflexivity.
  - unfold framePackets.
    rewrite Payload_framePacketsFrom, length_framePacketsFrom. split; assumption.
Qed.

Lemma sendAudioToTrack_sends_raw_bytes_witness :
  exists fragments,
    ClientRawTx.fragmentOpusAudio (repeat x55 1000) = Some fragments /\
    ClientRawTx.sendAudioToTrack neverFails (repeat x55 1000)
      = Some (framePackets 97 fragments, Sent) /\
    concat (map Payload (framePackets 97 fragments)) = repeat x55 1000 /\
    length (framePackets 97 fragments)
      = ((length (repeat x55 1000) + 959) / 960)%nat.
Proof.
  apply (sendAudioToTrack_sends_raw_bytes neverFails (repeat x55 1000)).
  intros i _. reflexivity.
Defined.

(** ** The checksum is the CRC of the Ogg specification *)

(** X13. [crc32Ogg] computes the checksum of the Ogg specification: the
    table-driven loop gives, for every byte string, the remainder that
    the bit-by-bit division by the polynomial 0x04c11db7 gives, with the
    register started at zero and nothing reflected or complemented. The
    result always fits 32 bits. *)
Theorem crc32Ogg_is_the_bitwise_crc :
  forall data : list byte,
    ClientRaw.crc32Ogg data = crcBitwise data /\
    0 <= ClientRaw.crc32Ogg data < 2 ^ 32.
Proof.
  intros data. split; [|apply crc32Ogg_range].
  unfold ClientRaw.crc32Ogg, crcBitwise.
  assert (H : forall crc, 0 <= crc < 2 ^ 32 ->
                fold_left ClientRaw.crc32Step data crc = fold_left crcByte data crc).
  { induction data as [|b data IH]; intros crc Hc; [reflexivity|].
    cbn [fold_left]. rewrite <- (crc32Step_bitwise crc b Hc).
    apply IH, crc32Step_range. }
  apply H. lia.
Qed.

(** ** The pages of a container *)

Lemma uint32_add_l a b : uint32 (uint32 a + b) = uint32 (a + b).
Proof. unfold uint32. now rewrite Zplus_mod_idemp_l. Qed.

Lemma index_audioPages serial n packets : forall i granule index,
  map (fun p => uint32 (pageIndex p)) (audioPages serial n i packets granule index)
  = map (fun k => uint32 (index + Z.of_nat k))
        (seq 0 (length (List.filter validFrame packets))).
Proof.
  induction packets as [|packet rest IH]; intros i granule index;
    cbn [audioPages List.filter]; [reflexivity|].
  destruct (validFrame packet); [|apply IH].
  cbn [map singleSegmentPage pageIndex length seq].
  apply (f_equal2 cons); [f_equal; lia|].
  rewrite IH, <- (seq_shift _ 0), map_map. apply map_ext. intros k.
  rewrite uint32_add_l. f_equal. lia.
Qed.

Lemma shape_audioPages serial n packets : forall i granule index,
  Forall (fun p => pageSerial p = serial /\ length (pageSegments p) = 1%nat)
         (audioPages serial n i packets granule index).
Proof.
  induction packets as [|packet rest IH]; intros i granule index;
    cbn [audioPages]; [constructor|].
  destruct (validFrame packet); [|apply IH].
  constructor; [split; reflexivity | apply IH].
Qed.

(** X14. The pages of the container [createOggOpusFile] makes, as the
    reader reports them, are numbered 0, 1, 2, ... without a gap: a frame
    that is skipped takes no page number. Every page carries the capture
    pattern OggS, the version 0, the one serial number taken from the
    clock, and a segment table of one entry. *)
Theorem createOggOpusFile_numbers_pages :
  forall (now : Z) (packets : list (list byte)),
  exists pages,
    oggreader.pages (ClientRaw.createOggOpusFile now packets) = Some pages /\
    map (fun hp => oggreader.index (fst hp)) pages
      = map (fun k => uint32 (Z.of_nat k))
            (seq 0 (2 + length (List.filter validFrame packets))) /\
    Forall (fun hp =>
              oggreader.sig (fst hp) = list_byte_of_string "OggS" /\
              oggreader.version (fst hp) = x00 /\
              oggreader.serial (fst hp) = uint32 now /\
              oggreader.segmentsCount (fst hp) = x01) pages.
Proof.
  intros now packets. exists (parsed (containerPages now packets)).
  split; [apply pages_createOggOpusFile|]. split.
  - unfold parsed. rewrite map_map. cbn [fst headerOf oggreader.index].
    unfold containerPages, audioPagesOf.
    cbn [map singleSegmentPage pageIndex Nat.add seq].
    do 2 (apply (f_equal2 cons); [reflexivity|]).
    rewrite index_audioPages.
    rewrite <- (seq_shift _ 1), <- (seq_shift _ 0), !map_map.
    apply map_ext. intros k. f_equal. lia.
  - unfold parsed. apply Forall_map.
    assert (H : Forall (fun p => pageSerial p = uint32 now /\
                                 length (pageSegments p) = 1%nat)
                       (containerPages now packets)).
    { unfold containerPages, audioPagesOf.
      do 2 (constructor; [split; reflexivity|]). apply shape_audioPages. }
    eapply List.Forall_impl; [|exact H].
    intros p [Hs Hl]. cbn [fst headerOf oggreader.sig oggreader.version
                           oggreader.serial oggreader.segmentsCount].
    rewrite Hs, Hl. repeat split.
    unfold uint32. apply Zmod_mod.
Qed.

Lemma filter_last_valid packets :
  packets <> [] -> validFrame (List.last packets []) = true ->
  (1 <= length (List.filter validFrame packets))%nat.
Proof.
  induction packets as [|p rest IH]; intros Hne Hlast; [congruence|].
  destruct rest as [|q rest].
  - cbn [List.last] in Hlast. cbn [List.filter]. rewrite Hlast. simpl. lia.
  - change (List.last (p :: q :: rest) []) with (List.last (q :: rest) []) in Hlast.
    cbn [List.filter]. specialize (IH ltac:(discriminate) Hlast).
    destruct (validFrame p); cbn [length]; cbn [List.filter] in IH; lia.
Qed.

Lemma audioPages_cons serial n i p rest granule index :
  audioPages serial n i (p :: rest) granule index
  = if validFrame p then
      singleSegmentPage (if Z.of_nat i =? Z.of_nat n - 1 then x04 else x00)
                        (uint64 (granule + 960)) serial index p
      :: audioPages serial n (S i) rest (uint64 (granule + 960)) (uint32 (index + 1))
    else audioPages serial n (S i) rest granule index.
Proof. reflexivity. Qed.

Lemma filter_cons_eq {A} (f : A -> bool) x l :
  List.filter f (x :: l) = if f x then x :: List.filter f l else List.filter f l.
Proof. reflexivity. Qed.

Lemma types_audioPages serial packets : forall n i granule index,
  n = (i + length packets)%nat ->
  packets <> [] -> validFrame (List.last packets []) = true ->
  map pageType (audioPages serial n i packets granule index)
  = repeat x00 (length (List.filter validFrame packets) - 1) ++ [x04].
Proof.
  induction packets as [|p rest IH]; intros n i granule index Hn Hne Hlast;
    [congruence|].
  destruct rest as [|q rest].
  - cbn [List.last] in Hlast. cbn [audioPages List.filter]. rewrite Hlast.
    cbn [map singleSegmentPage pageType length Nat.sub repeat app].
    replace (Z.of_nat i =? Z.of_nat n - 1) with true
      by (symmetry; apply Z.eqb_eq; cbn [length] in Hn; lia).
    reflexivity.
  - change (List.last (p :: q :: rest) []) with (List.last (q :: rest) []) in Hlast.
    pose proof (filter_last_valid (q :: rest) ltac:(discriminate) Hlast) as Hm.
    assert (Hn' : n = (S i + length (q :: rest))%nat)
      by (cbn [length] in Hn |- *; lia).
    rewrite audioPages_cons, (filter_cons_eq validFrame p).
    destruct (validFrame p).
    + rewrite map_cons. cbn [singleSegmentPage pageType].
      replace (Z.of_nat i =? Z.of_nat n - 1) with false
        by (symmetry; apply Z.eqb_neq; cbn [length] in Hn; lia).
      rewrite (IH n (S i) _ _ Hn' ltac:(discriminate) Hlast).
      cbn [length].
      destruct (length (List.filter validFrame (q :: rest))) as [|m]; [lia|].
      cbn [Nat.sub]. rewrite Nat.sub_0_r. reflexivity.
    + apply (IH n (S i) _ _ Hn' ltac:(discriminate) Hlast).
Qed.

(** X15. When the last frame of a batch is one [createOggOpusFile] keeps,
    the header types of the container read 0x02 for the identification
    page, 0x00 for the comment page and for every audio page but the
    last, and 0x04, end of stream, for the last page and for that page
    only; the reader reports them so. *)
Theorem createOggOpusFile_marks_last_page :
  forall (now : Z) (packets : list (list byte)),
    packets <> [] -> validFrame (List.last packets []) = true ->
    let m := length (List.filter validFrame packets) in
    (1 <= m)%nat /\
    option_map headerTypes (oggreader.pages (ClientRaw.createOggOpusFile now packets))
      = Some (x02 :: x00 :: repeat x00 (m - 1) ++ [x04]).
Proof.
  intros now packets Hne Hlast m. split; [now apply filter_last_valid|].
  rewrite pages_createOggOpusFile. cbn [option_map]. f_equal.
  rewrite headerTypes_parsed. unfold containerPages, audioPagesOf.
  cbn [map singleSegmentPage pageType]. do 2 f_equal.
  apply types_audioPages; [reflexivity | exact Hne | exact Hlast].
Qed.

Lemma createOggOpusFile_marks_last_page_witness :
  option_map headerTypes
    (oggreader.pages (ClientRaw.createOggOpusFile 5 [[x01]; []; [x02; x03]]))
  = Some [x02; x00; x00; x04].
Proof.
  refine (proj2 (createOggOpusFile_marks_last_page 5 [[x01]; []; [x02; x03]] _ _)).
  - discriminate.
  - reflexivity.
Defined.

(** ** What the decoders refuse *)

Lemma bytes_eqb_eq a : forall b, bytes_eqb a b = true <-> a = b.
Proof.
  induction a as [|x a IH]; intros [|y b]; cbn [bytes_eqb];
    try (split; [discriminate | congruence]); [tauto|].
  rewrite andb_true_iff, IH. split.
  - intros [H ->]. now rewrite (Byte.byte_dec_bl _ _ H).
  - intros [= -> ->]. split; [now apply Byte.byte_dec_lb | reflexivity].
Qed.

Lemma pageBytes_split c p rest :
  pageBytes c p ++ rest
  = pageHeader27 c p ++ pageSegments p ++ pagePayload p ++ rest.
Proof.
  unfold pageBytes, pageHeader27, pageTail. now rewrite <- !app_assoc.
Qed.

(** The reader on a well-formed page whose checksum field holds [c]. *)
Lemma ParseNextPage_pageBytes c p rest :
  wellFormedPage p -> 0 <= c < 2 ^ 32 ->
  oggreader.ParseNextPage (pageBytes c p ++ rest)
  = if c =? ClientRaw.crc32Ogg (pageBytes 0 p)
    then oggreader.Page (pagePayload p) (headerOf p) rest
    else oggreader.PageError oggreader.errChecksumMismatch.
Proof.
  intros [Hseg Htotal] Hc.
  rewrite pageBytes_split. unfold oggreader.ParseNextPage.
  rewrite (ReadFull_app oggreader.pageHeaderLen (pageHeader27 c p))
    by (now rewrite length_pageHeader27).
  destruct (pageHeader27_fields c p)
    as (Hg & Hsig & Hv & Hty & Hser & Hidx & Hn & Hcs & Hsum).
  cbv zeta in Hg, Hsig, Hv, Hty, Hser, Hidx, Hn, Hcs, Hsum.
  cbv zeta. cbn [oggreader.segmentsCount].
  rewrite Hg, Hsig, Hv, Hty, Hser, Hidx, Hn, Hcs, Hsum.
  rewrite b2z_z2b_small by lia. rewrite Nat2Z.id.
  rewrite (ReadFull_app (length (pageSegments p)) (pageSegments p)) by reflexivity.
  fold (segmentsTotal (pageSegments p)). rewrite Htotal, Nat2Z.id.
  rewrite (ReadFull_app (length (pagePayload p)) (pagePayload p)) by reflexivity.
  rewrite <- !fold_left_app, fold_updateChecksum.
  replace (pageHeader27 0 p ++ pageSegments p ++ pagePayload p)
    with (pageBytes 0 p)
    by (unfold pageBytes, pageHeader27, pageTail; now rewrite <- !app_assoc).
  fold (ClientRaw.crc32Ogg (pageBytes 0 p)).
  rewrite (le_value_le_bytes_small 4 c) by exact Hc.
  destruct (c =? ClientRaw.crc32Ogg (pageBytes 0 p)); [|reflexivity].
  rewrite !le_value_le_bytes, pow256_8, pow256_4. reflexivity.
Qed.

(** A page the reader refuses after pages it accepts: the decoder's loop
    returns the error, whatever it has gathered. *)
Lemma readPages_fails ps s e : forall fuel acc,
  Forall wellFormedPage ps -> (length ps < fuel)%nat ->
  oggreader.ParseNextPage s = oggreader.PageError e ->
  oggreader.isEOF e = false ->
  ClientPion.readPages fuel (concat (map encodePage ps) ++ s) acc
  = Some (Failed e).
Proof.
  induction ps as [|p ps IH]; intros fuel acc Hwf Hfuel Hs He.
  - destruct fuel; [simpl in Hfuel; lia|].
    cbn [map concat app ClientPion.readPages]. now rewrite Hs, He.
  - destruct fuel; [simpl in Hfuel; lia|].
    cbn [map concat ClientPion.readPages]. rewrite <- app_assoc.
    rewrite ParseNextPage_encodePage by (now inversion Hwf).
    apply IH; [now inversion Hwf | simpl in Hfuel; lia | exact Hs | exact He].
Qed.

Lemma pagesFrom_fails ps s e : forall fuel,
  Forall wellFormedPage ps ->
  oggreader.ParseNextPage s = oggreader.PageError e ->
  oggreader.isEOF e = false ->
  oggreader.pagesFrom fuel (concat (map encodePage ps) ++ s) = None.
Proof.
  induction ps as [|p ps IH]; intros fuel Hwf Hs He.
  - destruct fuel; [reflexivity|].
    cbn [map concat app oggreader.pagesFrom]. now rewrite Hs, He.
  - destruct fuel; [reflexivity|].
    cbn [map concat oggreader.pagesFrom]. rewrite <- app_assoc.
    rewrite ParseNextPage_encodePage by (now inversion Hwf).
    rewrite IH; [reflexivity | now inversion Hwf | exact Hs | exact He].
Qed.

Lemma extract_fails first later s e :
  wellFormedPage first -> isIdPage first -> Forall wellFormedPage later ->
  oggreader.ParseNextPage s = oggreader.PageError e ->
  oggreader.isEOF e = false ->
  ClientPion.extractOpusPacketsFromOgg
    (concat (map encodePage (first :: later)) ++ s) = Some (Failed e) /\
  Client3.extractOpusPacketsFromOgg
    (concat (map encodePage (first :: later)) ++ s) = Some (Failed e).
Proof.
  intros Hf Hid Hl Hs He.
  assert (E : ClientPion.extractOpusPacketsFromOgg
                (concat (map encodePage (first :: later)) ++ s) = Some (Failed e)).
  { unfold ClientPion.extractOpusPacketsFromOgg.
    cbn [map concat]. rewrite <- app_assoc.
    rewrite NewWith_idPage by assumption.
    apply readPages_fails; try assumption.
    rewrite length_app. pose proof (length_concat_pages later). lia. }
  split; [exact E|]. now rewrite extract3_filters, E.
Qed.

Lemma sendAudioToTrack_fails audioData e fails :
  ClientPion.extractOpusPacketsFromOgg audioData = Some (Failed e) ->
  ClientPion.sendAudioToTrack fails audioData = Some ([], ExtractError e) /\
  Client3.sendAudioToTrack fails audioData = Some ([], ExtractError e).
Proof.
  intros E. unfold ClientPion.sendAudioToTrack, Client3.sendAudioToTrack.
  now rewrite extract3_filters, E.
Qed.

(** X16. A page whose checksum field does not hold the checksum of the
    page makes both decoders fail with the reader's checksum error,
    wherever it stands after an intact identification page and any
    number of intact pages, and whatever follows it: the
    frames of the pages before it are dropped with it, and
    [sendAudioToTrack] writes no packet. *)
Theorem decoders_refuse_a_damaged_page :
  forall (first : OggPage) (before : list OggPage) (bad : OggPage)
         (c : Z) (after : list byte),
    wellFormedPage first -> isIdPage first ->
    Forall wellFormedPage before -> wellFormedPage bad ->
    0 <= c < 2 ^ 32 -> c <> ClientRaw.crc32Ogg (pageBytes 0 bad) ->
    let container :=
      concat (map encodePage (first :: before)) ++ pageBytes c bad ++ after in
    ClientPion.extractOpusPacketsFromOgg container
      = Some (Failed oggreader.errChecksumMismatch) /\
    Client3.extractOpusPacketsFromOgg container
      = Some (Failed oggreader.errChecksumMismatch) /\
    oggreader.pages container = None /\
    forall fails,
      ClientPion.sendAudioToTrack fails container
        = Some ([], ExtractError oggreader.errChecksumMismatch) /\
      Client3.sendAudioToTrack fails container
        = Some ([], ExtractError oggreader.errChecksumMismatch).
Proof.
  intros first before bad c after Hf Hid Hb Hbad Hc Hne container.
  assert (Hs : oggreader.ParseNextPage (pageBytes c bad ++ after)
               = oggreader.PageError oggreader.errChecksumMismatch).
  { rewrite ParseNextPage_pageBytes by assumption.
    now apply Z.eqb_neq in Hne as ->. }
  destruct (extract_fails first before _ _ Hf Hid Hb Hs eq_refl) as [E E3].
  split; [exact E|]. split; [exact E3|]. split.
  - apply (pagesFrom_fails _ _ oggreader.errChecksumMismatch);
      [now constructor | exact Hs | reflexivity].
  - intros fails. now apply sendAudioToTrack_fails.
Qed.

Lemma decoders_refuse_a_damaged_page_witness :
  let container :=
    concat (map encodePage [sampleHead; sampleTags]) ++ pageBytes 0 sampleAudio in
  Client3.extractOpusPacketsFromOgg container
    = Some (Failed oggreader.errChecksumMismatch) /\
  Client3.sendAudioToTrack neverFails container
    = Some ([], ExtractError oggreader.errChecksumMismatch).
Proof.
  assert (H1 : wellFormedPage sampleHead)
    by (split; [vm_compute; lia | reflexivity]).
  assert (H2 : Forall wellFormedPage [sampleTags])
    by (repeat constructor; vm_compute; lia).
  assert (H3 : isIdPage sampleHead) by (repeat split).
  assert (H4 : wellFormedPage sampleAudio)
    by (split; [vm_compute; lia | reflexivity]).
  assert (H5 : 0 <= 0 < 2 ^ 32) by lia.
  assert (H6 : 0 <> ClientRaw.crc32Ogg (pageBytes 0 sampleAudio))
    by (vm_compute; discriminate).
  pose proof (decoders_refuse_a_damaged_page
                sampleHead [sampleTags] sampleAudio 0 [] H1 H3 H2 H4 H5 H6) as H.
  cbv zeta in H. rewrite app_nil_r in H.
  destruct H as (_ & E3 & _ & S).
  split; [exact E3 | exact (proj2 (S neverFails))].
Defined.

(** X17. A container whose first page is well formed but is not an Opus
    identification header is refused by both decoders before any page is
    read for frames: with the reader's type error when the page is not
    marked beginning of stream, else with its length error when the
    payload is not 19 bytes long, else with its signature error.
    [sendAudioToTrack] then writes no packet. *)
Theorem decoders_require_the_identification_page :
  forall (first : OggPage) (rest : list byte),
    wellFormedPage first -> ~ isIdPage first ->
    let container := encodePage first ++ rest in
    let e :=
      if negb (Byte.eqb (pageType first) x02) then oggreader.errBadIDPageType
      else if negb (length (pagePayload first) =? 19)%nat
           then oggreader.errBadIDPageLength
           else oggreader.errBadIDPagePayloadSignature in
    ClientPion.extractOpusPacketsFromOgg container = Some (Failed e) /\
    Client3.extractOpusPacketsFromOgg container = Some (Failed e) /\
    forall fails,
      ClientPion.sendAudioToTrack fails container = Some ([], ExtractError e) /\
      Client3.sendAudioToTrack fails container = Some ([], ExtractError e).
Proof.
  intros first rest Hwf Hnot container e.
  assert (E : ClientPion.extractOpusPacketsFromOgg container = Some (Failed e)).
  { unfold ClientPion.extractOpusPacketsFromOgg, container, oggreader.NewWith.
    rewrite ParseNextPage_encodePage by exact Hwf.
    cbn [headerOf oggreader.sig oggreader.headerType].
    change (negb (bytes_eqb (list_byte_of_string "OggS")
                            oggreader.pageHeaderSignature)) with false.
    cbv iota. unfold oggreader.pageHeaderTypeBeginningOfStream,
      oggreader.idPagePayloadLength. subst e.
    destruct (Byte.eqb (pageType first) x02) eqn:Ety; cbn [negb]; [|reflexivity].
    destruct (Nat.eqb_spec (length (pagePayload first)) 19) as [Elen|Elen];
      cbn [negb]; [|reflexivity].
    destruct (bytes_eqb (slice 0 8 (pagePayload first)) oggreader.idPageSignature)
      eqn:Esig; cbn [negb]; [|reflexivity].
    exfalso. apply Hnot. repeat split.
    - now apply Byte.byte_dec_bl.
    - exact Elen.
    - apply bytes_eqb_eq in Esig. unfold slice in Esig.
      cbn [Nat.sub] in Esig. now rewrite drop_0 in Esig. }
  split; [exact E|]. split; [now rewrite extract3_filters, E|].
  intros fails. now apply sendAudioToTrack_fails.
Qed.

Lemma decoders_require_the_identification_page_witness :
  Client3.extractOpusPacketsFromOgg
    (encodePage sampleTags ++ encodePage sampleAudio)
    = Some (Failed oggreader.errBadIDPageType) /\
  ClientPion.sendAudioToTrack neverFails
    (encodePage sampleTags ++ encodePage sampleAudio)
    = Some ([], ExtractError oggreader.errBadIDPageType).
Proof.
  assert (H1 : wellFormedPage sampleTags)
    by (split; [vm_compute; lia | reflexivity]).
  assert (H2 : ~ isIdPage sampleTags) by (intros [H _]; discriminate H).
  pose proof (decoders_require_the_identification_page
                sampleTags (encodePage sampleAudio) H1 H2) as H.
  cbv zeta in H. destruct H as (_ & E3 & S).
  split; [exact E3 | exact (proj1 (S neverFails))].
Defined.

(** ** A container that ends inside a page *)

Lemma ReadFull_short n (s : list byte) :
  (length s < n)%nat ->
  oggreader.ReadFull n s
  = inr (if (length s =? 0)%nat then oggreader.EOF else oggreader.ErrUnexpectedEOF).
Proof.
  intros H. unfold oggreader.ReadFull.
  replace (n =? 0)%nat with false by (symmetry; apply Nat.eqb_neq; lia).
  destruct (length s =? 0)%nat; [reflexivity|].
  now replace (length s <? n)%nat with true by (symmetry; apply Nat.ltb_lt; lia).
Qed.

(** The reader on a stream that ends in the segment table or in the
    payload of a page: it returns the error of the read that fell short. *)
Lemma ParseNextPage_short c p s :
  wellFormedPage p ->
  (length s < length (pageSegments p) + length (pagePayload p))%nat ->
  s = firstn (length s) (pageSegments p ++ pagePayload p) ->
  oggreader.ParseNextPage (pageHeader27 c p ++ s)
  = oggreader.PageError
      (if ((length s =? 0) || (length s =? length (pageSegments p)))%nat
       then oggreader.EOF else oggreader.ErrUnexpectedEOF).
Proof.
  intros [Hseg Htotal] Hlen Hs.
  unfold oggreader.ParseNextPage.
  rewrite (ReadFull_app oggreader.pageHeaderLen (pageHeader27 c p))
    by (now rewrite length_pageHeader27).
  destruct (pageHeader27_fields c p) as (_ & _ & _ & _ & _ & _ & Hn & _).
  cbv zeta in Hn. cbv zeta. cbn [oggreader.segmentsCount].
  rewrite Hn, b2z_z2b_small by lia. rewrite Nat2Z.id.
  destruct (Nat.lt_ge_cases (length s) (length (pageSegments p))) as [Hlt|Hge].
  - rewrite ReadFull_short by exact Hlt.
    replace (length s =? length (pageSegments p))%nat with false
      by (symmetry; apply Nat.eqb_neq; lia).
    now rewrite orb_false_r.
  - assert (Hpos : (0 < length s)%nat).
    { destruct (pageSegments p) as [|x segs] eqn:Esegs.
      - unfold segmentsTotal in Htotal. cbn [fold_left length] in Htotal, Hlen. lia.
      - cbn [length] in Hge. lia. }
    rewrite take_app_ge in Hs by exact Hge.
    set (j := (length s - length (pageSegments p))%nat) in Hs.
    rewrite Hs at 1.
    rewrite (ReadFull_app (length (pageSegments p)) (pageSegments p)) by reflexivity.
    fold (segmentsTotal (pageSegments p)). rewrite Htotal, Nat2Z.id.
    assert (Hj : length (firstn j (pagePayload p)) = j)
      by (rewrite length_take; subst j; lia).
    rewrite ReadFull_short by (rewrite Hj; subst j; lia).
    rewrite Hj. f_equal.
    replace (length s =? 0)%nat with false
      by (symmetry; apply Nat.eqb_neq; lia).
    cbn [orb]. subst j.
    destruct (Nat.eqb_spec (length s) (length (pageSegments p))) as [E|E].
    + now replace (length s - length (pageSegments p) =? 0)%nat with true
        by (symmetry; apply Nat.eqb_eq; lia).
    + now replace (length s - length (pageSegments p) =? 0)%nat with false
        by (symmetry; apply Nat.eqb_neq; lia).
Qed.

Lemma ParseNextPage_cut p k :
  wellFormedPage p -> (0 < k < length (encodePage p))%nat ->
  oggreader.ParseNextPage (firstn k (encodePage p))
  = oggreader.PageError
      (if ((k =? 27) || (k =? 27 + length (pageSegments p)))%nat
       then oggreader.EOF else oggreader.ErrUnexpectedEOF).
Proof.
  intros Hwf Hk.
  pose proof (encodePage_split p []) as Hsplit. rewrite !app_nil_r in Hsplit.
  set (c := ClientRaw.crc32Ogg (pageBytes 0 p)) in Hsplit.
  assert (Hlen : length (encodePage p)
                 = (27 + (length (pageSegments p) + length (pagePayload p)))%nat).
  { rewrite Hsplit, !length_app, length_pageHeader27. reflexivity. }
  destruct (Nat.lt_ge_cases k 27) as [Hlt|Hge].
  - unfold oggreader.ParseNextPage, oggreader.pageHeaderLen.
    rewrite ReadFull_short by (rewrite length_take; lia).
    rewrite length_take.
    replace (k `min` length (encodePage p) =? 0)%nat with false
      by (symmetry; apply Nat.eqb_neq; lia).
    replace (k =? 27)%nat with false by (symmetry; apply Nat.eqb_neq; lia).
    now replace (k =? 27 + length (pageSegments p))%nat with false
      by (symmetry; apply Nat.eqb_neq; lia).
  - rewrite Hsplit, take_app_ge by (rewrite length_pageHeader27; exact Hge).
    rewrite length_pageHeader27.
    set (s := firstn (k - 27) (pageSegments p ++ pagePayload p)).
    assert (Hs : length s = (k - 27)%nat)
      by (subst s; rewrite length_take, length_app; lia).
    rewrite (ParseNextPage_short c p s Hwf);
      [| rewrite Hs; lia | now rewrite Hs].
    rewrite Hs. f_equal.
    destruct (Nat.eqb_spec k 27) as [->|E1].
    + reflexivity.
    + replace (k - 27 =? 0)%nat with false by (symmetry; apply Nat.eqb_neq; lia).
      cbn [orb].
      destruct (Nat.eqb_spec k (27 + length (pageSegments p))) as [->|E2].
      * now replace (27 + length (pageSegments p) - 27 =? length (pageSegments p))%nat
          with true by (symmetry; apply Nat.eqb_eq; lia).
      * now replace (k - 27 =? length (pageSegments p))%nat
          with false by (symmetry; apply Nat.eqb_neq; lia).
Qed.

(** Pages the reader accepts followed by bytes on which it reports the end
    of the stream: the decoder's loop returns what it has gathered. *)
Lemma readPages_eof ps s : forall fuel acc,
  Forall wellFormedPage ps -> (length ps < fuel)%nat ->
  oggreader.ParseNextPage s = oggreader.PageError oggreader.EOF ->
  ClientPion.readPages fuel (concat (map encodePage ps) ++ s) acc
  = Some (Packets (acc ++ map pagePayload ps)).
Proof.
  induction ps as [|p ps IH]; intros fuel acc Hwf Hfuel Hs.
  - destruct fuel; [simpl in Hfuel; lia|].
    cbn [map concat app ClientPion.readPages]. rewrite Hs.
    cbn [oggreader.isEOF]. now rewrite app_nil_r.
  - destruct fuel; [simpl in Hfuel; lia|].
    cbn [map concat ClientPion.readPages]. rewrite <- app_assoc.
    rewrite ParseNextPage_encodePage by (now inversion Hwf).
    rewrite IH; [|now inversion Hwf | simpl in Hfuel; lia | exact Hs].
    cbn [map]. now rewrite <- app_assoc.
Qed.

(** X18. A container cut off inside a page, after the identification page
    and any number of whole pages. Both decoders return the reader's
    unexpected-end error, and so drop every frame, unless the cut falls
    exactly after the 27 header bytes of the page or exactly after its
    segment table: there the reader reports a plain end of stream, which
    the decoders' loops take for the end of the container, and the frames
    of the whole pages are returned as if nothing were missing. *)
Theorem decoders_on_a_cut_container :
  forall (first : OggPage) (before : list OggPage) (p : OggPage) (k : nat),
    wellFormedPage first -> isIdPage first ->
    Forall wellFormedPage before -> wellFormedPage p ->
    (0 < k < length (encodePage p))%nat ->
    let container :=
      concat (map encodePage (first :: before)) ++ firstn k (encodePage p) in
    let atBoundary := ((k =? 27) || (k =? 27 + length (pageSegments p)))%nat in
    ClientPion.extractOpusPacketsFromOgg container
      = Some (if atBoundary then Packets (map pagePayload before)
              else Failed oggreader.ErrUnexpectedEOF) /\
    Client3.extractOpusPacketsFromOgg container
      = Some (if atBoundary
              then Packets (List.filter keptFrame (map pagePayload before))
              else Failed oggreader.ErrUnexpectedEOF).
Proof.
  intros first before p k Hf Hid Hb Hp Hk container atBoundary.
  pose proof (ParseNextPage_cut p k Hp Hk) as Hs. fold atBoundary in Hs.
  assert (E : ClientPion.extractOpusPacketsFromOgg container
              = Some (if atBoundary then Packets (map pagePayload before)
                      else Failed oggreader.ErrUnexpectedEOF)).
  { destruct atBoundary.
    - unfold ClientPion.extractOpusPacketsFromOgg, container.
      cbn [map concat]. rewrite <- app_assoc.
      rewrite NewWith_idPage by assumption.
      rewrite readPages_eof; [reflexivity | exact Hb | | exact Hs].
      rewrite length_app. pose proof (length_concat_pages before). lia.
    - exact (proj1 (extract_fails first before _ _ Hf Hid Hb Hs eq_refl)). }
  split; [exact E|]. rewrite extract3_filters, E. now destruct atBoundary.
Qed.

Lemma decoders_on_a_cut_container_witness :
  ClientPion.extractOpusPacketsFromOgg
    (concat (map encodePage [sampleHead; sampleTags])
     ++ firstn 27 (encodePage sampleAudio))
  = Some (Packets [ClientRaw.opusTags]).
Proof.
  assert (H1 : wellFormedPage sampleHead)
    by (split; [vm_compute; lia | reflexivity]).
  assert (H2 : Forall wellFormedPage [sampleTags])
    by (repeat constructor; vm_compute; lia).
  assert (H3 : isIdPage sampleHead) by (repeat split).
  assert (H4 : wellFormedPage sampleAudio)
    by (split; [vm_compute; lia | reflexivity]).
  assert (H5 : (0 < 27 < length (encodePage sampleAudio))%nat)
    by (rewrite length_encodePage; vm_compute; lia).
  exact (proj1 (decoders_on_a_cut_container
                  sampleHead [sampleTags] sampleAudio 27 H1 H3 H2 H4 H5)).
Defined.

(** ** Listening *)

Lemma listen_partition events : forall acc,
  concat (map fst (fst (ListenRaw.listen events acc))) ++ snd (ListenRaw.listen events acc)
    = acc ++ receivedPayloads events /\
  Forall (fun b =>
            fst b <> [] /\
            ClientPion.extractOpusPacketsFromOgg (snd b)
              = Some (Packets (ClientRaw.opusTags :: List.filter validFrame (fst b))))
         (fst (ListenRaw.listen events acc)).
Proof.
  induction events as [|[pkt|now] rest IH]; intros acc.
  - cbn [ListenRaw.listen receivedPayloads fst snd map concat app].
    rewrite app_nil_r. split; [reflexivity | constructor].
  - cbn [ListenRaw.listen receivedPayloads].
    destruct (IH (acc ++ [Payload pkt])) as [E F]. split; [|exact F].
    rewrite E, <- app_assoc. reflexivity.
  - cbn [ListenRaw.listen receivedPayloads].
    destruct (Nat.ltb_spec 0 (length acc)) as [Hpos|Hzero].
    + destruct (IH []) as [E F]. cbn [app] in E.
      cbn [fst snd map concat]. split.
      * now rewrite <- app_assoc, E.
      * constructor; [|exact F]. cbn [fst snd]. split.
        -- intros ->. simpl in Hpos. lia.
        -- apply extract_createOggOpusFile.
    + apply IH.
Qed.

Lemma listen_tick_empties events now : forall acc,
  snd (ListenRaw.listen (events ++ [Tick now]) acc) = [].
Proof.
  induction events as [|[pkt|now'] rest IH]; intros acc.
  - cbn [app ListenRaw.listen].
    destruct (Nat.ltb_spec 0 (length acc)) as [Hpos|Hzero]; [reflexivity|].
    cbn [snd]. destruct acc; [reflexivity | simpl in Hzero; lia].
  - cbn [app ListenRaw.listen]. apply IH.
  - cbn [app ListenRaw.listen].
    destruct (0 <? length acc)%nat; [cbn [snd]|]; apply IH.
Qed.

(** X19. The listener of the third program hands every payload it
    received to [createOggOpusFile] once and in the order of arrival: the
    batches taken at the ticks, put together, and the packets not yet
    taken are the payloads received. No batch is empty, a tick with
    nothing gathered makes no container, and right after a tick nothing
    is pending. The container made of a batch decodes to the comment
    header followed by the payloads of 1 to 255 bytes of that batch;
    payloads that are empty or longer never reach the transcription. *)
Theorem listen_batches_received_payloads :
  forall (events : list ListenEvent),
    let batches := fst (ListenRaw.listen events []) in
    let pending := snd (ListenRaw.listen events []) in
    concat (map fst batches) ++ pending = receivedPayloads events /\
    Forall (fun b =>
              fst b <> [] /\
              ClientPion.extractOpusPacketsFromOgg (snd b)
                = Some (Packets (ClientRaw.opusTags
                                 :: List.filter validFrame (fst b))))
           batches /\
    (forall now, snd (ListenRaw.listen (events ++ [Tick now]) []) = []) /\
    (forall now, ListenRaw.listen [Tick now] [] = ([], [])).
Proof.
  intros events batches pending.
  destruct (listen_partition events []) as [E F].
  split; [exact E|]. split; [exact F|]. split.
  - intros now. apply listen_tick_empties.
  - reflexivity.
Qed.

(** ** Listening in part_003 *)

Lemma receive_nil acc n :
  Listen3.receive [] acc n
  = if (length acc =? 0)%nat then [] else [FinalBatch (S n) acc].
Proof. reflexivity. Qed.

Lemma receive_cons pkt rest acc n :
  Listen3.receive (pkt :: rest) acc n
  = if (150 <=? length (acc ++ [Payload pkt]))%nat || Marker (Hdr pkt) then
      RawBatch (S n) (acc ++ [Payload pkt]) (concat (acc ++ [Payload pkt]))
      :: Listen3.receive rest [] (S n)
    else Listen3.receive rest (acc ++ [Payload pkt]) n.
Proof. reflexivity. Qed.

Lemma receive_inv reads : forall acc n,
  (length acc < 150)%nat ->
  concat (map flushedPackets (Listen3.receive reads acc n))
    = acc ++ map Payload reads /\
  map flushedCount (Listen3.receive reads acc n)
    = seq (S n) (length (Listen3.receive reads acc n)) /\
  Forall (fun f => (1 <= length (flushedPackets f) <= 150)%nat)
         (Listen3.receive reads acc n) /\
  Forall (fun f => isRawBatch f = true)
         (removelast (Listen3.receive reads acc n)).
Proof.
  induction reads as [|pkt rest IH]; intros acc n Hacc.
  - rewrite receive_nil.
    destruct (Nat.eqb_spec (length acc) 0) as [E|E].
    + destruct acc; [|discriminate].
      split; [reflexivity|]. split; [reflexivity|]. split; constructor.
    + cbn [map flushedPackets flushedCount concat length seq removelast].
      rewrite !app_nil_r.
      split; [reflexivity|]. split; [reflexivity|]. split; [|constructor].
      constructor; [cbn [flushedPackets]; lia | constructor].
  - rewrite receive_cons.
    assert (Hlen : length (acc ++ [Payload pkt]) = S (length acc))
      by (rewrite length_app; simpl; lia).
    destruct ((150 <=? length (acc ++ [Payload pkt]))%nat || Marker (Hdr pkt))
      eqn:Hflush.
    + destruct (IH [] (S n) ltac:(simpl; lia)) as (E & C & Hsz & R).
      cbn [map flushedPackets flushedCount concat length seq].
      rewrite E, C. cbn [app]. rewrite <- app_assoc.
      split; [reflexivity|]. split; [reflexivity|]. split.
      * constructor; [cbn [flushedPackets]; lia | exact Hsz].
      * destruct (Listen3.receive rest [] (S n)) as [|f out] eqn:Eout;
          [constructor|].
        change (removelast (RawBatch (S n) (acc ++ [Payload pkt])
                                     (concat (acc ++ [Payload pkt])) :: f :: out))
          with (RawBatch (S n) (acc ++ [Payload pkt])
                         (concat (acc ++ [Payload pkt])) :: removelast (f :: out)).
        constructor; [reflexivity | exact R].
    + apply orb_false_iff in Hflush as [Hsize _].
      apply Nat.leb_gt in Hsize.
      destruct (IH (acc ++ [Payload pkt]) n Hsize) as (E & C & Hsz & R).
      rewrite E, <- app_assoc.
      split; [reflexivity|]. split; [exact C|]. split; [exact Hsz | exact R].
Qed.

Lemma receive_marker_last l x : forall acc n,
  Marker (Hdr x) = true ->
  Forall (fun f => isRawBatch f = true) (Listen3.receive (l ++ [x]) acc n).
Proof.
  induction l as [|pkt rest IH]; intros acc n Hx.
  - cbn [app]. rewrite receive_cons, Hx, orb_true_r.
    constructor; [reflexivity | constructor].
  - cbn [app]. rewrite receive_cons.
    destruct (_ || _); [constructor; [reflexivity|]|]; now apply IH.
Qed.

Lemma batch_sizes_small t :
  (0 < t < 150)%nat ->
  repeat 150%nat (t / 150) ++ (if (t mod 150 =? 0)%nat then [] else [t mod 150]%nat)
  = [t].
Proof.
  intros H. rewrite Nat.div_small, Nat.mod_small by lia.
  now replace (t =? 0)%nat with false by (symmetry; apply Nat.eqb_neq; lia).
Qed.

Lemma batch_sizes_full r :
  repeat 150%nat ((150 + r) / 150)
    ++ (if ((150 + r) mod 150 =? 0)%nat then [] else [(150 + r) mod 150]%nat)
  = 150%nat :: repeat 150%nat (r / 150)
    ++ (if (r mod 150 =? 0)%nat then [] else [r mod 150]%nat).
Proof.
  replace (150 + r)%nat with (r + 1 * 150)%nat by lia.
  rewrite Nat.div_add, Nat.Div0.mod_add by lia.
  rewrite Nat.add_1_r. reflexivity.
Qed.

Lemma receive_sizes reads : forall acc n,
  (length acc < 150)%nat ->
  Forall (fun p => Marker (Hdr p) = false) (removelast reads) ->
  map (fun f => length (flushedPackets f)) (Listen3.receive reads acc n)
  = repeat 150%nat ((length acc + length reads) / 150)
    ++ (if ((length acc + length reads) mod 150 =? 0)%nat then []
        else [(length acc + length reads) mod 150]%nat).
Proof.
  induction reads as [|pkt rest IH]; intros acc n Hacc Hm.
  - rewrite receive_nil. cbn [length]. rewrite Nat.add_0_r.
    destruct (Nat.eqb_spec (length acc) 0) as [E|E].
    + rewrite E. reflexivity.
    + cbn [map flushedPackets]. symmetry. apply batch_sizes_small. lia.
  - rewrite receive_cons.
    assert (Hlen : length (acc ++ [Payload pkt]) = S (length acc))
      by (rewrite length_app; simpl; lia).
    assert (Hrest : Forall (fun p => Marker (Hdr p) = false) (removelast rest)).
    { destruct rest as [|q rest]; [constructor|].
      change (removelast (pkt :: q :: rest))
        with (pkt :: removelast (q :: rest)) in Hm.
      now inversion Hm. }
    cbn [length].
    destruct (Nat.leb_spec 150 (length (acc ++ [Payload pkt]))) as [Hfull|Hroom].
    + cbn [orb map flushedPackets].
      rewrite (IH [] (S n) ltac:(simpl; lia) Hrest). cbn [length Nat.add].
      replace (length acc + S (length rest))%nat with (150 + length rest)%nat by lia.
      rewrite batch_sizes_full, Hlen. f_equal. lia.
    + cbn [orb]. destruct (Marker (Hdr pkt)) eqn:Hmark.
      * destruct rest as [|q rest].
        -- rewrite receive_nil. cbn [map flushedPackets length Nat.eqb].
           symmetry. rewrite Hlen.
           replace (length acc + 1)%nat with (S (length acc)) by lia.
           apply batch_sizes_small. lia.
        -- change (removelast (pkt :: q :: rest))
             with (pkt :: removelast (q :: rest)) in Hm.
           inversion Hm; congruence.
      * rewrite (IH _ n Hroom Hrest), Hlen.
        now replace (S (length acc) + length rest)%nat
          with (length acc + S (length rest))%nat by lia.
Qed.

(** X20. The listener of part_003 writes out every payload it read once
    and in order: the batches, put together, are the payloads read.
    Batches are numbered 1, 2, 3, ..., none is empty, none has more than
    150 packets, and only the last can be one handed to [processBatch],
    which happens when the track ends with packets gathered; all others
    are written raw. When no packet but perhaps the last carries the
    marker, the batches have 150 packets each, except a last one with the
    remainder. When the last packet read carries the marker, every batch
    is written raw and [processBatch] gets nothing to put in a container
    and to transcribe. *)
Theorem receive_batches_payloads :
  forall (reads : list Packet),
    let out := Listen3.receive reads [] 0 in
    concat (map flushedPackets out) = map Payload reads /\
    map flushedCount out = seq 1 (length out) /\
    Forall (fun f => (1 <= length (flushedPackets f) <= 150)%nat) out /\
    Forall (fun f => isRawBatch f = true) (removelast out) /\
    (Forall (fun p => Marker (Hdr p) = false) (removelast reads) ->
       map (fun f => length (flushedPackets f)) out
       = repeat 150%nat (length reads / 150)
         ++ (if (length reads mod 150 =? 0)%nat then []
             else [length reads mod 150]%nat)) /\
    (forall l x, reads = l ++ [x] -> Marker (Hdr x) = true ->
       Forall (fun f => isRawBatch f = true) out) /\
    (reads = [] -> out = []).
Proof.
  intros reads out.
  destruct (receive_inv reads [] 0 ltac:(simpl; lia)) as (E & C & Hsz & R).
  split; [exact E|]. split; [exact C|]. split; [exact Hsz|]. split; [exact R|].
  split; [|split].
  - intros Hm. exact (receive_sizes reads [] 0 ltac:(simpl; lia) Hm).
  - intros l x -> Hx. now apply receive_marker_last.
  - intros ->. reflexivity.
Qed.

(** ** From the sender of part_003 through the relay to its listener *)

Lemma framePacketsFrom_snoc pt n fs f : forall i,
  framePacketsFrom pt n i (fs ++ [f])
  = framePacketsFrom pt n i fs ++ [framePacket pt n (i + length fs) f].
Proof.
  unfold framePacketsFrom.
  induction fs as [|g fs IH]; intros i.
  - cbn [app length seq combine map]. now rewrite Nat.add_0_r.
  - cbn [app length seq combine map]. rewrite IH.
    now replace (S i + length fs)%nat with (i + S (length fs))%nat by lia.
Qed.

Lemma Marker_framePacketsFrom pt n fs : forall i,
  (i + length fs < n)%nat ->
  Forall (fun p => Marker (Hdr p) = false) (framePacketsFrom pt n i fs).
Proof.
  unfold framePacketsFrom.
  induction fs as [|g fs IH]; intros i Hi; cbn [length seq combine map];
    constructor.
  - cbn [framePacket Hdr Marker]. apply Z.eqb_neq. cbn [length] in Hi. lia.
  - apply IH. cbn [length] in Hi. lia.
Qed.

Lemma relay_framePacketsFrom pt n frames : forall i,
  Forall (fun f => (0 < length f)%nat) frames ->
  map Relay.stripExtensions (framePacketsFrom pt n i frames)
    = framePacketsFrom pt n i frames /\
  map Relay1.newPkt (List.filter nonEmptyPayload (framePacketsFrom pt n i frames))
    = framePacketsFrom pt n i frames.
Proof.
  unfold framePacketsFrom.
  induction frames as [|f rest IH]; intros i Hne; [split; reflexivity|].
  inversion Hne as [|? ? Hf Hrest]; subst.
  destruct (IH (S i) Hrest) as [E E1].
  cbn [length seq combine map]. rewrite filter_cons_eq.
  unfold nonEmptyPayload at 1. cbn [framePacket Payload].
  replace (length f =? 0)%nat with false by (symmetry; apply Nat.eqb_neq; lia).
  cbn [negb map]. rewrite E, E1. split; reflexivity.
Qed.

(** X21. The three parts of the part_003 pipeline put together, each
    reading the packets the one before it wrote. For audio that decodes
    to at least one frame, the sender writes one packet per frame; the
    relay of either server, with no failing write, writes these very
    packets, unchanged; and the listener, reading them, puts out exactly
    the frames, in order, in batches of 150 and a remainder. Because the
    sender marks the last packet, the listener writes every batch raw:
    the path that builds an Ogg container and transcribes it is not
    taken for such a stream. *)
Theorem sender_relay_listener :
  forall (audioData : list byte) (frames : list (list byte)),
    Client3.extractOpusPacketsFromOgg audioData = Some (Packets frames) ->
    frames <> [] ->
    exists sent,
      Client3.sendAudioToTrack neverFails audioData = Some (sent, Sent) /\
      Relay.connectPeers RTPCodecTypeAudio neverFails sent = sent /\
      Relay1.connectPeers RTPCodecTypeAudio neverFails sent = sent /\
      let out := Listen3.receive sent [] 0 in
      concat (map flushedPackets out) = frames /\
      Forall (fun f => isRawBatch f = true) out /\
      map (fun f => length (flushedPackets f)) out
      = repeat 150%nat (length frames / 150)
        ++ (if (length frames mod 150 =? 0)%nat then []
            else [length frames mod 150]%nat).
Proof.
  intros audioData frames Hex Hne.
  exists (framePackets 96 frames).
  pose proof (extract3_nonempty _ _ Hex) as Hpos.
  destruct (relay_framePacketsFrom 96 (length frames) frames 0 Hpos) as [Er Er1].
  split; [apply sendAudioToTrack3_all; [exact Hex | reflexivity]|].
  split.
  { unfold Relay.connectPeers. rewrite forward_all by reflexivity. exact Er. }
  split.
  { unfold Relay1.connectPeers. rewrite forward1_all by reflexivity. exact Er1. }
  cbv zeta.
  destruct (receive_inv (framePackets 96 frames) [] 0 ltac:(simpl; lia))
    as (E & _).
  destruct (exists_last Hne) as (fs & f & Hfs).
  assert (Hsplit : framePackets 96 frames
                   = framePacketsFrom 96 (length frames) 0 fs
                     ++ [framePacket 96 (length frames) (length fs) f]).
  { unfold framePackets. rewrite Hfs at 2. now rewrite framePacketsFrom_snoc. }
  assert (Hn : length frames = S (length fs))
    by (rewrite Hfs, length_app; simpl; lia).
  split; [|split].
  - rewrite E. cbn [app]. apply Payload_framePacketsFrom.
  - rewrite Hsplit. apply receive_marker_last.
    cbn [framePacket Hdr Marker]. apply Z.eqb_eq. lia.
  - rewrite (receive_sizes (framePackets 96 frames) [] 0 ltac:(simpl; lia)).
    + cbn [length Nat.add]. unfold framePackets.
      now rewrite length_framePacketsFrom.
    + rewrite Hsplit, removelast_last.
      apply Marker_framePacketsFrom. lia.
Qed.

Lemma sender_relay_listener_witness :
  exists sent,
    Client3.sendAudioToTrack neverFails
      (ClientRaw.createOggOpusFile 0 [[x01]; [x02; x03]]) = Some (sent, Sent) /\
    Relay.connectPeers RTPCodecTypeAudio neverFails sent = sent /\
    Relay1.connectPeers RTPCodecTypeAudio neverFails sent = sent /\
    concat (map flushedPackets (Listen3.receive sent [] 0)) = [[x01]; [x02; x03]] /\
    Forall (fun f => isRawBatch f = true) (Listen3.receive sent [] 0).
Proof.
  destruct (sender_relay_listener
              (ClientRaw.createOggOpusFile 0 [[x01]; [x02; x03]])
              [[x01]; [x02; x03]]
              (extract3_createOggOpusFile 0 [[x01]; [x02; x03]])
              ltac:(discriminate))
    as (sent & Hs & R & R1 & E & F & _).
  exists sent. repeat split; assumption.
Defined.

(** ** From the sender of the third program to its listener *)

Lemma validFrame_length f :
  validFrame f = (1 <=? length f)%nat && (length f <=? 255)%nat.
Proof.
  unfold validFrame.
  destruct (Nat.eqb_spec (length f) 0), (Nat.ltb_spec 255 (length f)),
    (Nat.leb_spec 1 (length f)), (Nat.leb_spec (length f) 255);
    try reflexivity; lia.
Qed.

Lemma fragmentLoop_valid (audioData : list byte) : forall fuel i fragments out,
  ClientRawTx.fragmentLoop fuel i audioData fragments = Some out ->
  exists fs,
    out = fragments ++ fs /\
    List.filter validFrame fs
    = let r := ((length audioData - i) mod 960)%nat in
      if ((1 <=? r) && (r <=? 255))%nat
      then [skipn (length audioData - r) audioData] else [].
Proof.
  induction fuel as [|fuel IH]; intros i fragments out; [discriminate|].
  cbn [ClientRawTx.fragmentLoop]. unfold ClientRawTx.maxPayloadSize.
  destruct (Nat.ltb_spec i (length audioData)) as [Hi|Hi].
  - set (end_ := if (length audioData <? i + 960)%nat
                 then length audioData else (i + 960)%nat).
    intros Hout. destruct (IH _ _ _ Hout) as (fs & -> & Hfs).
    exists (slice i end_ audioData :: fs).
    split; [now rewrite <- app_assoc|].
    rewrite filter_cons_eq, Hfs, validFrame_length. cbv zeta.
    assert (Hlen : length (slice i end_ audioData)
                   = Nat.min 960 (length audioData - i)).
    { rewrite slice_as_take, length_firstn, length_skipn. unfold end_.
      destruct (Nat.ltb_spec (length audioData) (i + 960)); lia. }
    rewrite Hlen.
    destruct (Nat.le_gt_cases 960 (length audioData - i)) as [Hbig|Hsmall].
    + replace (Nat.min 960 (length audioData - i)) with 960%nat by lia.
      change ((1 <=? 960)%nat && (960 <=? 255)%nat) with false. cbv iota.
      replace (length audioData - i)%nat
        with ((length audioData - (i + 960)) + 1 * 960)%nat by lia.
      now rewrite Nat.Div0.mod_add.
    + replace (Nat.min 960 (length audioData - i))
        with (length audioData - i)%nat by lia.
      replace (length audioData - (i + 960))%nat with 0%nat by lia.
      change (0 mod 960)%nat with 0%nat.
      change ((1 <=? 0)%nat && (0 <=? 255)%nat) with false. cbv iota.
      rewrite (Nat.mod_small (length audioData - i)) by lia.
      replace (length audioData - (length audioData - i))%nat with i by lia.
      destruct ((1 <=? length audioData - i)%nat && (length audioData - i <=? 255)%nat);
        [|reflexivity].
      f_equal. rewrite slice_as_take. unfold end_.
      replace (length audioData <? i + 960)%nat with true
        by (symmetry; apply Nat.ltb_lt; lia).
      apply firstn_all2. rewrite length_skipn. lia.
  - intros [= <-]. exists []. split; [now rewrite app_nil_r|].
    replace (length audioData - i)%nat with 0%nat by lia. reflexivity.
Qed.

Lemma listen_received pkts rest : forall acc,
  ListenRaw.listen (map Received pkts ++ rest) acc
  = ListenRaw.listen rest (acc ++ map Payload pkts).
Proof.
  induction pkts as [|p pkts IH]; intros acc; cbn [map app ListenRaw.listen].
  - now rewrite app_nil_r.
  - rewrite IH, <- app_assoc. reflexivity.
Qed.

(** X22. The third program, sender to listener, each part reading the
    packets the one before it wrote. The sender cuts the bytes into
    fragments of 960 bytes and writes one packet per fragment; the relay
    of either server writes these packets unchanged; the listener, at the
    next tick, hands the fragments to [createOggOpusFile]. That function
    keeps payloads of at most 255 bytes only, so no fragment of 960 bytes
    gets a page: the container holds the final fragment when the length
    of the input leaves a remainder between 1 and 255, and no audio at
    all otherwise. *)
Theorem raw_sender_relay_listener :
  forall (audioData : list byte) (now : Z),
    audioData <> [] ->
    exists fragments sent container,
      ClientRawTx.fragmentOpusAudio audioData = Some fragments /\
      ClientRawTx.sendAudioToTrack neverFails audioData = Some (sent, Sent) /\
      Relay.connectPeers RTPCodecTypeAudio neverFails sent = sent /\
      Relay1.connectPeers RTPCodecTypeAudio neverFails sent = sent /\
      ListenRaw.listen (map Received sent ++ [Tick now]) []
        = ([(fragments, container)], []) /\
      concat fragments = audioData /\
      let r := (length audioData mod 960)%nat in
      let kept := if ((1 <=? r) && (r <=? 255))%nat
                  then [skipn (length audioData - r) audioData] else [] in
      List.filter validFrame fragments = kept /\
      ClientPion.extractOpusPacketsFromOgg container
        = Some (Packets (ClientRaw.opusTags :: kept)) /\
      Client3.extractOpusPacketsFromOgg container
        = Some (Packets (List.filter keptFrame kept)).
Proof.
  intros audioData now Hne.
  destruct (fragmentLoop_spec audioData (S (length audioData)) 0 [] ltac:(lia))
    as (fragments & Hfr & Hcat & Hsize & _).
  rewrite drop_0 in Hcat.
  change (ClientRawTx.fragmentOpusAudio audioData = Some fragments) in Hfr.
  assert (Hpos : Forall (fun f => (0 < length f)%nat) fragments).
  { eapply List.Forall_impl; [|exact Hsize]. cbv beta. intros f Hf. lia. }
  assert (Hfrne : fragments <> []) by (intros ->; now apply Hne).
  destruct (relay_framePacketsFrom 97 (length fragments) fragments 0 Hpos)
    as [Er Er1].
  destruct (fragmentLoop_valid audioData _ _ _ _ Hfr) as (fs & Efs & Hkept).
  cbn [app] in Efs. subst fs. rewrite Nat.sub_0_r in Hkept. cbv zeta in Hkept.
  exists fragments, (framePackets 97 fragments),
    (ClientRaw.createOggOpusFile now fragments).
  split; [exact Hfr|]. split.
  { unfold ClientRawTx.sendAudioToTrack. rewrite Hfr.
    pose proof (sendFragments_all neverFails (length fragments) fragments 0
                  (fun j _ => eq_refl)) as Hp.
    enter_at_zero Hp. rewrite Hp. reflexivity. }
  split.
  { unfold Relay.connectPeers. rewrite forward_all by reflexivity. exact Er. }
  split.
  { unfold Relay1.connectPeers. rewrite forward1_all by reflexivity. exact Er1. }
  split.
  { rewrite listen_received. cbn [app]. unfold framePackets.
    rewrite Payload_framePacketsFrom. cbn [ListenRaw.listen].
    destruct fragments; [congruence | reflexivity]. }
  split; [exact Hcat|]. cbv zeta.
  split; [exact Hkept|]. split.
  - now rewrite extract_createOggOpusFile, Hkept.
  - now rewrite extract3_createOggOpusFile, Hkept.
Qed.

Lemma raw_sender_relay_listener_witness :
  exists fragments sent container,
    ClientRawTx.sendAudioToTrack neverFails (repeat x55 1000) = Some (sent, Sent) /\
    ListenRaw.listen (map Received sent ++ [Tick 0]) []
      = ([(fragments, container)], []) /\
    concat fragments = repeat x55 1000 /\
    ClientPion.extractOpusPacketsFromOgg container
      = Some (Packets [ClientRaw.opusTags; repeat x55 40]).
Proof.
  destruct (raw_sender_relay_listener (repeat x55 1000) 0 ltac:(discriminate))
    as (fragments & sent & container & _ & Hs & _ & _ & Hl & Hc & H).
  cbv zeta in H. destruct H as (_ & E & _).
  exists fragments, sent, container.
  split; [exact Hs|]. split; [exact Hl|]. split; [exact Hc|]. exact E.
Defined.
